(** * file-to-image: the container codec, the pixel mapper and the
      dimension planner of [js/utils/canvas.js]

    The development embeds two generations of the canvas utilities:

    - [Canvas]: the multi-file utilities of [js/utils/canvas.js]
      (64-byte main header, 128-byte file headers, magic [F2P1]);
    - [Legacy]: the single-file utilities that the older embed and extract
      tabs import (32-byte header, [encodeFileToCanvas] and
      [decodeFileFromCanvas]); [js/utils/canvas.js] still carries a copy
      of this writer and the body of this reader.

    Around them it embeds the two worker scripts and the worker
    singletons of [js/utils/worker.js] ([Worker]), the selection and the
    encoding of the embed tab of [js/modules/embed.js] ([Embed]), and
    [copyToClipboard] of [js/modules/text-to-image.js] ([TextToImage]).

    Byte buffers ([ArrayBuffer], [Uint8Array], [Uint8ClampedArray]) are
    lists of integers; indices and sizes are integers, and rationals
    where the source divides; a call that can throw returns a [result],
    an [async] function a [Promise]; a progress callback is the list of
    fractions it was called with, oldest first. *)

From Stdlib Require Import ZArith QArith Qminmax Qround Lia String Ascii.
From stdpp Require Import base list.

Local Open Scope Z_scope.

(** ** Platform primitives *)

Module Js.

(** Every [throw] of the embedded functions, and the [RangeError] that
    [DataView] accessors and [TypedArray.prototype.set] raise out of
    bounds. *)
Inductive error : Type :=
  | RangeError
      (* DataView / TypedArray: offset is outside the bounds *)
  | InvalidMagic
      (* 'Invalid file format: Missing or invalid magic number' *)
  | UnsupportedVersion (version : Z)
      (* 'Unsupported version: ${version}. ...' *)
  | NoFilesFound
      (* 'No files found in the image' *)
  | NoValidFiles
      (* 'No valid files found in the image' *)
  | InvalidDataLength
      (* 'Invalid data length in header' *)
  | NotEnoughData.
      (* 'Image does not contain enough data' *)

Inductive result (A : Type) : Type :=
  | Ok (a : A)
  | Err (e : error).
Arguments Ok {A} a.
Arguments Err {A} e.

Definition bind {A B : Type} (m : result A) (k : A -> result B) : result B :=
  match m with
  | Ok a => k a
  | Err e => Err e
  end.

Notation "'let*' x ':=' m 'in' k" := (bind m (fun x => k))
  (at level 10, x name, m at level 100, k at level 200, only parsing).

(** [byteLength] / [length] of a buffer. *)
Definition byteLength (b : list Z) : Z := Z.of_nat (length b).

(** [new Uint8Array(n)]: zero-filled. *)
Definition zeros (n : Z) : list Z := replicate (Z.to_nat n) 0.

(** Indexed read [a[i]]; [undefined] out of range. *)
Definition at_index (a : list Z) (i : Z) : option Z :=
  if i <? 0 then None else a !! Z.to_nat i.

(** Indexed write [a[i] = v] on a typed array: a write outside the array
    is ignored, the array never grows. *)
Definition store (a : list Z) (i : Z) (v : Z) : list Z :=
  if i <? 0 then a else <[Z.to_nat i := v]> a.

(** Conversion of a stored number by [Uint8Array] (modulo 256) and by
    [Uint8ClampedArray] (clamped to 0..255). *)
Definition toUint8 (v : Z) : Z := v mod 256.
Definition toUint8Clamp (v : Z) : Z := Z.max 0 (Z.min 255 v).

(** [target.set(source, offset)]: throws when the source does not fit. *)
Definition typed_set (target source : list Z) (offset : Z) : result (list Z) :=
  if (offset <? 0) || (byteLength target <? offset + byteLength source)
  then Err RangeError
  else Ok (take (Z.to_nat offset) target ++ source
           ++ drop (Z.to_nat offset + length source) target).

(** [a.subarray(0, n)] and [a.slice(0, n)] for [0 <= n]. *)
Definition prefix (a : list Z) (n : Z) : list Z := take (Z.to_nat n) a.

(** [buffer.slice(start, end)]: both ends are clamped to the buffer. *)
Definition slice (a : list Z) (start stop : Z) : list Z :=
  let s := Z.max 0 (Z.min start (byteLength a)) in
  let e := Z.max 0 (Z.min stop (byteLength a)) in
  take (Z.to_nat (e - s)) (drop (Z.to_nat s) a).

(** [new Uint8Array(buffer, byteOffset, length)]: throws when the view
    leaves the buffer. *)
Definition view (a : list Z) (byteOffset len : Z) : result (list Z) :=
  if (byteOffset <? 0) || (len <? 0) || (byteLength a <? byteOffset + len)
  then Err RangeError
  else Ok (take (Z.to_nat len) (drop (Z.to_nat byteOffset) a)).

(** *** DataView, little-endian accessors *)

Definition in_view (a : list Z) (offset size : Z) : bool :=
  (0 <=? offset) && (offset + size <=? byteLength a).

Definition byte_at (a : list Z) (i : Z) : Z := default 0 (at_index a i).

Definition getUint8 (a : list Z) (offset : Z) : result Z :=
  if in_view a offset 1 then Ok (byte_at a offset) else Err RangeError.

Definition getUint16 (a : list Z) (offset : Z) : result Z :=
  if in_view a offset 2
  then Ok (byte_at a offset + Z.shiftl (byte_at a (offset + 1)) 8)
  else Err RangeError.

Definition getUint32 (a : list Z) (offset : Z) : result Z :=
  if in_view a offset 4
  then Ok (byte_at a offset
           + Z.shiftl (byte_at a (offset + 1)) 8
           + Z.shiftl (byte_at a (offset + 2)) 16
           + Z.shiftl (byte_at a (offset + 3)) 24)
  else Err RangeError.

Definition setUint8 (a : list Z) (offset v : Z) : result (list Z) :=
  if in_view a offset 1
  then Ok (store a offset (v mod 256))
  else Err RangeError.

Definition setUint16 (a : list Z) (offset v : Z) : result (list Z) :=
  if in_view a offset 2
  then Ok (store (store a offset (v mod 256))
                 (offset + 1) (Z.shiftr v 8 mod 256))
  else Err RangeError.

Definition setUint32 (a : list Z) (offset v : Z) : result (list Z) :=
  if in_view a offset 4
  then Ok (store (store (store (store a offset (v mod 256))
                               (offset + 1) (Z.shiftr v 8 mod 256))
                        (offset + 2) (Z.shiftr v 16 mod 256))
                 (offset + 3) (Z.shiftr v 24 mod 256))
  else Err RangeError.

(** *** Text encoding

    A JavaScript string is represented by its UTF-8 bytes, held in a
    [string].  [TextEncoder.encode] yields these bytes.  [TextDecoder]
    is created with its defaults ([utf-8], [ignoreBOM = false]), so
    [decode] drops one leading byte-order mark [EF BB BF] and decodes the
    rest; every other non-empty input decodes to a non-empty string (an
    ill-formed sequence becomes U+FFFD, kept here as the raw bytes). *)

Definition TextEncoder_encode (s : string) : list Z :=
  map (fun c => Z.of_N (N_of_ascii c)) (list_ascii_of_string s).


Definition strip_BOM (bs : list Z) : list Z :=
  match bs with
  | b0 :: b1 :: b2 :: rest =>
      if (b0 =? 0xEF) && (b1 =? 0xBB) && (b2 =? 0xBF) then rest else bs
  | _ => bs
  end.

Definition TextDecoder_decode (bs : list Z) : string :=
  string_of_list_ascii
    (map (fun b => ascii_of_N (Z.to_N b)) (strip_BOM bs)).

(** *** Math *)

(** [Math.ceil(a / b)] for integers [a] and [b > 0]. *)
Definition ceil_div (a b : Z) : Z := - ((- a) / b).

(** [Math.ceil(Math.sqrt(a))] for an integer [a >= 0]: the square root of a
    perfect square is exact, and that of any other integer below 2^52 is
    not rounded to an integer. *)
Definition ceil_sqrt (a : Z) : Z := Z.sqrt_up a.

(** *** Loops

    [for (let i = start; cond; i += step) body], run for at most [rounds]
    rounds.  [for_range] is the common [i < stop] loop with [step >= 1],
    for which [Z.to_nat (stop - start)] rounds are always enough. *)
Fixpoint for_loop {St : Type} (rounds : nat) (i step : Z)
    (cond : Z -> St -> bool) (body : Z -> St -> St) (s : St) : St :=
  match rounds with
  | O => s
  | S rounds' =>
      if cond i s
      then for_loop rounds' (i + step) step cond body (body i s)
      else s
  end.

Definition for_range {St : Type} (start stop step : Z)
    (body : Z -> St -> St) (s : St) : St :=
  for_loop (Z.to_nat (stop - start)) start step (fun i _ => i <? stop) body s.

(** An index computed in floating point: [a[x] = v] is ignored by a typed
    array unless [x] is an integer. *)
Definition Q_index (x : Q) : option Z :=
  let r := Qred x in
  if (Qden r =? 1)%positive then Some (Qnum r) else None.

Definition store_at (a : list Z) (x : Q) (v : Z) : list Z :=
  match Q_index x with
  | Some i => store a i v
  | None => a
  end.

(** The settlement of the promise an [async] function returns; [Pending]
    is a promise that is never settled. *)
Inductive Promise (A : Type) : Type :=
  | Resolved (a : A)
  | Rejected (e : error)
  | Pending.
Arguments Resolved {A} a.
Arguments Rejected {A} e.
Arguments Pending {A}.

(** Synchronous code run by a promise executor or a [then] callback whose
    [throw] rejects the promise. *)
Definition settle {A : Type} (r : result A) : Promise A :=
  match r with
  | Ok a => Resolved a
  | Err e => Rejected e
  end.

(** A chain of [requestAnimationFrame] callbacks that ends by calling
    [resolve]. *)
Definition frames {A : Type} (o : option A) : Promise A :=
  match o with
  | Some a => Resolved a
  | None => Pending
  end.

(** A progress fraction [a / b]. *)
Definition fraction (a b : Z) : Q := (inject_Z a / inject_Z b)%Q.

End Js.

Import Js.

(** ** The multi-file utilities, [js/utils/canvas.js] *)

Module Canvas.

Definition HEADER_SIZE : Z := 64.
Definition FILE_HEADER_SIZE : Z := 128.
Definition CHUNK_SIZE : Z := 1024 * 512.

(** [{ name, type, data }]; a missing [type] is [None]. *)
Record File : Type := mkFile {
  name : string;
  type : option string;
  data : list Z
}.

Record Dimensions : Type := mkDimensions {
  width : Z;
  height : Z
}.

(** The canvas after [putImageData]: its size and the RGBA bytes of
    [imageData.data]. *)
Record CanvasEl : Type := mkCanvas {
  canvas_width : Z;
  canvas_height : Z;
  pixels : list Z
}.

(** [totalSize] after the [forEach] of [calculateCanvasSizeForFiles]. *)
Definition totalSizeOf (files : list File) : Z :=
  fold_left (fun total file =>
               total + FILE_HEADER_SIZE + byteLength (data file))
            files HEADER_SIZE.

Definition calculateCanvasSizeForFiles (files : list File) : Dimensions :=
  let totalSize := totalSizeOf files in
  let totalPixelsNeeded := ceil_div totalSize 3 in
  let side := ceil_sqrt totalPixelsNeeded in
  let width := if side mod 2 =? 0 then side else side + 1 in
  let height := ceil_div totalPixelsNeeded width in
  mkDimensions width height.

(** [calculateCanvasSizeForFiles([{ data: new ArrayBuffer(byteLength) }])] *)
Definition calculateCanvasSize (len : Z) : Dimensions :=
  calculateCanvasSizeForFiles [mkFile "" None (zeros len)].

(** *** encodeFilesToCanvas *)

Definition mainHeader (fileCount : Z) : result (list Z) :=
  let header := zeros HEADER_SIZE in
  let* header := setUint8 header 0 0x46 in
  let* header := setUint8 header 1 0x32 in
  let* header := setUint8 header 2 0x50 in
  let* header := setUint8 header 3 0x31 in
  let* header := setUint8 header 4 1 in
  setUint8 header 5 fileCount.

Definition default_mime : string := "application/octet-stream".

(** [file.type || 'application/octet-stream'] *)
Definition type_or_default (file : File) : string :=
  match type file with
  | Some t => if String.eqb t "" then default_mime else t
  | None => default_mime
  end.

(** The body of the header loop up to [fileHeaders.push(fileHeader)]. *)
Definition buildFileHeader (file : File) (dataOffset : Z) : result (list Z) :=
  let nameBytes := TextEncoder_encode (name file) in
  let mimeBytes := TextEncoder_encode (type_or_default file) in
  let fileHeader := zeros FILE_HEADER_SIZE in
  let nameLength := Z.min (byteLength nameBytes) 100 in
  let* fileHeader := setUint16 fileHeader 0 nameLength in
  let* fileHeader := typed_set fileHeader (prefix nameBytes nameLength) 2 in
  let mimeLength := Z.min (byteLength mimeBytes) 20 in
  let* fileHeader := setUint8 fileHeader 102 mimeLength in
  let* fileHeader := typed_set fileHeader (prefix mimeBytes mimeLength) 103 in
  let fileSize := byteLength (data file) in
  let* fileHeader := setUint32 fileHeader 123 fileSize in
  let* fileHeader := setUint32 fileHeader 127 dataOffset in
  Ok fileHeader.

(** The header loop over [files[0 .. fileCount-1]]; yields [fileHeaders]
    and [totalSize]. *)
Fixpoint prepareHeaders (files : list File) (fileHeaders : list (list Z))
    (dataOffset totalSize : Z) : result (list (list Z) * Z) :=
  match files with
  | [] => Ok (fileHeaders, totalSize)
  | file :: rest =>
      let* fileHeader := buildFileHeader file dataOffset in
      let fileSize := byteLength (data file) in
      prepareHeaders rest (fileHeaders ++ [fileHeader])
        (dataOffset + fileSize) (totalSize + FILE_HEADER_SIZE + fileSize)
  end.

Fixpoint copyHeaders (fileHeaders : list (list Z)) (buffer : list Z)
    (offset : Z) : result (list Z * Z) :=
  match fileHeaders with
  | [] => Ok (buffer, offset)
  | fileHeader :: rest =>
      let* buffer := typed_set buffer fileHeader offset in
      copyHeaders rest buffer (offset + byteLength fileHeader)
  end.

Fixpoint copyData (files : list File) (totalSize : Z) (buffer : list Z)
    (offset : Z) (progress : list Q) : result (list Z * list Q) :=
  match files with
  | [] => Ok (buffer, progress)
  | file :: rest =>
      let* buffer := typed_set buffer (data file) offset in
      let offset := offset + byteLength (data file) in
      copyData rest totalSize buffer offset
        (progress ++ [fraction offset totalSize])
  end.

(** The container-building part of [encodeFilesToCanvas]: everything
    before the call of [encodeBufferToCanvas].  Yields the combined
    buffer and the fractions reported while the payloads are copied. *)
Definition buildContainer (files : list File) : result (list Z * list Q) :=
  let fileCount := Z.min (Z.of_nat (length files)) 255 in
  let* header := mainHeader fileCount in
  let files := take (Z.to_nat fileCount) files in
  let* prepared := prepareHeaders files [] 0 HEADER_SIZE in
  let fileHeaders := fst prepared in
  let totalSize := snd prepared in
  let buffer := zeros totalSize in
  let offset := 0 in
  let* buffer := typed_set buffer header offset in
  let offset := offset + byteLength header in
  let* copied := copyHeaders fileHeaders buffer offset in
  copyData files totalSize (fst copied) (snd copied) [].

(** *** encodeBufferToCanvas *)

(** [arrayBuffer.byteLength * 8 / 6] *)
Definition sextets (arrayBuffer : list Z) : Q :=
  (inject_Z (byteLength arrayBuffer * 8) / 6)%Q.

(** The body of the pixel loop of [encodeBufferToCanvas]; the two
    [getUint8] are in bounds under the guard. *)
Definition packSextet (arrayBuffer : list Z) (i : Z) (img : list Z) : list Z :=
  let byteIndex := (i * 3) / 4 in
  let bitOffset := (i * 6) mod 8 in
  if byteIndex + 1 <? byteLength arrayBuffer then
    let byte1 := byte_at arrayBuffer byteIndex in
    let byte2 := byte_at arrayBuffer (byteIndex + 1) in
    let value :=
      Z.land (Z.shiftr (Z.lor (Z.shiftl byte1 8) byte2) (10 - bitOffset))
             0x3F in
    let pixelIndex := i * 4 in
    let img := store img pixelIndex (toUint8Clamp (Z.shiftr value 4 * 51)) in
    let img := store img (pixelIndex + 1)
                 (toUint8Clamp (Z.land (Z.shiftr value 2) 0x3 * 85)) in
    let img := store img (pixelIndex + 2)
                 (toUint8Clamp (Z.land value 0x3 * 85)) in
    store img (pixelIndex + 3) (toUint8Clamp 255)
  else img.

(** [processChunk(start)] of [encodeBufferToCanvas].  [stop] is the
    source's [end]; the loop variable is an integer, so [i < end] is
    [i < ceil(end)], and [end] is the integer [start + CHUNK_SIZE]
    whenever another chunk follows.  [None]: the chain of animation
    frames did not finish within [frames_left] frames. *)
Fixpoint processChunk (frames_left : nat) (arrayBuffer : list Z)
    (start : Z) (img : list Z) (progress : list Q)
    : option (list Z * list Q) :=
  match frames_left with
  | O => None
  | S frames_left' =>
      let stop :=
        Qmin (inject_Z (start + CHUNK_SIZE)) (sextets arrayBuffer) in
      let img :=
        for_range start (Qceiling stop) 1 (packSextet arrayBuffer) img in
      let progress := progress ++ [(stop / sextets arrayBuffer)%Q] in
      if negb (Qle_bool (sextets arrayBuffer) stop)
      then processChunk frames_left' arrayBuffer (Qfloor stop) img progress
      else Some (img, progress)
  end.

Definition encodeBufferToCanvas (arrayBuffer : list Z) (progress : list Q)
    : Promise (CanvasEl * list Q) :=
  let dims := calculateCanvasSize (byteLength arrayBuffer) in
  let img := zeros (width dims * height dims * 4) in
  frames
    (match processChunk (S (Z.to_nat (byteLength arrayBuffer * 2)))
             arrayBuffer 0 img progress with
     | Some (img, progress) =>
         Some (mkCanvas (width dims) (height dims) img, progress)
     | None => None
     end).

Definition encodeFilesToCanvas (files : list File)
    : Promise (CanvasEl * list Q) :=
  match buildContainer files with
  | Ok (buffer, progress) => encodeBufferToCanvas buffer progress
  | Err e => Rejected e
  end.

(** *** extractFilesFromCanvas *)

(** One round of the header loop, from the read of the name length to
    [dataEnd]: the name, the type and the bounds of the payload. *)
Definition readFileHeader (arrayBuffer : list Z) (fileCount offset : Z)
    : result (string * string * Z * Z) :=
  let* nameLength := getUint16 arrayBuffer offset in
  let* nameBytes := view arrayBuffer (offset + 2) (Z.min 100 nameLength) in
  let name := TextDecoder_decode nameBytes in
  let* mimeLength := getUint8 arrayBuffer (offset + 102) in
  let* mimeBytes := view arrayBuffer (offset + 103) (Z.min 20 mimeLength) in
  let type := if 0 <? mimeLength then TextDecoder_decode mimeBytes
              else default_mime in
  let* size := getUint32 arrayBuffer (offset + 123) in
  let* dataOffset := getUint32 arrayBuffer (offset + 127) in
  let dataStart := HEADER_SIZE + fileCount * FILE_HEADER_SIZE + dataOffset in
  let dataEnd := dataStart + size in
  Ok (name, type, dataStart, dataEnd).

(** The header loop of the [then] callback.  [remaining] counts the
    rounds [i < fileCount] still to run; the [break] ends the loop, the
    [continue] goes to the next round and leaves [offset] as it is. *)
Fixpoint readHeaders (arrayBuffer : list Z) (fileCount : Z) (remaining : nat)
    (i offset : Z) (files : list File) (progress : list Q)
    : result (list File * list Q) :=
  match remaining with
  | O => Ok (files, progress)
  | S remaining' =>
      if byteLength arrayBuffer <? offset + FILE_HEADER_SIZE
      then Ok (files, progress)
      else
        let* h := readFileHeader arrayBuffer fileCount offset in
        let '(name, type, dataStart, dataEnd) := h in
        if byteLength arrayBuffer <? dataEnd
        then readHeaders arrayBuffer fileCount remaining' (i + 1) offset
               files progress
        else
          let fileData := slice arrayBuffer dataStart dataEnd in
          readHeaders arrayBuffer fileCount remaining' (i + 1)
            (offset + FILE_HEADER_SIZE)
            (files ++ [mkFile name (Some type) fileData])
            (progress ++ [fraction (i + 1) (fileCount + 1)])
  end.

(** [a !== expected || rest]: the checks of the magic number are
    evaluated left to right and stop at the first mismatch. *)
Definition expect_byte {A : Type} (arrayBuffer : list Z) (offset expected : Z)
    (rest : result A) : result A :=
  let* b := getUint8 arrayBuffer offset in
  if b =? expected then rest else Err InvalidMagic.

(** The [then] callback of [extractFilesFromCanvas], applied to the
    buffer [extractDataFromCanvas] resolved with. *)
Definition parseContainer (arrayBuffer : list Z) (progress : list Q)
    : result (list File * list Q) :=
  let* _ := expect_byte arrayBuffer 0 0x46
             (expect_byte arrayBuffer 1 0x32
               (expect_byte arrayBuffer 2 0x50
                 (expect_byte arrayBuffer 3 0x31 (Ok tt)))) in
  let* version := getUint8 arrayBuffer 4 in
  if negb (version =? 1) then Err (UnsupportedVersion version) else
  let* fileCount := getUint8 arrayBuffer 5 in
  if fileCount =? 0 then Err NoFilesFound else
  let* read := readHeaders arrayBuffer fileCount (Z.to_nat fileCount)
                 0 HEADER_SIZE [] progress in
  if (length (fst read) =? 0)%nat then Err NoValidFiles else Ok read.

(** [extractDataFromCanvas] is called by [extractFilesFromCanvas] and
    defined in no source file: the raw read of the canvas is a parameter,
    which settles with the buffer read and the fractions it reported. *)
Definition extractFilesFromCanvas
    (extractDataFromCanvas : CanvasEl -> Promise (list Z * list Q))
    (canvas : CanvasEl) : Promise (list File * list Q) :=
  match extractDataFromCanvas canvas with
  | Resolved (arrayBuffer, progress) =>
      settle (parseContainer arrayBuffer progress)
  | Rejected e => Rejected e
  | Pending => Pending
  end.

End Canvas.

(** ** The single-file utilities (the earlier [canvas.js]) *)

Module Legacy.

Definition HEADER_SIZE : Z := 32.
Definition CHUNK_SIZE : Z := 1024 * 512.

Record Dimensions : Type := mkDimensions {
  width : Z;
  height : Z
}.

Record CanvasEl : Type := mkCanvas {
  canvas_width : Z;
  canvas_height : Z;
  pixels : list Z
}.

(** [{ filename, mimeType, data }] *)
Record Decoded : Type := mkDecoded {
  filename : string;
  mimeType : string;
  data : list Z
}.

Definition calculateCanvasSize (len : Z) : Dimensions :=
  let totalPixelsNeeded := ceil_div (len + HEADER_SIZE) 3 in
  let side := ceil_sqrt totalPixelsNeeded in
  let width := if side mod 2 =? 0 then side else side + 1 in
  let height := ceil_div totalPixelsNeeded width in
  mkDimensions width height.

(** *** encodeFileToCanvas *)

Definition buildHeader (arrayBuffer : list Z) (filename mimeType : string)
    : result (list Z) :=
  let header := zeros HEADER_SIZE in
  let filenameBytes := TextEncoder_encode filename in
  let* header := setUint16 header 0 (byteLength filenameBytes) in
  let maxFilenameLength := 20 in
  let filenameToStore := prefix filenameBytes maxFilenameLength in
  let* header := typed_set header filenameToStore 2 in
  let mimeBytes := TextEncoder_encode mimeType in
  let* header := setUint16 header 22 (byteLength mimeBytes) in
  let maxMimeLength := 8 in
  let mimeToStore := prefix mimeBytes maxMimeLength in
  let* header := typed_set header mimeToStore 24 in
  setUint32 header 28 (byteLength arrayBuffer).

(** [combined]: the header followed by the file data. *)
Definition combine (header arrayBuffer : list Z) : result (list Z) :=
  let combined := zeros (HEADER_SIZE + byteLength arrayBuffer) in
  let* combined := typed_set combined header 0 in
  typed_set combined arrayBuffer HEADER_SIZE.

(** The body of the pixel loop; [pixelIndex = (i / 3) * 4] is computed in
    floating point and is an integer only for [i] a multiple of 3. *)
Definition writePixel (combined : list Z) (i : Z) (img : list Z) : list Z :=
  let pixelIndex := (inject_Z i / 3 * 4)%Q in
  let r := if i <? byteLength combined then byte_at combined i else 0 in
  let g := if i + 1 <? byteLength combined
           then byte_at combined (i + 1) else 0 in
  let b := if i + 2 <? byteLength combined
           then byte_at combined (i + 2) else 0 in
  let img := store_at img pixelIndex (toUint8Clamp r) in
  let img := store_at img (pixelIndex + 1)%Q (toUint8Clamp g) in
  let img := store_at img (pixelIndex + 2)%Q (toUint8Clamp b) in
  store_at img (pixelIndex + 3)%Q (toUint8Clamp 255).

(** [processChunk(start)] of [encodeFileToCanvas]; [None] when the chain
    of animation frames did not finish within [frames_left] frames. *)
Fixpoint processChunk (frames_left : nat) (combined : list Z) (start : Z)
    (img : list Z) (progress : list Q) : option (list Z * list Q) :=
  match frames_left with
  | O => None
  | S frames_left' =>
      let stop := Z.min (start + CHUNK_SIZE) (byteLength combined) in
      let img := for_range start stop 3 (writePixel combined) img in
      let progress := progress ++ [fraction stop (byteLength combined)] in
      if stop <? byteLength combined
      then processChunk frames_left' combined stop img progress
      else Some (img, progress)
  end.

Definition encodeFileToCanvas (arrayBuffer : list Z)
    (filename mimeType : string) : Promise (CanvasEl * list Q) :=
  let dims := calculateCanvasSize (byteLength arrayBuffer) in
  let img := zeros (width dims * height dims * 4) in
  match (let* header := buildHeader arrayBuffer filename mimeType in
         combine header arrayBuffer) with
  | Err e => Rejected e
  | Ok combined =>
      frames
        (match processChunk (S (Z.to_nat (byteLength combined)))
                 combined 0 img [] with
         | Some (img, progress) =>
             Some (mkCanvas (width dims) (height dims) img, progress)
         | None => None
         end)
  end.

(** *** decodeFileFromCanvas *)

(** The header loop: three guarded copies per pixel; a channel read
    outside the image is [undefined], stored as 0. *)
Definition readHeaderPixel (img : list Z) (i : Z) (s : list Z * Z)
    : list Z * Z :=
  let pixelIndex := i in
  let copy (k : Z) (s : list Z * Z) : list Z * Z :=
    let '(header, headerBytesRead) := s in
    if headerBytesRead <? HEADER_SIZE
    then (store header headerBytesRead (toUint8 (byte_at img (pixelIndex + k))),
          headerBytesRead + 1)
    else s in
  copy 2 (copy 1 (copy 0 s)).

Definition readHeader (img : list Z) : list Z :=
  fst (for_loop 11 0 4
         (fun i s => (i <? 11 * 4) && (snd s <? HEADER_SIZE))
         (readHeaderPixel img) (zeros HEADER_SIZE, 0)).

(** The body of the extraction loop; state: [extractedData] and
    [bytesExtracted]. *)
Definition readPixel (img : list Z) (dataLength : Z) (i : Z)
    (s : list Z * Z) : list Z * Z :=
  let pixelIndex := i * 4 in
  let dataIndex := i * 3 - HEADER_SIZE in
  if dataIndex <? 0 then s else
  let copy (k : Z) (s : list Z * Z) : list Z * Z :=
    let '(extractedData, bytesExtracted) := s in
    if bytesExtracted <? dataLength
    then (store extractedData bytesExtracted
            (toUint8 (byte_at img (pixelIndex + k))),
          bytesExtracted + 1)
    else s in
  copy 2 (copy 1 (copy 0 s)).

(** [processChunk(startPixel)] of [decodeFileFromCanvas]. *)
Fixpoint decode_processChunk (frames_left : nat) (img : list Z)
    (dataLength totalPixelsNeeded startPixel : Z)
    (s : list Z * Z) (progress : list Q)
    : option (list Z * list Q) :=
  match frames_left with
  | O => None
  | S frames_left' =>
      let endPixel :=
        Z.min (startPixel + ceil_div CHUNK_SIZE 3) totalPixelsNeeded in
      let s := for_range startPixel endPixel 1 (readPixel img dataLength) s in
      let progress := progress ++ [fraction (snd s) dataLength] in
      if endPixel <? totalPixelsNeeded
      then decode_processChunk frames_left' img dataLength totalPixelsNeeded
             endPixel s progress
      else Some (fst s, progress)
  end.

(** The synchronous part of the executor, up to the first call of
    [processChunk]: the values read from the header, or the error
    thrown. *)
Definition readMetadata (canvas : CanvasEl)
    : result (string * string * Z * Z) :=
  let img := pixels canvas in
  let header := readHeader img in
  let* filenameLength := getUint16 header 0 in
  let filenameBytes := slice header 2 (2 + Z.min 20 filenameLength) in
  let filename := TextDecoder_decode filenameBytes in
  let* mimeLength := getUint16 header 22 in
  let mimeBytes := slice header 24 (24 + Z.min 8 mimeLength) in
  let mimeType := if 0 <? mimeLength then TextDecoder_decode mimeBytes
                  else "application/octet-stream"%string in
  let* dataLength := getUint32 header 28 in
  if (dataLength <=? 0)
     || (canvas_width canvas * canvas_height canvas * 3 - HEADER_SIZE
         <? dataLength)
  then Err InvalidDataLength else
  let totalPixelsNeeded := ceil_div (dataLength + HEADER_SIZE) 3 in
  let totalPixelsAvailable := canvas_width canvas * canvas_height canvas in
  if totalPixelsAvailable <? totalPixelsNeeded
  then Err NotEnoughData
  else Ok (filename, mimeType, dataLength, totalPixelsNeeded).

(** The byte length the embedded header declares. *)
Definition declaredLength (canvas : CanvasEl) : result Z :=
  getUint32 (readHeader (pixels canvas)) 28.

(** A [throw] in the executor is caught, logged and turned into a
    rejection; the rejection is modelled by the error thrown. *)
Definition decodeFileFromCanvas (canvas : CanvasEl)
    : Promise (Decoded * list Q) :=
  match readMetadata canvas with
  | Err e => Rejected e
  | Ok (filename, mimeType, dataLength, totalPixelsNeeded) =>
      let extractedData := zeros dataLength in
      let bytesExtracted := 0 in
      let startPixel := ceil_div HEADER_SIZE 3 in
      frames
        (match decode_processChunk (S (Z.to_nat totalPixelsNeeded))
                 (pixels canvas) dataLength totalPixelsNeeded startPixel
                 (extractedData, bytesExtracted) [] with
         | Some (extractedData, progress) =>
             Some (mkDecoded filename mimeType extractedData, progress)
         | None => None
         end)
  end.

End Legacy.

(** ** The error kinds of the design, and sample inputs *)

(** The names the design gives to the failures of the codec.  The code
    throws plain [Error]s: a bad magic number and an unsupported version
    are the FormatError, 'No files found' is the EmptyContainerError, 'No
    valid files found' the NoValidEntriesError; the two guards of the
    legacy decoder that compare the declared data length with the size
    of the canvas are the InsufficientDataError.  A [RangeError] of the
    platform has no name in the design. *)
Inductive error_kind : Type :=
  | FormatError
  | EmptyContainerError
  | NoValidEntriesError
  | InsufficientDataError
  | OutOfBounds.

Definition kind_of (e : error) : error_kind :=
  match e with
  | InvalidMagic | UnsupportedVersion _ => FormatError
  | NoFilesFound => EmptyContainerError
  | NoValidFiles => NoValidEntriesError
  | InvalidDataLength | NotEnoughData => InsufficientDataError
  | RangeError => OutOfBounds
  end.

(** Progress fractions never go down, and the last one is 1. *)
Fixpoint nondecreasing (l : list Q) : Prop :=
  match l with
  | [] => True
  | x :: rest =>
      match rest with
      | [] => True
      | y :: _ => (x <= y)%Q
      end /\ nondecreasing rest
  end.

Fixpoint increasing (l : list Q) : Prop :=
  match l with
  | [] => True
  | x :: rest =>
      match rest with
      | [] => True
      | y :: _ => (x < y)%Q
      end /\ increasing rest
  end.

Definition ends_at_one (l : list Q) : Prop :=
  match last l with
  | Some q => (q == 1)%Q
  | None => False
  end.

Definition progress_ok (l : list Q) : Prop :=
  nondecreasing l /\ ends_at_one l.

(** A byte buffer holds bytes. *)
Definition is_byte (b : Z) : Prop := 0 <= b < 256.

(** The direct mapping of three bytes per pixel: the value of index [j]
    of the image data, channel [j mod 4] of pixel [j / 4], when [buffer]
    is written to it (red, green and blue hold bytes [3p], [3p + 1] and
    [3p + 2], or 0 past the end of the buffer; alpha is 255). *)
Definition direct_channel (buffer : list Z) (j : Z) : Z :=
  let p := j / 4 in
  let c := j mod 4 in
  if c =? 3 then 255
  else if 3 * p + c <? byteLength buffer
       then toUint8Clamp (byte_at buffer (3 * p + c))
       else 0.

(** The magic number ['F2P1']. *)
Definition magic : list Z := [0x46; 0x32; 0x50; 0x31].

Module Samples.

(** The two files of the round-trip scenario. *)
Definition two_files : list Canvas.File :=
  [Canvas.mkFile "a.txt" (Some "text/plain"%string) [1; 2; 3];
   Canvas.mkFile "b.bin" (Some "application/octet-stream"%string) []].

(** A file whose name has 101 bytes. *)
Definition name101 : string :=
  String.concat "" (replicate 10 "0123456789"%string ++ ["X"%string]).

Definition long_named : list Canvas.File :=
  [Canvas.mkFile name101 (Some "text/plain"%string) [1; 2; 3]].

(** Containers laid out by hand as [extractFilesFromCanvas] reads them:
    the main header, then one 128-byte block per file with the name
    length at 0, the name at 2, the mime length at 102, the mime type at
    103, the size at 123 and the low byte of the data offset at 127.
    The three high bytes of a data offset are the first three bytes that
    follow the block. *)
Definition padded (n : Z) (bs : list Z) : list Z :=
  bs ++ zeros (n - byteLength bs).

Definition main_header (fileCount : Z) : list Z :=
  padded 64 [0x46; 0x32; 0x50; 0x31; 1; fileCount].

Definition file_block (name mime : list Z) (size : Z) : list Z :=
  [byteLength name; 0] ++ padded 100 name
  ++ [byteLength mime] ++ padded 20 mime
  ++ [size; 0; 0; 0] ++ [0].

(** One file, [a.txt], of three zero bytes. *)
Definition one_file : list Z :=
  main_header 1
  ++ file_block (TextEncoder_encode "a.txt")
       (TextEncoder_encode "text/plain") 3
  ++ [0; 0; 0].

(** Two files over a data section of three bytes: the first declares 200
    bytes, the second (with an empty name) declares the three bytes at
    offset 0. *)
Definition first_entry_too_long : list Z :=
  main_header 2
  ++ file_block (TextEncoder_encode "a.txt")
       (TextEncoder_encode "text/plain") 200
  ++ file_block [] (TextEncoder_encode "text/plain") 3
  ++ [0; 0; 0].


(** Six bytes: the magic number, version 1, no file. *)
Definition six_bytes : list Z := [0x46; 0x32; 0x50; 0x31; 1; 0].

(** Full-size headers: one without the magic number, one of version 2,
    one that declares no file. *)
Definition no_magic : list Z := zeros 64.
Definition version_two : list Z := padded 64 [0x46; 0x32; 0x50; 0x31; 2; 1].
Definition no_file : list Z := main_header 0.

(** Modelled from the spec: [extractDataFromCanvas], the raw read of the
    canvas that [extractFilesFromCanvas] calls, is defined in no source
    file.  This stand-in resolves with a given buffer after reporting the
    fraction 1, the last fraction of a successful read in the design. *)
Definition reads (buffer : list Z)
    : Canvas.CanvasEl -> Promise (list Z * list Q) :=
  fun _ => Resolved (buffer, [1%Q]).

Definition blank : Canvas.CanvasEl := Canvas.mkCanvas 0 0 [].

(** A 4 x 3 legacy canvas (36 usable bytes) whose header declares 100
    bytes: header byte 28 is the green channel of pixel 9. *)
Definition small_canvas : Legacy.CanvasEl :=
  Legacy.mkCanvas 4 3 (store (zeros 48) 37 100).

End Samples.

(** ** The range of the planners, and further samples *)

(** JavaScript numbers are binary64.  On a total below [2 ^ 52] every
    step of the planners is exact: the sums, the quotient by 3 (whose
    fraction is a third or two thirds, never rounded to an integer),
    the square root (that of a perfect square is exact, any other is at
    least [2 ^ -27] away from an integer) and the quotient by the
    width.  There [ceil_div] and [ceil_sqrt] are [Math.ceil(a / b)] and
    [Math.ceil(Math.sqrt(a))]; above, the code rounds and the two part.
    The length of a buffer is below this limit. *)
Definition exact_limit : Z := 2 ^ 52.

(** Bytes below 128: each is one character for [TextDecoder], and no
    byte-order mark can begin among them. *)
Definition ascii_bytes (bs : list Z) : Prop :=
  Forall (fun b => 0 <= b < 128) bs.

(** A container of two files, [a.txt] and one without a name, which
    share the three zero bytes of the data section. *)
Definition two_entries : list Z :=
  Samples.main_header 2
  ++ Samples.file_block (TextEncoder_encode "a.txt")
       (TextEncoder_encode "text/plain") 3
  ++ Samples.file_block [] (TextEncoder_encode "text/plain") 3
  ++ [0; 0; 0].

(** ** What the single-file writer and reader do to each byte *)

(** The chunks of the single-file writer start at the multiples of
    [CHUNK_SIZE], and a chunk writes pixels only when its start is a
    multiple of 3: pixel [p] is written when byte [3p] lies in the buffer
    and in a chunk whose number is a multiple of 3. *)
Definition pixel_written (len p : Z) : bool :=
  (0 <=? p) && (3 * p <? len)
  && (((3 * p) / Legacy.CHUNK_SIZE) mod 3 =? 0).

(** The byte the single-file reader takes for index [k] of its result:
    channel [k mod 3] of pixel [11 + k / 3]. *)
Definition read_channel (img : list Z) (k : Z) : Z :=
  toUint8 (byte_at img (4 * (11 + k / 3) + k mod 3)).

(** The state of the extraction loop of [decodeFileFromCanvas] when [m]
    channels have been offered to a result of [dataLength] bytes. *)
Definition extracted (img : list Z) (dataLength m : Z) (s : list Z * Z)
    : Prop :=
  byteLength (fst s) = dataLength
  /\ snd s = Z.min dataLength m
  /\ forall k, 0 <= k < dataLength ->
       at_index (fst s) k
       = Some (if k <? snd s then read_channel img k else 0).

(** The four bytes [setUint32(offset, v, true)] writes, lowest first. *)
Definition Uint32_bytes (v : Z) : list Z :=
  [v mod 256; Z.shiftr v 8 mod 256; Z.shiftr v 16 mod 256;
   Z.shiftr v 24 mod 256].

(** ** What the multi-file writer draws *)

(** The values [encodeBufferToCanvas] gives channel [c] of a pixel: four
    levels for red, green and blue, and an alpha of 255; a pixel it does
    not draw keeps the 0 of a fresh [ImageData]. *)
Definition levels (c : Z) : list Z :=
  if c =? 0 then [0; 51; 102; 153]
  else if c =? 3 then [0; 255]
  else [0; 85; 170; 255].

Definition in_levels (img : list Z) : Prop :=
  forall j v, at_index img j = Some v -> v ∈ levels (j mod 4).

(** The place of byte [i] in the image data under the direct mapping of
    three bytes per pixel: channel [i mod 3] of pixel [i / 3]. *)
Definition channel_index (i : Z) : Z := i / 3 * 4 + i mod 3.

(** ** The worker scripts, [js/utils/worker.js] *)

Module Worker.

(** What a worker posts: [{ type: 'progress', progress }] and
    [{ type: 'complete', ... }] with its payload. *)
Inductive message (A : Type) : Type :=
  | Progress (progress : Q)
  | Complete (payload : A).
Arguments Progress {A} progress.
Arguments Complete {A} payload.

(** [a % b === 0] on integers: the remainder has the sign of [a], and
    [a % 0] is [NaN]. *)
Definition rem_is_zero (a b : Z) : bool :=
  if b =? 0 then false else Z.rem a b =? 0.

(** [new Uint8ClampedArray(n)] and [new Uint8Array(n)] throw for a
    negative length. *)
Definition alloc (n : Z) : result (list Z) :=
  if n <? 0 then Err RangeError else Ok (zeros n).

(** *** The encoding worker *)

(** The white background. *)
Definition fillWhite (pixels : list Z) : list Z :=
  for_range 0 (byteLength pixels) 4
    (fun i pixels =>
       let pixels := store pixels i (toUint8Clamp 255) in
       let pixels := store pixels (i + 1) (toUint8Clamp 255) in
       let pixels := store pixels (i + 2) (toUint8Clamp 255) in
       store pixels (i + 3) (toUint8Clamp 255))
    pixels.

(** The body of the loop of [processChunk]. *)
Definition writeByte (fileData : list Z) (i : Z) (pixels : list Z) : list Z :=
  let pixelIndex := i / 3 * 4 + Z.rem i 3 in
  if pixelIndex <? byteLength pixels
  then store pixels pixelIndex (toUint8Clamp (byte_at fileData i))
  else pixels.

(** [processChunk(start, end)]; [None] when the chain of timeouts did not
    reach the 'complete' message within [timeouts_left] calls. *)
Fixpoint encode_processChunk (timeouts_left : nat) (fileData : list Z)
    (width height chunkSize start stop : Z) (pixels : list Z)
    (posted : list (message (list Z * Z * Z)))
    : option (list (message (list Z * Z * Z))) :=
  match timeouts_left with
  | O => None
  | S timeouts_left' =>
      let pixels := for_range start stop 1 (writeByte fileData) pixels in
      let posted :=
        if rem_is_zero stop chunkSize || (byteLength fileData <=? stop)
        then posted ++ [Progress (fraction stop (byteLength fileData))]
        else posted in
      if stop <? byteLength fileData
      then encode_processChunk timeouts_left' fileData width height chunkSize
             stop (Z.min (stop + chunkSize) (byteLength fileData))
             pixels posted
      else Some (posted ++ [Complete (pixels, width, height)])
  end.

(** [self.onmessage] of the encoding worker: the messages it posts. *)
Definition encode_onmessage (timeouts : nat) (fileData : list Z)
    (width height chunkSize : Z)
    : result (option (list (message (list Z * Z * Z)))) :=
  let totalPixels := width * height in
  let* pixels := alloc (totalPixels * 4) in
  let pixels := fillWhite pixels in
  Ok (encode_processChunk timeouts fileData width height chunkSize
        0 (Z.min chunkSize (byteLength fileData)) pixels []).

(** *** The decoding worker *)

(** The body of the loop of [processChunk]; state: [result] and
    [bytesProcessed]. *)
Definition readByte (data : list Z) (headerSize dataLength : Z) (i : Z)
    (s : list Z * Z) : list Z * Z :=
  let pixelIndex := (i + headerSize) / 3 * 4 + Z.rem (i + headerSize) 3 in
  if (i <? dataLength) && (pixelIndex <? byteLength data)
  then (store (fst s) i (toUint8 (byte_at data pixelIndex)), snd s + 1)
  else s.

Fixpoint decode_processChunk (timeouts_left : nat) (data : list Z)
    (headerSize dataLength chunkSize start stop : Z) (s : list Z * Z)
    (posted : list (message (list Z))) : option (list (message (list Z))) :=
  match timeouts_left with
  | O => None
  | S timeouts_left' =>
      let s := for_range start stop 1 (readByte data headerSize dataLength) s in
      let bytesProcessed := snd s in
      let posted :=
        if rem_is_zero bytesProcessed chunkSize
           || (dataLength <=? bytesProcessed)
        then posted ++ [Progress (fraction bytesProcessed dataLength)]
        else posted in
      if bytesProcessed <? dataLength
      then decode_processChunk timeouts_left' data headerSize dataLength
             chunkSize stop (Z.min (stop + chunkSize) dataLength) s posted
      else Some (posted ++ [Complete (fst s)])
  end.

(** [self.onmessage] of the decoding worker. *)
Definition decode_onmessage (timeouts : nat) (imageData : list Z)
    (headerSize dataLength chunkSize : Z)
    : result (option (list (message (list Z)))) :=
  let data := imageData in
  let* result := alloc dataLength in
  let bytesProcessed := 0 in
  Ok (decode_processChunk timeouts data headerSize dataLength chunkSize
        0 (Z.min chunkSize dataLength) (result, bytesProcessed) []).

(** *** The two worker singletons *)

(** A worker is known by the number of its creation; [terminated] holds
    the workers on which [terminate()] was called. *)
Record Registry : Type := mkRegistry {
  encodeWorker : option nat;
  decodeWorker : option nat;
  created : nat;
  terminated : list nat
}.

Definition initial : Registry := mkRegistry None None 0 [].

Definition createWorker (type : string) (r : Registry) : nat * Registry :=
  if String.eqb type "encode" then
    match encodeWorker r with
    | None =>
        let w := created r in
        (w, mkRegistry (Some w) (decodeWorker r) (S w) (terminated r))
    | Some w => (w, r)
    end
  else
    match decodeWorker r with
    | None =>
        let w := created r in
        (w, mkRegistry (encodeWorker r) (Some w) (S w) (terminated r))
    | Some w => (w, r)
    end.

Definition terminateWorker (type : string) (r : Registry) : Registry :=
  match String.eqb type "encode", encodeWorker r with
  | true, Some w =>
      mkRegistry None (decodeWorker r) (created r) (w :: terminated r)
  | _, _ =>
      match decodeWorker r with
      | Some w =>
          mkRegistry (encodeWorker r) None (created r) (w :: terminated r)
      | None => r
      end
  end.

Definition terminateAllWorkers (r : Registry) : Registry :=
  terminateWorker "decode" (terminateWorker "encode" r).

End Worker.

(** Calls of the three exported functions of [worker.js], and the state
    of the module after a sequence of calls. *)
Inductive WorkerCall : Type :=
  | CallCreate (type : string)
  | CallTerminate (type : string)
  | CallTerminateAll.

Definition call (r : Worker.Registry) (c : WorkerCall) : Worker.Registry :=
  match c with
  | CallCreate type => snd (Worker.createWorker type r)
  | CallTerminate type => Worker.terminateWorker type r
  | CallTerminateAll => Worker.terminateAllWorkers r
  end.

Definition calls (cs : list WorkerCall) : Worker.Registry :=
  fold_left call cs Worker.initial.

(** Every worker created so far is terminated or held in one of the two
    variables, and a worker held there is not terminated. *)
Definition accounted (r : Worker.Registry) : Prop :=
  (forall w, w ∈ Worker.terminated r -> (w < Worker.created r)%nat)
  /\ (forall w, (w < Worker.created r)%nat ->
        w ∈ Worker.terminated r
        \/ Worker.encodeWorker r = Some w
        \/ Worker.decodeWorker r = Some w)
  /\ (forall w, Worker.encodeWorker r = Some w ->
        (w < Worker.created r)%nat /\ (w ∉ Worker.terminated r)
        /\ Worker.decodeWorker r <> Some w)
  /\ (forall w, Worker.decodeWorker r = Some w ->
        (w < Worker.created r)%nat /\ (w ∉ Worker.terminated r)).

(** ** The embed tab, [js/modules/embed.js] *)

Module Embed.

Definition DEFAULT_MAX_SIZE_MB : Z := 10.
Definition MAX_TOTAL_SIZE_MB : Z := 20.

(** A [File] of the selection with what [readFileAsArrayBuffer] yields
    for it; [None] when the reader fires [onerror]. *)
Record SelectedFile : Type := mkSelected {
  name : string;
  type : string;
  size : Z;
  contents : option (list Z)
}.

(** The messages given to [showError], by the variables they
    interpolate. *)
Inductive Message : Type :=
  | FileTooLarge (name : string) (maxSizeMB : Z)
      (* 'File "${file.name}" is too large. Maximum size is ...MB.' *)
  | TotalTooLarge (totalSize maxTotalSizeMB : Z)
      (* 'Total size of selected files (...) exceeds the maximum ...' *)
  | NoFilesSelected
      (* 'No files selected. Please add files first.' *)
  | ErrorReadingFile (name : string)
      (* 'Error reading file: ${file.name}. ...' *)
  | ProcessingFailed.
      (* 'An error occurred while processing the file. Please try
         again.' *)

(** The text of the download button. *)
Inductive ButtonText : Type :=
  | Untouched
  | Processing
      (* 'Processing...' *)
  | ProcessingFile (processedCount total : Z)
      (* 'Processing ${processedCount} of ${total}... ${percent}%' *)
  | Encoding (progress : Q)
      (* 'Encoding... ${percent}%' *)
  | Download (total : Z).
      (* 'Download ${total} file(s) as PNG' *)

(** The variables of the module and the parts of the page it writes:
    [selectedFiles], the value of the size input as [parseInt] reads it
    ([None] for [NaN]), the entries [updateFileList] drew last, the
    download button, the canvas, and the calls of [showError]. *)
Record State : Type := mkState {
  selectedFiles : list SelectedFile;
  maxSizeInput : option Z;
  fileList : list SelectedFile;
  disabled : bool;
  textContent : ButtonText;
  previewCanvas : option Canvas.CanvasEl;
  shown : list Message
}.

(** How a call ends: it returns, it throws (an [async] function
    rejects), or it waits for a promise that is never settled. *)
Inductive Completion : Type :=
  | Returned
  | Thrown (m : Message)
  | Waiting.

Definition showError (m : Message) (st : State) : State :=
  mkState (selectedFiles st) (maxSizeInput st) (fileList st) (disabled st)
    (textContent st) (previewCanvas st) (shown st ++ [m]).

Definition set_selectedFiles (files : list SelectedFile) (st : State)
    : State :=
  mkState files (maxSizeInput st) (fileList st) (disabled st)
    (textContent st) (previewCanvas st) (shown st).

Definition set_button (d : bool) (t : ButtonText) (st : State) : State :=
  mkState (selectedFiles st) (maxSizeInput st) (fileList st) d t
    (previewCanvas st) (shown st).

(** [updateFileList] redraws the list from [selectedFiles]. *)
Definition updateFileList (st : State) : State :=
  mkState (selectedFiles st) (maxSizeInput st) (selectedFiles st)
    (disabled st) (textContent st) (previewCanvas st) (shown st).

(** [new AppError(message)]: the constructor shows the message. *)
Definition AppError (m : Message) (st : State) : Completion * State :=
  (Thrown m, showError m st).

Definition removeFile (index : Z) (st : State) : State :=
  if (0 <=? index) && (index <? Z.of_nat (length (selectedFiles st)))
  then updateFileList
         (set_selectedFiles (delete (Z.to_nat index) (selectedFiles st)) st)
  else st.

(** [parseInt(maxSizeInput.value) || DEFAULT_MAX_SIZE_MB] *)
Definition maxSizeOf (st : State) : Z :=
  match maxSizeInput st with
  | Some v => if v =? 0 then DEFAULT_MAX_SIZE_MB else v
  | None => DEFAULT_MAX_SIZE_MB
  end.

Definition validateFileSize (file : SelectedFile) (maxSizeMB : Z)
    (st : State) : Completion * State :=
  let maxSize := maxSizeMB * 1024 * 1024 in
  if maxSize <? size file
  then AppError (FileTooLarge (name file) maxSizeMB) st
  else (Returned, st).

Definition totalSizeOf (files : list SelectedFile) : Z :=
  fold_left (fun sum file => sum + size file) files 0.

Definition validateTotalSize (files : list SelectedFile)
    (maxTotalSizeMB : Z) (st : State) : Completion * State :=
  let maxTotalSize := maxTotalSizeMB * 1024 * 1024 in
  let totalSize := totalSizeOf files in
  if maxTotalSize <? totalSize
  then AppError (TotalTooLarge totalSize maxTotalSizeMB) st
  else (Returned, st).

(** [newFiles.forEach(file => validateFileSize(file, maxSize))] *)
Fixpoint validateEach (newFiles : list SelectedFile) (maxSize : Z)
    (st : State) : Completion * State :=
  match newFiles with
  | [] => (Returned, st)
  | file :: rest =>
      match validateFileSize file maxSize st with
      | (Returned, st) => validateEach rest maxSize st
      | thrown => thrown
      end
  end.

(** The [catch] of [handleFiles] shows the message and throws again. *)
Definition handleFiles (files : list SelectedFile) (st : State)
    : Completion * State :=
  let rethrow (c : Completion * State) : Completion * State :=
    match c with
    | (Thrown m, st) => (Thrown m, showError m st)
    | other => other
    end in
  let maxSize := maxSizeOf st in
  let newFiles := files in
  match validateEach newFiles maxSize st with
  | (Returned, st) =>
      let st := set_selectedFiles (selectedFiles st ++ newFiles) st in
      match validateTotalSize (selectedFiles st) MAX_TOTAL_SIZE_MB st with
      | (Returned, st) => (Returned, updateFileList st)
      | thrown => rethrow thrown
      end
  | thrown => rethrow thrown
  end.

Definition handleFileSelect (files : list SelectedFile) (st : State)
    : State :=
  if (length files =? 0)%nat then st else
  match handleFiles files st with
  | (Thrown m, st) => showError m st
  | (_, st) => st
  end.

(** The loop of [encodeSelectedFiles] that reads the files. *)
Fixpoint readAll (files : list SelectedFile) (total : Z)
    (filesWithData : list Canvas.File) (processedCount : Z) (st : State)
    : Completion * list Canvas.File * State :=
  match files with
  | [] => (Returned, filesWithData, st)
  | file :: rest =>
      match contents file with
      | Some arrayBuffer =>
          let type := if String.eqb (type file) ""
                      then "application/octet-stream"%string
                      else type file in
          let filesWithData :=
            filesWithData
            ++ [Canvas.mkFile (name file) (Some type) arrayBuffer] in
          let processedCount := processedCount + 1 in
          let st := set_button (disabled st)
                      (ProcessingFile processedCount total) st in
          readAll rest total filesWithData processedCount st
      | None =>
          let '(thrown, st) := AppError (ErrorReadingFile (name file)) st in
          (thrown, filesWithData, st)
      end
  end.

(** The progress callback sets the text of the button once per
    fraction. *)
Definition reportProgress (progress : list Q) (st : State) : State :=
  fold_left (fun st q => set_button (disabled st) (Encoding q) st)
    progress st.

Definition encodeSelectedFiles (st : State) : Completion * State :=
  if (length (selectedFiles st) =? 0)%nat
  then AppError NoFilesSelected st
  else
    let total := Z.of_nat (length (selectedFiles st)) in
    let st := set_button true Processing st in
    match readAll (selectedFiles st) total [] 0 st with
    | (Returned, filesWithData, st) =>
        match Canvas.encodeFilesToCanvas filesWithData with
        | Resolved (canvas, progress) =>
            let st := reportProgress progress st in
            let st := mkState (selectedFiles st) (maxSizeInput st)
                        (fileList st) false (Download total)
                        (Some canvas) (shown st) in
            (Returned, st)
        | Rejected _ => (Returned, showError ProcessingFailed st)
        | Pending => (Waiting, st)
        end
    | (_, _, st) => (Returned, showError ProcessingFailed st)
    end.

(** *** escapeHtml *)

(** [s.replace(/c/g, replacement)] for a single character [c]. *)
Fixpoint replace_all (c : ascii) (replacement : string) (s : string)
    : string :=
  match s with
  | EmptyString => EmptyString
  | String a rest =>
      if Ascii.eqb a c
      then (replacement ++ replace_all c replacement rest)%string
      else String a (replace_all c replacement rest)
  end.

Definition quot : ascii := ascii_of_nat 34.

Definition escapeHtml (unsafe : string) : string :=
  replace_all "'" "&#039;"
    (replace_all quot "&quot;"
       (replace_all ">" "&gt;"
          (replace_all "<" "&lt;"
             (replace_all "&" "&amp;" unsafe)))).

End Embed.

(** ** The text tab, [js/modules/text-to-image.js] *)

Module TextToImage.

(** How [copyToClipboard] ends: without doing anything, in its success
    branch with the canvas it copied, in its [catch] with the error, or
    waiting. *)
Inductive Outcome : Type :=
  | Ignored
  | Copied (canvas : Canvas.CanvasEl)
  | Failed (e : error)
  | Waiting.

(** [copyToClipboard]; [text] is the trimmed value of the input, and
    [clipboard_write] stands for [canvas.toBlob] followed by
    [navigator.clipboard.write]. *)
Definition copyToClipboard
    (clipboard_write : Canvas.CanvasEl -> result unit) (text : string)
    : Outcome :=
  if String.eqb text "" then Ignored else
  let textData := TextEncoder_encode text in
  let file := Canvas.mkFile "text.txt" (Some "text/plain"%string) textData in
  match Canvas.encodeFilesToCanvas [file] with
  | Resolved (canvas, _) =>
      match clipboard_write canvas with
      | Ok _ => Copied canvas
      | Err e => Failed e
      end
  | Rejected e => Failed e
  | Pending => Waiting
  end.

End TextToImage.

(** ** Buffers and views *)

(** Goals about [/] and [mod] by a constant. *)
Ltac div_lia := Z.div_mod_to_equations; lia.

Section Buffers.

Implicit Types (a : list Z) (i offset v : Z).

Lemma byteLength_nonneg a : 0 <= byteLength a.
Proof. unfold byteLength. lia. Qed.

Lemma byteLength_zeros n : 0 <= n -> byteLength (zeros n) = n.
Proof.
  intros Hn. unfold byteLength, zeros. rewrite length_replicate. lia.
Qed.

Lemma byteLength_app a a' : byteLength (a ++ a') = byteLength a + byteLength a'.
Proof. unfold byteLength. rewrite length_app. lia. Qed.

Lemma byteLength_store a i v : byteLength (store a i v) = byteLength a.
Proof.
  unfold byteLength, store. destruct (i <? 0); [done|].
  by rewrite length_insert.
Qed.

Lemma byteLength_prefix a n :
  0 <= n -> byteLength (prefix a n) = Z.min n (byteLength a).
Proof.
  intros Hn. unfold byteLength, prefix. rewrite length_take. lia.
Qed.

Lemma at_index_store_eq a i v :
  0 <= i < byteLength a -> at_index (store a i v) i = Some v.
Proof.
  unfold at_index, store, byteLength. intros Hi.
  destruct (i <? 0) eqn:E; [lia|].
  apply list_lookup_insert_eq. lia.
Qed.

Lemma at_index_store_ne a i j v :
  i <> j -> at_index (store a i v) j = at_index a j.
Proof.
  unfold at_index, store. intros Hij.
  destruct (j <? 0) eqn:Ej; [done|].
  destruct (i <? 0) eqn:Ei; [done|].
  apply list_lookup_insert_ne. lia.
Qed.

Lemma at_index_Some_lt a i x : at_index a i = Some x -> 0 <= i < byteLength a.
Proof.
  unfold at_index, byteLength. destruct (i <? 0) eqn:E; [done|].
  intros H. apply lookup_lt_Some in H. lia.
Qed.

Lemma in_view_true a offset size :
  0 <= offset -> offset + size <= byteLength a -> in_view a offset size = true.
Proof. unfold in_view. intros. apply andb_true_intro. split; lia. Qed.

Lemma in_view_false a offset size :
  byteLength a < offset + size -> in_view a offset size = false.
Proof.
  unfold in_view. intros. apply andb_false_intro2. lia.
Qed.

Lemma typed_set_Ok a source offset :
  0 <= offset -> offset + byteLength source <= byteLength a ->
  exists a', typed_set a source offset = Ok a'
             /\ byteLength a' = byteLength a.
Proof.
  intros H0 Hfit. unfold typed_set.
  destruct (offset <? 0) eqn:E1; [lia|].
  destruct (byteLength a <? offset + byteLength source) eqn:E2; [lia|].
  simpl. eexists. split; [reflexivity|].
  unfold byteLength in *.
  rewrite !length_app, length_take, length_drop. lia.
Qed.

Lemma setUint8_Ok a offset v :
  0 <= offset -> offset + 1 <= byteLength a ->
  exists a', setUint8 a offset v = Ok a' /\ byteLength a' = byteLength a.
Proof.
  intros. unfold setUint8. rewrite in_view_true by lia.
  eexists. split; [reflexivity|]. by rewrite byteLength_store.
Qed.

Lemma setUint16_Ok a offset v :
  0 <= offset -> offset + 2 <= byteLength a ->
  exists a', setUint16 a offset v = Ok a' /\ byteLength a' = byteLength a.
Proof.
  intros. unfold setUint16. rewrite in_view_true by lia.
  eexists. split; [reflexivity|]. by rewrite !byteLength_store.
Qed.

Lemma setUint32_Ok a offset v :
  0 <= offset -> offset + 4 <= byteLength a ->
  exists a', setUint32 a offset v = Ok a' /\ byteLength a' = byteLength a.
Proof.
  intros. unfold setUint32. rewrite in_view_true by lia.
  eexists. split; [reflexivity|]. by rewrite !byteLength_store.
Qed.

Lemma setUint32_RangeError a offset v :
  byteLength a < offset + 4 -> setUint32 a offset v = Err RangeError.
Proof. intros. unfold setUint32. by rewrite in_view_false. Qed.

Lemma getUint8_Ok a offset :
  0 <= offset < byteLength a -> getUint8 a offset = Ok (byte_at a offset).
Proof. intros. unfold getUint8. by rewrite in_view_true by lia. Qed.

End Buffers.

(** ** The dimension planner *)

Section Planner.

Lemma ceil_div_upper a b : 0 < b -> a <= ceil_div a b * b.
Proof.
  intros Hb. unfold ceil_div.
  pose proof (Z.mul_div_le (- a) b Hb). lia.
Qed.

Lemma ceil_div_pos a b : 0 < b -> 0 < a -> 0 < ceil_div a b.
Proof.
  intros Hb Ha. pose proof (ceil_div_upper a b Hb). nia.
Qed.

Lemma ceil_sqrt_pos p : 0 < p -> 0 < ceil_sqrt p.
Proof.
  intros Hp. unfold ceil_sqrt.
  pose proof (Z.sqrt_up_spec p Hp). pose proof (Z.sqrt_up_nonneg p). nia.
Qed.

(** The width chosen from [side], and the rows it needs. *)
Lemma even_width_holds p :
  0 < p ->
  let side := ceil_sqrt p in
  let w := if side mod 2 =? 0 then side else side + 1 in
  0 < w /\ Z.even w = true /\ p <= w * ceil_div p w.
Proof.
  intros Hp side w. pose proof (ceil_sqrt_pos p Hp) as Hside.
  fold side in Hside.
  assert (Hw : 0 < w) by (subst w; destruct (side mod 2 =? 0); lia).
  split; [done|]. split.
  - subst w. destruct (side mod 2 =? 0) eqn:E.
    + apply Z.eqb_eq in E. rewrite Zeven_mod. by apply Z.eqb_eq.
    + apply Z.eqb_neq in E. rewrite Zeven_mod. apply Z.eqb_eq.
      pose proof (Z.mod_pos_bound side 2 ltac:(lia)).
      replace (side + 1) with (side mod 2 + 1 + (side / 2) * 2)
        by (pose proof (Z.div_mod side 2 ltac:(lia)); lia).
      rewrite Z.mod_add by lia.
      assert (side mod 2 = 1) as -> by lia. reflexivity.
  - pose proof (ceil_div_upper p w Hw). lia.
Qed.

Lemma totalSize_fold files acc :
  acc <= fold_left (fun total file =>
                      total + Canvas.FILE_HEADER_SIZE
                      + byteLength (Canvas.data file)) files acc.
Proof.
  revert acc. induction files as [|f files IH]; intros acc; simpl; [lia|].
  etransitivity; [|apply IH].
  pose proof (byteLength_nonneg (Canvas.data f)).
  unfold Canvas.FILE_HEADER_SIZE. lia.
Qed.

Lemma totalSizeOf_pos files : 0 < Canvas.totalSizeOf files.
Proof.
  unfold Canvas.totalSizeOf.
  pose proof (totalSize_fold files Canvas.HEADER_SIZE).
  unfold Canvas.HEADER_SIZE in *. lia.
Qed.

Lemma calculateCanvasSizeForFiles_holds files :
  let d := Canvas.calculateCanvasSizeForFiles files in
  Canvas.totalSizeOf files <= Canvas.width d * Canvas.height d * 3
  /\ Z.even (Canvas.width d) = true
  /\ 0 < Canvas.width d /\ 0 < Canvas.height d.
Proof.
  unfold Canvas.calculateCanvasSizeForFiles. simpl.
  pose proof (totalSizeOf_pos files) as Hpos.
  set (total := Canvas.totalSizeOf files) in *.
  assert (Hp : 0 < ceil_div total 3) by (apply ceil_div_pos; lia).
  destruct (even_width_holds _ Hp) as (Hw & Heven & Hfit).
  pose proof (ceil_div_upper total 3 ltac:(lia)).
  repeat split; try done; [lia|].
  by apply ceil_div_pos.
Qed.

Lemma Legacy_calculateCanvasSize_holds n :
  0 <= n ->
  let d := Legacy.calculateCanvasSize n in
  n + Legacy.HEADER_SIZE <= Legacy.width d * Legacy.height d * 3
  /\ Z.even (Legacy.width d) = true
  /\ 0 < Legacy.width d /\ 0 < Legacy.height d.
Proof.
  intros Hn. unfold Legacy.calculateCanvasSize. simpl.
  set (total := n + Legacy.HEADER_SIZE).
  assert (Hpos : 0 < total) by (unfold total, Legacy.HEADER_SIZE; lia).
  assert (Hp : 0 < ceil_div total 3) by (apply ceil_div_pos; lia).
  destruct (even_width_holds _ Hp) as (Hw & Heven & Hfit).
  pose proof (ceil_div_upper total 3 ltac:(lia)).
  repeat split; try done; [lia|].
  by apply ceil_div_pos.
Qed.

Lemma totalSizeOf_single n :
  0 <= n ->
  Canvas.totalSizeOf [Canvas.mkFile "" None (zeros n)]
  = Canvas.HEADER_SIZE + Canvas.FILE_HEADER_SIZE + n.
Proof.
  intros Hn. unfold Canvas.totalSizeOf. simpl.
  by rewrite byteLength_zeros.
Qed.

(** C4.  For every total byte length [n] (a length is below
    [exact_limit], where the arithmetic of the planners is exact) the
    planners return dimensions with an even width that hold the bytes
    they plan for: [calculateCanvasSize] of [js/utils/canvas.js] holds
    [n] bytes after the main header and one file header, the legacy
    [calculateCanvasSize] holds [n] bytes after its 32-byte header, and
    [calculateCanvasSizeForFiles] holds the [n] bytes of the container
    of its files.  The dimensions depend on the files through their
    total size alone: names, types and contents play no part, and no
    state is read. *)
Theorem planner_capacity_and_even_width (n : Z) :
  0 <= n < exact_limit ->
  (let d := Canvas.calculateCanvasSize n in
   n + Canvas.HEADER_SIZE + Canvas.FILE_HEADER_SIZE
   <= Canvas.width d * Canvas.height d * 3
   /\ n <= Canvas.width d * Canvas.height d * 3
   /\ Z.even (Canvas.width d) = true)
  /\ (let d := Legacy.calculateCanvasSize n in
      n + Legacy.HEADER_SIZE <= Legacy.width d * Legacy.height d * 3
      /\ n <= Legacy.width d * Legacy.height d * 3
      /\ Z.even (Legacy.width d) = true)
  /\ (forall files, Canvas.totalSizeOf files = n ->
        let d := Canvas.calculateCanvasSizeForFiles files in
        n <= Canvas.width d * Canvas.height d * 3
        /\ Z.even (Canvas.width d) = true)
  /\ (forall files files',
        Canvas.totalSizeOf files = n -> Canvas.totalSizeOf files' = n ->
        Canvas.calculateCanvasSizeForFiles files
        = Canvas.calculateCanvasSizeForFiles files')
  /\ (forall files,
        Canvas.totalSizeOf files
        = n + Canvas.HEADER_SIZE + Canvas.FILE_HEADER_SIZE ->
        Canvas.calculateCanvasSizeForFiles files
        = Canvas.calculateCanvasSize n).
Proof.
  intros [Hn _]. split; [|split; [|split; [|split]]].
  - unfold Canvas.calculateCanvasSize.
    destruct (calculateCanvasSizeForFiles_holds
                [Canvas.mkFile "" None (zeros n)]) as (H & Heven & _).
    rewrite totalSizeOf_single in H by done.
    unfold Canvas.HEADER_SIZE, Canvas.FILE_HEADER_SIZE in *.
    split; [lia|]. split; [lia|done].
  - destruct (Legacy_calculateCanvasSize_holds n Hn) as (H & Heven & _).
    unfold Legacy.HEADER_SIZE in *. split; [lia|]. split; [lia|done].
  - intros files <-.
    destruct (calculateCanvasSizeForFiles_holds files) as (H & Heven & _).
    by split.
  - intros files files' Hfiles Hfiles'.
    unfold Canvas.calculateCanvasSizeForFiles. by rewrite Hfiles, Hfiles'.
  - intros files Hfiles.
    unfold Canvas.calculateCanvasSize, Canvas.calculateCanvasSizeForFiles.
    rewrite Hfiles, totalSizeOf_single by done.
    unfold Canvas.HEADER_SIZE, Canvas.FILE_HEADER_SIZE.
    by replace (64 + 128 + n) with (n + 64 + 128) by lia.
Qed.

Lemma planner_capacity_and_even_width_witness :
  0 <= 1000 < exact_limit
  /\ (let d := Canvas.calculateCanvasSize 1000 in
      1000 + Canvas.HEADER_SIZE + Canvas.FILE_HEADER_SIZE
      <= Canvas.width d * Canvas.height d * 3
      /\ 1000 <= Canvas.width d * Canvas.height d * 3
      /\ Z.even (Canvas.width d) = true)
  /\ (let d := Legacy.calculateCanvasSize 1000 in
      1000 + Legacy.HEADER_SIZE
      <= Legacy.width d * Legacy.height d * 3
      /\ 1000 <= Legacy.width d * Legacy.height d * 3
      /\ Z.even (Legacy.width d) = true).
Proof.
  assert (Hrange : 0 <= 1000 < exact_limit)
    by (unfold exact_limit; lia).
  split; [exact Hrange|].
  destruct (planner_capacity_and_even_width 1000 Hrange)
    as (Hnew & Hold & _).
  split; [exact Hnew|exact Hold].
Defined.

End Planner.

(** ** Building the container *)

Section Container.

Lemma mainHeader_Ok fileCount :
  exists header, Canvas.mainHeader fileCount = Ok header
                 /\ byteLength header = Canvas.HEADER_SIZE.
Proof.
  unfold Canvas.mainHeader.
  pose proof (byteLength_zeros Canvas.HEADER_SIZE ltac:(done)) as H0.
  unfold Canvas.HEADER_SIZE in *.
  destruct (setUint8_Ok (zeros 64) 0 70) as (h1 & -> & H1); [lia..|]; simpl.
  destruct (setUint8_Ok h1 1 50) as (h2 & -> & H2); [lia..|]; simpl.
  destruct (setUint8_Ok h2 2 80) as (h3 & -> & H3); [lia..|]; simpl.
  destruct (setUint8_Ok h3 3 49) as (h4 & -> & H4); [lia..|]; simpl.
  destruct (setUint8_Ok h4 4 1) as (h5 & -> & H5); [lia..|]; simpl.
  destruct (setUint8_Ok h5 5 fileCount) as (h6 & -> & H6); [lia..|].
  exists h6. split; [done|lia].
Qed.

(** The write of the data offset at byte 127 needs bytes 127..130 of a
    128-byte header: every file header throws, after the five writes
    before it succeeded. *)
Lemma buildFileHeader_RangeError file dataOffset :
  Canvas.buildFileHeader file dataOffset = Err RangeError.
Proof.
  unfold Canvas.buildFileHeader.
  set (nameBytes := TextEncoder_encode (Canvas.name file)).
  set (mimeBytes := TextEncoder_encode (Canvas.type_or_default file)).
  pose proof (byteLength_zeros Canvas.FILE_HEADER_SIZE ltac:(done)) as H0.
  pose proof (byteLength_nonneg nameBytes) as Hn.
  pose proof (byteLength_nonneg mimeBytes) as Hm.
  unfold Canvas.FILE_HEADER_SIZE in *.
  destruct (setUint16_Ok (zeros 128) 0 (Z.min (byteLength nameBytes) 100))
    as (h1 & -> & H1); [lia..|]; simpl.
  destruct (typed_set_Ok h1
              (prefix nameBytes (Z.min (byteLength nameBytes) 100)) 2)
    as (h2 & -> & H2); [lia| rewrite byteLength_prefix; lia |]; simpl.
  destruct (setUint8_Ok h2 102 (Z.min (byteLength mimeBytes) 20))
    as (h3 & -> & H3); [lia..|]; simpl.
  destruct (typed_set_Ok h3
              (prefix mimeBytes (Z.min (byteLength mimeBytes) 20)) 103)
    as (h4 & -> & H4); [lia| rewrite byteLength_prefix; lia |]; simpl.
  destruct (setUint32_Ok h4 123 (byteLength (Canvas.data file)))
    as (h5 & -> & H5); [lia..|]; simpl.
  rewrite setUint32_RangeError by lia. reflexivity.
Qed.

(** C2. The container-building part of [encodeFilesToCanvas] throws a
    [RangeError] on every list that holds at least one file, whatever the
    names, mime types and payloads: the data-offset field does not stay
    within the 128-byte file header.  The promise of
    [encodeFilesToCanvas] is rejected with that error. *)
Theorem buildContainer_throws_on_every_file (file : Canvas.File)
    (files : list Canvas.File) :
  Canvas.buildContainer (file :: files) = Err RangeError
  /\ Canvas.encodeFilesToCanvas (file :: files) = Rejected RangeError.
Proof.
  assert (H : Canvas.buildContainer (file :: files) = Err RangeError).
  { unfold Canvas.buildContainer.
    destruct (mainHeader_Ok
                (Z.min (Z.of_nat (length (file :: files))) 255))
      as (header & -> & _).
    destruct (Z.to_nat (Z.min (Z.of_nat (length (file :: files))) 255))
      as [|k] eqn:E; [simpl length in E; lia|].
    simpl. by rewrite buildFileHeader_RangeError. }
  split; [exact H|].
  unfold Canvas.encodeFilesToCanvas. by rewrite H.
Qed.

(** C1. On the two files of the round-trip scenario ([a.txt] with bytes
    1, 2, 3 and the empty [b.bin]) [encodeFilesToCanvas] is rejected with
    a [RangeError]: no canvas is produced for [extractFilesFromCanvas]
    to read back. *)
Theorem encode_two_files_rejected :
  Canvas.encodeFilesToCanvas Samples.two_files = Rejected RangeError.
Proof. vm_compute. reflexivity. Qed.

(** C9. On a file whose name has 101 bytes [encodeFilesToCanvas] is
    rejected with a [RangeError], as it is on a file with a short name:
    no entry is produced whose name could be compared with the
    original. *)
Theorem encode_long_name_rejected :
  String.length Samples.name101 = 101%nat
  /\ Canvas.encodeFilesToCanvas Samples.long_named = Rejected RangeError
  /\ Canvas.encodeFilesToCanvas
       [Canvas.mkFile "a.txt" (Some "text/plain"%string) [1; 2; 3]]
     = Rejected RangeError.
Proof. vm_compute. repeat split. Qed.

End Container.

(** ** Progress fractions *)

Section Fractions.

Lemma fraction_Qmake a b : 0 < b -> (fraction a b == a # Z.to_pos b)%Q.
Proof.
  intros Hb. unfold fraction. destruct b as [|p|p]; try lia.
  unfold Qdiv, Qinv, inject_Z, Qeq, Qmult. simpl. lia.
Qed.

Lemma fraction_le a a' b :
  0 < b -> a <= a' -> (fraction a b <= fraction a' b)%Q.
Proof.
  intros Hb Ha. rewrite !fraction_Qmake by done.
  unfold Qle. simpl. nia.
Qed.

Lemma fraction_lt a a' b :
  0 < b -> a < a' -> (fraction a b < fraction a' b)%Q.
Proof.
  intros Hb Ha. rewrite !fraction_Qmake by done.
  unfold Qlt. simpl. nia.
Qed.

Lemma fraction_one b : 0 < b -> (fraction b b == 1)%Q.
Proof.
  intros Hb. rewrite fraction_Qmake by done.
  unfold Qeq. simpl. rewrite Z2Pos.id by done. lia.
Qed.

Lemma fraction_pos a b : 0 < b -> 0 < a -> (0 < fraction a b)%Q.
Proof.
  intros Hb Ha. rewrite fraction_Qmake by done.
  unfold Qlt. simpl. lia.
Qed.

Lemma nondecreasing_snoc l q :
  nondecreasing l -> Forall (fun x => (x <= q)%Q) l ->
  nondecreasing (l ++ [q]).
Proof.
  induction l as [|x l IH]; intros Hnd Hall; simpl; [done|].
  destruct Hnd as [Hx Hnd]. inversion Hall as [|? ? Hxq Hall']; subst.
  split; [|by apply IH].
  destruct l as [|y l]; simpl; done.
Qed.

Lemma Forall_le_snoc l q q' :
  Forall (fun x => (x <= q)%Q) l -> (q <= q')%Q ->
  Forall (fun x => (x <= q')%Q) (l ++ [q']).
Proof.
  intros Hall Hq. apply Forall_app. split.
  - eapply Forall_impl; [exact Hall|]. intros x Hx. simpl in *.
    by apply Qle_trans with q.
  - constructor; [apply Qle_refl|constructor].
Qed.

Lemma ends_at_one_snoc l q : (q == 1)%Q -> ends_at_one (l ++ [q]).
Proof. intros Hq. unfold ends_at_one. by rewrite last_snoc. Qed.

Lemma increasing_cons q l :
  increasing l -> Forall (fun x => (q < x)%Q) l -> increasing (q :: l).
Proof.
  intros Hinc Hall. simpl. split; [|done].
  destruct l as [|y l]; [done|]. by inversion Hall.
Qed.

Lemma increasing_nondecreasing l : increasing l -> nondecreasing l.
Proof.
  induction l as [|x l IH]; [done|]. simpl. intros [Hx Hl].
  split; [|by apply IH].
  destruct l as [|y l]; [done|]. by apply Qlt_le_weak.
Qed.

End Fractions.

(** ** Reading a container *)

Section Parse.

Implicit Types (ab : list Z) (pre progress : list Q).

Lemma readHeaders_break ab fileCount remaining i offset files progress :
  byteLength ab < offset + Canvas.FILE_HEADER_SIZE ->
  Canvas.readHeaders ab fileCount remaining i offset files progress
  = Ok (files, progress).
Proof.
  intros Hshort. destruct remaining as [|remaining]; simpl; [done|].
  destruct (byteLength ab <? offset + Canvas.FILE_HEADER_SIZE) eqn:E;
    [done|lia].
Qed.

(** After a [continue] the next round reads the same header again: once
    an entry is out of bounds no later entry is read. *)
Lemma readHeaders_continue ab fileCount offset name type dataStart dataEnd :
  Canvas.readFileHeader ab fileCount offset
  = Ok (name, type, dataStart, dataEnd) ->
  byteLength ab < dataEnd ->
  forall remaining i files progress,
    Canvas.readHeaders ab fileCount remaining i offset files progress
    = Ok (files, progress).
Proof.
  intros Hread Hout remaining.
  induction remaining as [|remaining IH]; intros i files progress; simpl;
    [done|].
  destruct (byteLength ab <? offset + Canvas.FILE_HEADER_SIZE); [done|].
  rewrite Hread. simpl.
  destruct (byteLength ab <? dataEnd) eqn:E; [apply IH|lia].
Qed.

Lemma expect_magic ab (b0 b1 b2 b3 : Z) rest :
  ab = b0 :: b1 :: b2 :: b3 :: rest ->
  Canvas.expect_byte ab 0 0x46
    (Canvas.expect_byte ab 1 0x32
      (Canvas.expect_byte ab 2 0x50
        (Canvas.expect_byte ab 3 0x31 (Ok tt))))
  = if decide ([b0; b1; b2; b3] = magic) then Ok tt else Err InvalidMagic.
Proof.
  intros ->. unfold Canvas.expect_byte.
  rewrite !getUint8_Ok
    by (unfold byteLength; simpl length; lia).
  unfold byte_at, at_index. simpl. unfold magic.
  destruct (b0 =? 70) eqn:E0; [apply Z.eqb_eq in E0; subst|];
    [|apply Z.eqb_neq in E0; case_decide; [congruence|done]].
  destruct (b1 =? 50) eqn:E1; [apply Z.eqb_eq in E1; subst|];
    [|apply Z.eqb_neq in E1; case_decide; [congruence|done]].
  destruct (b2 =? 80) eqn:E2; [apply Z.eqb_eq in E2; subst|];
    [|apply Z.eqb_neq in E2; case_decide; [congruence|done]].
  destruct (b3 =? 49) eqn:E3; [apply Z.eqb_eq in E3; subst|];
    [|apply Z.eqb_neq in E3; case_decide; [congruence|done]].
  case_decide; done.
Qed.

Lemma four_bytes ab :
  4 <= byteLength ab ->
  exists b0 b1 b2 b3 rest,
    ab = b0 :: b1 :: b2 :: b3 :: rest /\ take 4 ab = [b0; b1; b2; b3].
Proof.
  unfold byteLength. intros Hlen.
  destruct ab as [|b0 [|b1 [|b2 [|b3 rest]]]]; simpl in Hlen; try lia.
  by exists b0, b1, b2, b3, rest.
Qed.

Lemma byte_at_Some ab i v : at_index ab i = Some v -> byte_at ab i = v.
Proof. unfold byte_at. by intros ->. Qed.

Lemma parse_bad_magic ab pre :
  4 <= byteLength ab -> take 4 ab <> magic ->
  Canvas.parseContainer ab pre = Err InvalidMagic.
Proof.
  intros Hlen Hbad.
  destruct (four_bytes ab Hlen) as (b0 & b1 & b2 & b3 & rest & Hab & Htake).
  unfold Canvas.parseContainer. rewrite (expect_magic ab b0 b1 b2 b3 rest Hab).
  case_decide; [congruence|done].
Qed.

Lemma parse_magic_ok ab pre :
  take 4 ab = magic ->
  Canvas.parseContainer ab pre
  = (let* version := getUint8 ab 4 in
     if negb (version =? 1) then Err (UnsupportedVersion version) else
     let* fileCount := getUint8 ab 5 in
     if fileCount =? 0 then Err NoFilesFound else
     let* read := Canvas.readHeaders ab fileCount (Z.to_nat fileCount)
                    0 Canvas.HEADER_SIZE [] pre in
     if (length (fst read) =? 0)%nat then Err NoValidFiles else Ok read).
Proof.
  intros Hmagic.
  assert (Hlen : 4 <= byteLength ab).
  { pose proof (f_equal length Hmagic) as Hl. rewrite length_take in Hl.
    unfold byteLength. change (length magic) with 4%nat in Hl. lia. }
  destruct (four_bytes ab Hlen) as (b0 & b1 & b2 & b3 & rest & Hab & Htake).
  unfold Canvas.parseContainer. rewrite (expect_magic ab b0 b1 b2 b3 rest Hab).
  case_decide; [done|congruence].
Qed.

Lemma parse_bad_version ab pre v :
  take 4 ab = magic -> at_index ab 4 = Some v -> v <> 1 ->
  Canvas.parseContainer ab pre = Err (UnsupportedVersion v).
Proof.
  intros Hmagic Hv Hne. rewrite parse_magic_ok by done.
  rewrite getUint8_Ok by (by apply at_index_Some_lt in Hv).
  rewrite (byte_at_Some _ _ _ Hv). simpl.
  destruct (v =? 1) eqn:E; [lia|done].
Qed.

Lemma parse_no_files ab pre :
  take 4 ab = magic -> at_index ab 4 = Some 1 -> at_index ab 5 = Some 0 ->
  Canvas.parseContainer ab pre = Err NoFilesFound.
Proof.
  intros Hmagic Hv Hc. rewrite parse_magic_ok by done.
  rewrite getUint8_Ok by (by apply at_index_Some_lt in Hv).
  rewrite (byte_at_Some _ _ _ Hv). simpl.
  rewrite getUint8_Ok by (by apply at_index_Some_lt in Hc).
  by rewrite (byte_at_Some _ _ _ Hc).
Qed.

Lemma parse_short ab pre :
  byteLength ab < Canvas.HEADER_SIZE ->
  exists e, Canvas.parseContainer ab pre = Err e.
Proof.
  intros Hshort. unfold Canvas.parseContainer.
  destruct (Canvas.expect_byte ab 0 70 _) as [[]|e]; simpl; [|by eexists].
  destruct (getUint8 ab 4) as [version|e]; simpl; [|by eexists].
  destruct (negb (version =? 1)); [by eexists|].
  destruct (getUint8 ab 5) as [fileCount|e]; simpl; [|by eexists].
  destruct (fileCount =? 0); [by eexists|].
  rewrite readHeaders_break; simpl; [by eexists|].
  unfold Canvas.HEADER_SIZE, Canvas.FILE_HEADER_SIZE in *. lia.
Qed.

End Parse.

(** ** Rejected containers *)

Section Rejections.

Variable extractDataFromCanvas : Canvas.CanvasEl -> Promise (list Z * list Q).
Variable canvas : Canvas.CanvasEl.

Lemma extract_settles ab pre :
  extractDataFromCanvas canvas = Resolved (ab, pre) ->
  Canvas.extractFilesFromCanvas extractDataFromCanvas canvas
  = settle (Canvas.parseContainer ab pre).
Proof. intros H. unfold Canvas.extractFilesFromCanvas. by rewrite H. Qed.

End Rejections.

(** C6 (as amended).  Let [extractDataFromCanvas] resolve with the buffer
    [ab].  [extractFilesFromCanvas] is rejected with a FormatError when
    [ab] has at least 4 bytes that are not the magic number, and when it
    starts with the magic number and its version byte is not 1; it is
    rejected with an EmptyContainerError when it starts with the magic
    number, version 1 and a file count of 0.  The length of [ab] is never
    compared with the header size: a buffer shorter than the 64-byte
    header is rejected too, with an error that depends on the bytes it
    holds.  No list of files is returned in any of these cases. *)
Theorem extract_rejections
    (extractDataFromCanvas : Canvas.CanvasEl -> Promise (list Z * list Q))
    (canvas : Canvas.CanvasEl) (ab : list Z) (pre : list Q) :
  extractDataFromCanvas canvas = Resolved (ab, pre) ->
  (4 <= byteLength ab -> take 4 ab <> magic ->
   exists e, Canvas.extractFilesFromCanvas extractDataFromCanvas canvas
             = Rejected e /\ kind_of e = FormatError)
  /\ (forall v, take 4 ab = magic -> at_index ab 4 = Some v -> v <> 1 ->
      exists e, Canvas.extractFilesFromCanvas extractDataFromCanvas canvas
                = Rejected e /\ kind_of e = FormatError)
  /\ (take 4 ab = magic -> at_index ab 4 = Some 1 -> at_index ab 5 = Some 0 ->
      exists e, Canvas.extractFilesFromCanvas extractDataFromCanvas canvas
                = Rejected e /\ kind_of e = EmptyContainerError)
  /\ (byteLength ab < Canvas.HEADER_SIZE ->
      exists e, Canvas.extractFilesFromCanvas extractDataFromCanvas canvas
                = Rejected e).
Proof.
  intros Hread. rewrite (extract_settles _ _ _ _ Hread).
  split; [|split; [|split]].
  - intros Hlen Hbad. rewrite parse_bad_magic by done. by eexists.
  - intros v Hmagic Hv Hne. rewrite (parse_bad_version _ _ v) by done.
    by eexists.
  - intros Hmagic Hv Hc. rewrite parse_no_files by done. by eexists.
  - intros Hshort. destruct (parse_short ab pre Hshort) as [e ->].
    by eexists.
Qed.

Lemma extract_rejections_witness :
  (exists e, Canvas.extractFilesFromCanvas
               (Samples.reads Samples.no_magic) Samples.blank = Rejected e
             /\ kind_of e = FormatError)
  /\ (exists e, Canvas.extractFilesFromCanvas
                  (Samples.reads Samples.version_two) Samples.blank
                = Rejected e /\ kind_of e = FormatError)
  /\ (exists e, Canvas.extractFilesFromCanvas
                  (Samples.reads Samples.no_file) Samples.blank
                = Rejected e /\ kind_of e = EmptyContainerError)
  /\ (exists e, Canvas.extractFilesFromCanvas
                  (Samples.reads Samples.six_bytes) Samples.blank
                = Rejected e).
Proof.
  split; [|split; [|split]].
  - destruct (extract_rejections (Samples.reads Samples.no_magic)
                Samples.blank Samples.no_magic [1%Q] eq_refl) as (H & _).
    apply H; [vm_compute; discriminate | vm_compute; discriminate].
  - destruct (extract_rejections (Samples.reads Samples.version_two)
                Samples.blank Samples.version_two [1%Q] eq_refl)
      as (_ & H & _).
    apply (H 2); [reflexivity | reflexivity | lia].
  - destruct (extract_rejections (Samples.reads Samples.no_file)
                Samples.blank Samples.no_file [1%Q] eq_refl)
      as (_ & _ & H & _).
    apply H; reflexivity.
  - destruct (extract_rejections (Samples.reads Samples.six_bytes)
                Samples.blank Samples.six_bytes [1%Q] eq_refl)
      as (_ & _ & _ & H).
    apply H. vm_compute. reflexivity.
Defined.

(** C6, the claim as stated fails: a buffer of six bytes (the magic
    number, version 1, no file) is shorter than the header and is rejected
    with an EmptyContainerError, not with a FormatError. *)
Lemma short_buffer_not_FormatError :
  byteLength Samples.six_bytes < Canvas.HEADER_SIZE
  /\ Canvas.extractFilesFromCanvas (Samples.reads Samples.six_bytes)
       Samples.blank = Rejected NoFilesFound
  /\ ~ (exists e, Canvas.extractFilesFromCanvas
                    (Samples.reads Samples.six_bytes) Samples.blank
                  = Rejected e /\ kind_of e = FormatError).
Proof.
  split; [vm_compute; reflexivity|]. split; [vm_compute; reflexivity|].
  intros (e & He & Hk). vm_compute in He.
  injection He as <-. discriminate Hk.
Qed.

(** ** Entries out of bounds *)

(** Whatever the later headers hold, a container whose first entry is out
    of bounds yields no file at all. *)
Lemma first_entry_out_of_bounds ab pre fileCount name type dataStart dataEnd :
  take 4 ab = magic -> at_index ab 4 = Some 1 ->
  at_index ab 5 = Some fileCount -> fileCount <> 0 ->
  Canvas.readFileHeader ab fileCount Canvas.HEADER_SIZE
  = Ok (name, type, dataStart, dataEnd) ->
  byteLength ab < dataEnd ->
  Canvas.parseContainer ab pre = Err NoValidFiles.
Proof.
  intros Hmagic Hv Hc Hne Hread Hout. rewrite parse_magic_ok by done.
  rewrite getUint8_Ok by (by apply at_index_Some_lt in Hv).
  rewrite (byte_at_Some _ _ _ Hv). simpl.
  rewrite getUint8_Ok by (by apply at_index_Some_lt in Hc).
  rewrite (byte_at_Some _ _ _ Hc). simpl.
  destruct (fileCount =? 0) eqn:E; [lia|].
  by rewrite (readHeaders_continue _ _ _ _ _ _ _ Hread Hout).
Qed.

(** C5.  A container of two entries over a data section of three bytes:
    the first entry declares 200 bytes and is out of bounds, the second
    declares the three bytes at offset 0 and passes the bounds check.
    The first is skipped, the second is never read, and the promise is
    rejected with 'No valid files found in the image'. *)
Theorem extract_loses_entries_after_a_skipped_one :
  let ab := Samples.first_entry_too_long in
  (exists name type dataStart dataEnd,
     Canvas.readFileHeader ab 2 Canvas.HEADER_SIZE
     = Ok (name, type, dataStart, dataEnd)
     /\ byteLength ab < dataEnd)
  /\ (exists name type dataStart dataEnd,
        Canvas.readFileHeader ab 2
          (Canvas.HEADER_SIZE + Canvas.FILE_HEADER_SIZE)
        = Ok (name, type, dataStart, dataEnd)
        /\ dataEnd <= byteLength ab)
  /\ Canvas.extractFilesFromCanvas (Samples.reads ab) Samples.blank
     = Rejected NoValidFiles.
Proof.
  split; [|split].
  - eexists _, _, _, _. split; [vm_compute; reflexivity|]. vm_compute.
    reflexivity.
  - eexists _, _, _, _. split; [vm_compute; reflexivity|]. vm_compute.
    discriminate.
  - vm_compute. reflexivity.
Qed.

(** ** Reading a legacy canvas *)

Section LegacyRead.

Lemma for_loop_invariant {St : Type} (P : St -> Prop) rounds i step
    (cond : Z -> St -> bool) (body : Z -> St -> St) (s : St) :
  P s -> (forall j s', P s' -> P (body j s')) ->
  P (for_loop rounds i step cond body s).
Proof.
  intros Hs Hbody. revert i s Hs.
  induction rounds as [|rounds IH]; intros i s Hs; simpl; [done|].
  destruct (cond i s); [|done]. apply IH. by apply Hbody.
Qed.

Lemma readHeaderPixel_length img i (s : list Z * Z) :
  byteLength (fst s) = Legacy.HEADER_SIZE ->
  byteLength (fst (Legacy.readHeaderPixel img i s)) = Legacy.HEADER_SIZE.
Proof.
  intros Hs. unfold Legacy.readHeaderPixel.
  destruct s as [header n]. simpl in *.
  repeat match goal with
         | |- context [if ?c then _ else _] => destruct c; simpl
         end;
    by rewrite ?byteLength_store.
Qed.

Lemma readHeader_length img :
  byteLength (Legacy.readHeader img) = Legacy.HEADER_SIZE.
Proof.
  unfold Legacy.readHeader.
  apply (for_loop_invariant
           (fun s => byteLength (fst s) = Legacy.HEADER_SIZE)).
  - simpl. by apply byteLength_zeros.
  - intros j s Hs. by apply readHeaderPixel_length.
Qed.

Lemma getUint16_Ok a offset :
  0 <= offset -> offset + 2 <= byteLength a ->
  exists v, getUint16 a offset = Ok v.
Proof.
  intros. unfold getUint16. rewrite in_view_true by lia. by eexists.
Qed.

End LegacyRead.

(** C8.  When the header read from the canvas declares more bytes than
    the [width * height * 3] the canvas can hold, the guard on the data
    length throws: [decodeFileFromCanvas] is rejected with an
    InsufficientDataError ('Invalid data length in header') and resolves
    with no data at all. *)
Theorem decode_rejects_insufficient_grid (canvas : Legacy.CanvasEl)
    (declared : Z) :
  Legacy.declaredLength canvas = Ok declared ->
  Legacy.canvas_width canvas * Legacy.canvas_height canvas * 3 < declared ->
  Legacy.decodeFileFromCanvas canvas = Rejected InvalidDataLength
  /\ kind_of InvalidDataLength = InsufficientDataError
  /\ (forall decoded progress,
        Legacy.decodeFileFromCanvas canvas <> Resolved (decoded, progress)).
Proof.
  intros Hdeclared Hsmall.
  assert (H : Legacy.readMetadata canvas = Err InvalidDataLength).
  { unfold Legacy.readMetadata. unfold Legacy.declaredLength in Hdeclared.
    pose proof (readHeader_length (Legacy.pixels canvas)) as Hlen.
    unfold Legacy.HEADER_SIZE in *.
    destruct (getUint16_Ok (Legacy.readHeader (Legacy.pixels canvas)) 0)
      as [v0 E0]; [lia..|].
    destruct (getUint16_Ok (Legacy.readHeader (Legacy.pixels canvas)) 22)
      as [v1 E1]; [lia..|].
    cbv zeta. rewrite E0. cbn [bind]. rewrite E1. cbn [bind].
    rewrite Hdeclared. cbn [bind].
    destruct (declared <=? 0); [done|]. cbn [orb].
    destruct (_ <? declared) eqn:E; [done|lia]. }
  unfold Legacy.decodeFileFromCanvas. rewrite H.
  split; [done|]. split; [done|]. intros decoded progress. discriminate.
Qed.

Lemma decode_rejects_insufficient_grid_witness :
  Legacy.declaredLength Samples.small_canvas = Ok 100
  /\ Legacy.canvas_width Samples.small_canvas
     * Legacy.canvas_height Samples.small_canvas * 3 < 100
  /\ Legacy.decodeFileFromCanvas Samples.small_canvas
     = Rejected InvalidDataLength.
Proof.
  split; [reflexivity|]. split; [vm_compute; reflexivity|].
  apply (decode_rejects_insufficient_grid Samples.small_canvas 100).
  - reflexivity.
  - vm_compute. reflexivity.
Defined.

(** ** Mime types *)

Section Mime.








End Mime.




(** ** Progress of the three chunked loops *)

Section Progress.

Lemma fraction_below_one a b : 0 < b -> a < b -> (fraction a b < 1)%Q.
Proof.
  intros Hb Ha. apply Qlt_le_trans with (fraction b b).
  - by apply fraction_lt.
  - rewrite fraction_one by done. apply Qle_refl.
Qed.

(** The fractions the header loop of [extractFilesFromCanvas] reports:
    one per file kept, [(i + 1) / (fileCount + 1)]. *)
Lemma readHeaders_fractions ab fileCount remaining :
  forall i offset files progress files' progress',
    0 <= i -> i + Z.of_nat remaining <= fileCount ->
    Canvas.readHeaders ab fileCount remaining i offset files progress
    = Ok (files', progress') ->
    exists added,
      progress' = progress ++ added
      /\ length files' = (length files + length added)%nat
      /\ increasing added
      /\ Forall (fun q => (fraction (i + 1) (fileCount + 1) <= q)%Q
                          /\ (q < 1)%Q) added.
Proof.
  induction remaining as [|remaining IH];
    intros i offset files progress files' progress' Hi Hrem; simpl.
  - intros [= <- <-]. exists []. rewrite app_nil_r.
    repeat split; [simpl; lia|constructor].
  - destruct (byteLength ab <? offset + Canvas.FILE_HEADER_SIZE).
    { intros [= <- <-]. exists []. rewrite app_nil_r.
      repeat split; [simpl; lia|constructor]. }
    destruct (Canvas.readFileHeader ab fileCount offset)
      as [[[[name type] dataStart] dataEnd]|]; [|done].
    cbn [bind].
    assert (Hstep : (fraction (i + 1) (fileCount + 1)
                     <= fraction (i + 1 + 1) (fileCount + 1))%Q)
      by (apply fraction_le; lia).
    destruct (byteLength ab <? dataEnd).
    + intros Hrest.
      destruct (IH (i + 1) _ _ _ _ _ ltac:(lia) ltac:(lia) Hrest)
        as (added & -> & Hlen & Hinc & Hall).
      exists added. repeat split; try done.
      eapply Forall_impl; [exact Hall|]. intros q [Hq1 Hq2].
      split; [|done].
      by apply Qle_trans with (fraction (i + 1 + 1) (fileCount + 1)).
    + intros Hrest.
      destruct (IH (i + 1) _ _ _ _ _ ltac:(lia) ltac:(lia) Hrest)
        as (added & -> & Hlen & Hinc & Hall).
      exists (fraction (i + 1) (fileCount + 1) :: added).
      split; [by rewrite <- app_assoc|].
      split; [rewrite Hlen, length_app; simpl; lia|].
      split.
      * apply increasing_cons; [done|].
        eapply Forall_impl; [exact Hall|]. intros q [Hq1 Hq2].
        apply Qlt_le_trans with (fraction (i + 1 + 1) (fileCount + 1));
          [|done].
        apply fraction_lt; lia.
      * constructor.
        -- split; [apply Qle_refl|]. apply fraction_below_one; lia.
        -- eapply Forall_impl; [exact Hall|]. intros q [Hq1 Hq2].
           split; [|done].
           by apply Qle_trans with (fraction (i + 1 + 1) (fileCount + 1)).
Qed.

Lemma parse_fractions ab pre files progress :
  Canvas.parseContainer ab pre = Ok (files, progress) ->
  exists added,
    progress = pre ++ added /\ added <> [] /\ increasing added
    /\ Forall (fun q => (0 < q)%Q /\ (q < 1)%Q) added.
Proof.
  unfold Canvas.parseContainer.
  destruct (Canvas.expect_byte ab 0 70 _) as [[]|]; [|done]. cbn [bind].
  destruct (getUint8 ab 4) as [version|]; [|done]. cbn [bind].
  destruct (negb (version =? 1)); [done|].
  destruct (getUint8 ab 5) as [fileCount|]; [|done]. cbn [bind].
  destruct (fileCount =? 0) eqn:Hcount; [done|].
  destruct (Canvas.readHeaders ab fileCount _ _ _ _ _)
    as [[files' progress']|] eqn:Hloop; [|done].
  cbn [bind fst].
  destruct (length files' =? 0)%nat eqn:Hnone; [done|].
  intros [= <- <-].
  destruct (Z_lt_le_dec fileCount 0) as [Hneg|Hpos].
  { replace (Z.to_nat fileCount) with 0%nat in Hloop by lia.
    simpl in Hloop. injection Hloop as <- <-. done. }
  destruct (readHeaders_fractions ab fileCount (Z.to_nat fileCount) 0
              _ _ _ _ _ ltac:(lia) ltac:(lia) Hloop)
    as (added & -> & Hlen & Hinc & Hall).
  exists added. split; [done|]. split.
  { intros ->. simpl in Hlen. rewrite Hlen in Hnone. done. }
  split; [done|].
  eapply Forall_impl; [exact Hall|]. intros q [Hq1 Hq2]. split; [|done].
  apply Qlt_le_trans with (fraction (0 + 1) (fileCount + 1)); [|done].
  apply fraction_pos; lia.
Qed.

(** *** The legacy writer *)

Lemma Legacy_processChunk_progress combined frames_left :
  forall start img progress,
    0 <= start < byteLength combined ->
    byteLength combined - start <= Z.of_nat frames_left ->
    nondecreasing progress ->
    Forall (fun x => (x <= fraction start (byteLength combined))%Q) progress ->
    exists img' progress',
      Legacy.processChunk frames_left combined start img progress
      = Some (img', progress')
      /\ progress_ok progress'.
Proof.
  induction frames_left as [|frames_left IH];
    intros start img progress Hstart Hframes Hnd Hall; [lia|].
  simpl.
  set (stop := Z.min (start + Legacy.CHUNK_SIZE) (byteLength combined)).
  assert (Hstop : start <= stop <= byteLength combined)
    by (unfold stop, Legacy.CHUNK_SIZE; lia).
  assert (Hle : (fraction start (byteLength combined)
                 <= fraction stop (byteLength combined))%Q)
    by (apply fraction_le; lia).
  destruct (stop <? byteLength combined) eqn:E.
  - apply IH.
    + unfold stop, Legacy.CHUNK_SIZE in *. lia.
    + unfold stop, Legacy.CHUNK_SIZE in *. lia.
    + apply nondecreasing_snoc; [done|].
      eapply Forall_impl; [exact Hall|]. intros x Hx. simpl in *.
      by apply Qle_trans with (fraction start (byteLength combined)).
    + by apply Forall_le_snoc with (fraction start (byteLength combined)).
  - eexists _, _. split; [reflexivity|]. split.
    + apply nondecreasing_snoc; [done|].
      eapply Forall_impl; [exact Hall|]. intros x Hx. simpl in *.
      by apply Qle_trans with (fraction start (byteLength combined)).
    + apply ends_at_one_snoc.
      replace stop with (byteLength combined) by lia.
      apply fraction_one. lia.
Qed.

Lemma buildHeader_Ok arrayBuffer filename mimeType :
  exists header,
    Legacy.buildHeader arrayBuffer filename mimeType = Ok header
    /\ byteLength header = Legacy.HEADER_SIZE.
Proof.
  unfold Legacy.buildHeader.
  set (filenameBytes := TextEncoder_encode filename).
  set (mimeBytes := TextEncoder_encode mimeType).
  pose proof (byteLength_zeros Legacy.HEADER_SIZE ltac:(done)) as H0.
  pose proof (byteLength_nonneg filenameBytes) as Hn.
  pose proof (byteLength_nonneg mimeBytes) as Hm.
  unfold Legacy.HEADER_SIZE in *.
  destruct (setUint16_Ok (zeros 32) 0 (byteLength filenameBytes))
    as (h1 & -> & H1); [lia..|]; cbn [bind].
  destruct (typed_set_Ok h1 (prefix filenameBytes 20) 2)
    as (h2 & -> & H2); [lia| rewrite byteLength_prefix; lia |]; cbn [bind].
  destruct (setUint16_Ok h2 22 (byteLength mimeBytes))
    as (h3 & -> & H3); [lia..|]; cbn [bind].
  destruct (typed_set_Ok h3 (prefix mimeBytes 8) 24)
    as (h4 & -> & H4); [lia| rewrite byteLength_prefix; lia |]; cbn [bind].
  destruct (setUint32_Ok h4 28 (byteLength arrayBuffer))
    as (h5 & -> & H5); [lia..|].
  exists h5. split; [done|lia].
Qed.

Lemma typed_set_app (before mid after source : list Z) :
  length mid = length source ->
  typed_set (before ++ mid ++ after) source (byteLength before)
  = Ok (before ++ source ++ after).
Proof.
  intros Hmid. unfold typed_set.
  pose proof (byteLength_nonneg before).
  rewrite !byteLength_app.
  destruct (byteLength before <? 0) eqn:E0; [lia|].
  destruct (_ <? byteLength before + byteLength source) eqn:E1.
  { exfalso. unfold byteLength in *. apply Z.ltb_lt in E1. lia. }
  cbn [orb]. unfold byteLength. rewrite Nat2Z.id.
  rewrite take_app_length. rewrite <- drop_drop.
  rewrite drop_app_length. rewrite <- Hmid. by rewrite drop_app_length.
Qed.

Lemma combine_Ok header arrayBuffer :
  byteLength header = Legacy.HEADER_SIZE ->
  Legacy.combine header arrayBuffer = Ok (header ++ arrayBuffer).
Proof.
  intros Hlen. unfold Legacy.combine.
  pose proof (byteLength_nonneg arrayBuffer) as Hab.
  assert (Hh : length header = 32%nat)
    by (unfold byteLength, Legacy.HEADER_SIZE in Hlen; lia).
  assert (Hz : zeros (Legacy.HEADER_SIZE + byteLength arrayBuffer)
               = replicate 32 0 ++ replicate (length arrayBuffer) 0).
  { unfold zeros, Legacy.HEADER_SIZE, byteLength.
    replace (Z.to_nat (32 + Z.of_nat (length arrayBuffer)))
      with (32 + length arrayBuffer)%nat by lia.
    by rewrite replicate_add. }
  rewrite Hz.
  pose proof (typed_set_app [] (replicate 32 0)
                (replicate (length arrayBuffer) 0) header) as H1.
  change (byteLength []) with 0 in H1. cbn [app] in H1.
  rewrite H1 by (by rewrite length_replicate). cbn [bind].
  pose proof (typed_set_app header (replicate (length arrayBuffer) 0)
                [] arrayBuffer) as H2.
  rewrite !app_nil_r, Hlen in H2.
  apply H2. by rewrite length_replicate.
Qed.

(** *** The pixel loop of the multi-file writer *)

Lemma Qmin_cases x y :
  ((x <= y)%Q /\ Qmin x y = x) \/ ((y < x)%Q /\ Qmin x y = y).
Proof.
  unfold Qmin, GenericMinMax.gmin.
  destruct (x ?= y)%Q eqn:E.
  - left. split; [|done]. apply Qeq_alt in E. rewrite E. apply Qle_refl.
  - left. split; [|done]. apply Qlt_alt in E. by apply Qlt_le_weak.
  - right. split; [|done]. by apply Qgt_alt in E.
Qed.

Lemma Qdiv_le_mono x y d : (0 < d)%Q -> (x <= y)%Q -> (x / d <= y / d)%Q.
Proof.
  intros Hd Hxy. unfold Qdiv. apply Qmult_le_compat_r; [done|].
  apply Qlt_le_weak. by apply Qinv_lt_0_compat.
Qed.

Lemma Qdiv_self d : (0 < d)%Q -> (d / d == 1)%Q.
Proof.
  intros Hd. unfold Qdiv. apply Qmult_inv_r.
  intros H0. rewrite H0 in Hd. by apply Qlt_irrefl in Hd.
Qed.

Lemma sextets_pos ab : 0 < byteLength ab -> (0 < Canvas.sextets ab)%Q.
Proof.
  intros Hn. unfold Canvas.sextets, Qdiv, Qlt, Qmult, Qinv, inject_Z.
  simpl. lia.
Qed.

Lemma sextets_upper ab : (Canvas.sextets ab <= inject_Z (byteLength ab * 2))%Q.
Proof.
  pose proof (byteLength_nonneg ab).
  unfold Canvas.sextets, Qdiv, Qle, Qmult, Qinv, inject_Z. simpl. lia.
Qed.

Lemma Canvas_processChunk_progress ab frames_left :
  (0 < Canvas.sextets ab)%Q ->
  forall start img progress,
    (inject_Z start < Canvas.sextets ab)%Q ->
    (Canvas.sextets ab <= inject_Z (start + Z.of_nat frames_left))%Q ->
    nondecreasing progress ->
    Forall (fun x => (x <= inject_Z start / Canvas.sextets ab)%Q) progress ->
    exists img' progress',
      Canvas.processChunk frames_left ab start img progress
      = Some (img', progress')
      /\ progress_ok progress'.
Proof.
  intros Hpos.
  induction frames_left as [|frames_left IH];
    intros start img progress Hstart Hframes Hnd Hall.
  { exfalso. rewrite Z.add_0_r in Hframes.
    by apply (Qlt_not_le _ _ Hstart). }
  cbn [Canvas.processChunk].
  set (L := Canvas.sextets ab) in *.
  assert (Hchunk : (inject_Z start <= inject_Z (start + Canvas.CHUNK_SIZE))%Q).
  { rewrite <- Zle_Qle. unfold Canvas.CHUNK_SIZE. lia. }
  assert (Hsnoc : forall stop, (inject_Z start <= stop)%Q ->
            nondecreasing (progress ++ [(stop / L)%Q])
            /\ Forall (fun x => (x <= stop / L)%Q)
                 (progress ++ [(stop / L)%Q])).
  { intros stop Hstop.
    assert (Hle : (inject_Z start / L <= stop / L)%Q)
      by (by apply Qdiv_le_mono).
    split.
    - apply nondecreasing_snoc; [done|].
      eapply Forall_impl; [exact Hall|]. intros x Hx. simpl in *.
      by apply Qle_trans with (inject_Z start / L)%Q.
    - by apply Forall_le_snoc with (inject_Z start / L)%Q. }
  destruct (Qmin_cases (inject_Z (start + Canvas.CHUNK_SIZE)) L)
    as [[Hle ->] | [Hlt ->]].
  - destruct (Hsnoc _ Hchunk) as [Hnd' Hall'].
    destruct (Qle_bool L (inject_Z (start + Canvas.CHUNK_SIZE))) eqn:E;
      cbn [negb].
    + eexists _, _. split; [reflexivity|]. split; [done|].
      apply ends_at_one_snoc. apply Qle_bool_iff in E.
      rewrite (Qle_antisym _ _ Hle E). by apply Qdiv_self.
    + rewrite Qfloor_Z. apply IH; try done.
      * apply Qnot_le_lt. intros Hc. apply Qle_bool_iff in Hc. congruence.
      * eapply Qle_trans; [exact Hframes|]. rewrite <- Zle_Qle.
        unfold Canvas.CHUNK_SIZE. lia.
  - destruct (Hsnoc L (Qlt_le_weak _ _ Hstart)) as [Hnd' Hall'].
    assert (E : Qle_bool L L = true) by (apply Qle_bool_iff, Qle_refl).
    rewrite E. cbn [negb].
    eexists _, _. split; [reflexivity|]. split; [done|].
    apply ends_at_one_snoc. by apply Qdiv_self.
Qed.

End Progress.

(** The fractions of the header loop are exactly
    [(i + 1) / (fileCount + 1)] for [i] from the index of the first
    round, one per file added. *)
Lemma readHeaders_exact_fractions ab fileCount remaining :
  forall i offset files progress files' progress',
    Canvas.readHeaders ab fileCount remaining i offset files progress
    = Ok (files', progress') ->
    exists added,
      files' = files ++ added
      /\ progress'
         = progress
           ++ ((fun k => fraction (i + k + 1) (fileCount + 1))
               <$> seqZ 0 (Z.of_nat (length added))).
Proof.
  induction remaining as [|remaining IH];
    intros i offset files progress files' progress';
    cbn [Canvas.readHeaders].
  - intros [= <- <-]. exists []. by rewrite !app_nil_r.
  - destruct (byteLength ab <? offset + Canvas.FILE_HEADER_SIZE).
    { intros [= <- <-]. exists []. by rewrite !app_nil_r. }
    destruct (Canvas.readFileHeader ab fileCount offset)
      as [[[[name type] dataStart] dataEnd]|] eqn:Hread; [|done].
    cbn [bind].
    destruct (byteLength ab <? dataEnd) eqn:Eout.
    + apply Z.ltb_lt in Eout.
      rewrite (readHeaders_continue _ _ _ _ _ _ _ Hread Eout).
      intros [= <- <-]. exists []. by rewrite !app_nil_r.
    + intros Hrest.
      destruct (IH _ _ _ _ _ _ Hrest) as (added & -> & ->).
      exists (Canvas.mkFile name (Some type) (slice ab dataStart dataEnd)
              :: added).
      split; [by rewrite <- app_assoc|].
      rewrite <- app_assoc. f_equal. cbn [length app].
      rewrite Nat2Z.inj_succ.
      rewrite (seqZ_cons 0 (Z.succ (Z.of_nat (length added)))) by lia.
      cbn [fmap list_fmap]. rewrite Z.add_0_r. f_equal.
      replace (Z.pred (Z.succ (Z.of_nat (length added))))
        with (Z.of_nat (length added)) by lia.
      rewrite <- (fmap_add_seqZ 1 0). rewrite <- list_fmap_compose.
      apply list_fmap_ext. intros _ k _. cbn. do 2 f_equal. lia.
Qed.

Lemma parse_exact_fractions ab pre files progress :
  Canvas.parseContainer ab pre = Ok (files, progress) ->
  exists fileCount,
    getUint8 ab 5 = Ok fileCount
    /\ progress
       = pre ++ ((fun i => fraction (i + 1) (fileCount + 1))
                 <$> seqZ 0 (Z.of_nat (length files))).
Proof.
  unfold Canvas.parseContainer.
  destruct (Canvas.expect_byte ab 0 70 _) as [[]|]; [|done]. cbn [bind].
  destruct (getUint8 ab 4) as [version|]; [|done]. cbn [bind].
  destruct (negb (version =? 1)); [done|].
  destruct (getUint8 ab 5) as [fileCount|]; [|done]. cbn [bind].
  destruct (fileCount =? 0); [done|].
  destruct (Canvas.readHeaders ab fileCount _ _ _ _ _)
    as [[files' progress']|] eqn:Hloop; [|done].
  cbn [bind fst].
  destruct (length files' =? 0)%nat; [done|].
  intros [= <- <-]. exists fileCount. split; [done|].
  destruct (readHeaders_exact_fractions _ _ _ _ _ _ _ _ _ Hloop)
    as (added & -> & ->).
  reflexivity.
Qed.

(** C7 (as amended).  In a single-file write ([encodeFileToCanvas]) and
    in the pixel-write phase of the multi-file writer
    ([encodeBufferToCanvas] on a non-empty buffer) the fractions reported
    never go down and the last one is exactly 1.  In a successful
    [extractFilesFromCanvas] the fractions reported after the raw read
    are exactly [(i + 1) / (fileCount + 1)] for [i = 0, 1, ...], one per
    file kept, where [fileCount] is the count the header declares: there
    is at least one, they go strictly up, and each lies strictly between
    0 and 1, so that the last fraction reported is below 1. *)
Theorem progress_of_each_phase :
  (forall arrayBuffer filename mimeType,
     exists canvas progress,
       Legacy.encodeFileToCanvas arrayBuffer filename mimeType
       = Resolved (canvas, progress)
       /\ progress_ok progress)
  /\ (forall buffer,
        0 < byteLength buffer ->
        exists canvas progress,
          Canvas.encodeBufferToCanvas buffer [] = Resolved (canvas, progress)
          /\ progress_ok progress)
  /\ (forall extractDataFromCanvas canvas ab pre files progress,
        extractDataFromCanvas canvas = Resolved (ab, pre) ->
        Canvas.extractFilesFromCanvas extractDataFromCanvas canvas
        = Resolved (files, progress) ->
        exists fileCount added,
          getUint8 ab 5 = Ok fileCount
          /\ added = (fun i => fraction (i + 1) (fileCount + 1))
                     <$> seqZ 0 (Z.of_nat (length files))
          /\ length added = length files
          /\ progress = pre ++ added /\ added <> [] /\ increasing added
          /\ Forall (fun q => (0 < q)%Q /\ (q < 1)%Q) added
          /\ last progress
             = Some (fraction (Z.of_nat (length files)) (fileCount + 1))).
Proof.
  split; [|split].
  - intros arrayBuffer filename mimeType. unfold Legacy.encodeFileToCanvas.
    destruct (buildHeader_Ok arrayBuffer filename mimeType)
      as (header & -> & Hlen).
    cbn [bind]. rewrite combine_Ok by done.
    pose proof (byteLength_nonneg arrayBuffer) as Hab.
    assert (Hc : byteLength (header ++ arrayBuffer)
                 = Legacy.HEADER_SIZE + byteLength arrayBuffer)
      by (by rewrite byteLength_app, Hlen).
    unfold Legacy.HEADER_SIZE in Hc.
    match goal with
    | |- context [Legacy.processChunk ?n ?c 0 ?img []] =>
        destruct (Legacy_processChunk_progress c n 0 img [])
          as (img' & progress' & -> & Hok)
    end; [lia | lia | done | constructor |].
    eexists _, _. split; [reflexivity|done].
  - intros buffer Hn. unfold Canvas.encodeBufferToCanvas.
    match goal with
    | |- context [Canvas.processChunk ?n buffer 0 ?img []] =>
        destruct (Canvas_processChunk_progress buffer n (sextets_pos _ Hn)
                    0 img [])
          as (img' & progress' & -> & Hok)
    end.
    + by apply sextets_pos.
    + eapply Qle_trans; [apply sextets_upper|]. rewrite <- Zle_Qle. lia.
    + done.
    + constructor.
    + eexists _, _. split; [reflexivity|done].
  - intros edc canvas ab pre files progress Hread Hextract.
    rewrite (extract_settles _ _ _ _ Hread) in Hextract.
    destruct (Canvas.parseContainer ab pre) as [[files' progress']|] eqn:Hp;
      [|done].
    injection Hextract as <- <-.
    destruct (parse_exact_fractions _ _ _ _ Hp) as (fileCount & Hc & Hexact).
    destruct (parse_fractions _ _ _ _ Hp)
      as (added & Hadded & Hne & Hinc & Hall).
    rewrite Hadded in Hexact. apply app_inv_head in Hexact. subst added.
    eexists fileCount, _. split; [exact Hc|]. split; [reflexivity|].
    assert (Hlen : length ((fun i => fraction (i + 1) (fileCount + 1))
                           <$> seqZ 0 (Z.of_nat (length files')))
                   = length files')
      by (rewrite length_fmap, length_seqZ; lia).
    split; [exact Hlen|]. split; [exact Hadded|].
    split; [exact Hne|]. split; [exact Hinc|]. split; [exact Hall|].
    rewrite Hadded.
    destruct (length files') as [|m] eqn:Hm.
    { exfalso. apply Hne. done. }
    rewrite Nat2Z.inj_succ.
    replace (Z.succ (Z.of_nat m)) with (Z.of_nat m + 1) by lia.
    rewrite seqZ_app by lia. rewrite fmap_app, app_assoc.
    rewrite (seqZ_cons (0 + Z.of_nat m) 1) by lia.
    rewrite (seqZ_nil _ (Z.pred 1)) by lia.
    cbn [fmap list_fmap]. rewrite last_snoc.
    do 2 f_equal.
Qed.

Lemma progress_of_each_phase_witness :
  (exists canvas progress,
     Canvas.encodeBufferToCanvas (zeros 400000) []
     = Resolved (canvas, progress)
     /\ progress_ok progress)
  /\ (exists fileCount added,
        getUint8 two_entries 5 = Ok fileCount
        /\ added = (fun i => fraction (i + 1) (fileCount + 1))
                   <$> seqZ 0 (Z.of_nat 2)
        /\ length added = 2%nat
        /\ [1%Q; fraction 1 3; fraction 2 3] = [1%Q] ++ added
        /\ added <> [] /\ increasing added
        /\ Forall (fun q => (0 < q)%Q /\ (q < 1)%Q) added
        /\ last [1%Q; fraction 1 3; fraction 2 3]
           = Some (fraction (Z.of_nat 2) (fileCount + 1))).
Proof.
  destruct progress_of_each_phase as (_ & Hwrite & Hextract). split.
  - apply Hwrite. rewrite byteLength_zeros; lia.
  - apply (Hextract (Samples.reads two_entries) Samples.blank
             two_entries [1%Q]
             [Canvas.mkFile "a.txt" (Some "text/plain"%string) [0; 0; 0];
              Canvas.mkFile "" (Some "text/plain"%string) [0; 0; 0]]
             [1%Q; fraction 1 3; fraction 2 3]).
    + reflexivity.
    + vm_compute. reflexivity.
Defined.

(** C7, the claim as stated fails: extracting a container of one file
    reports 1/2 last, after the raw read reported 1. *)
Lemma extract_progress_ends_at_a_half :
  exists files progress,
    Canvas.extractFilesFromCanvas (Samples.reads Samples.one_file)
      Samples.blank
    = Resolved (files, progress)
    /\ last progress = Some (1 # 2)%Q
    /\ ~ progress_ok progress.
Proof.
  eexists _, _. split; [vm_compute; reflexivity|]. split; [reflexivity|].
  intros [[Hdown _] _]. unfold Qle in Hdown. simpl in Hdown. lia.
Qed.

(** ** The pixels of the legacy writer *)

Section DirectMapping.

Lemma at_index_store a i v j :
  at_index (store a i v) j
  = if decide (i = j /\ 0 <= j < byteLength a) then Some v else at_index a j.
Proof.
  case_decide as H.
  - destruct H as [-> Hj]. by apply at_index_store_eq.
  - destruct (decide (i = j)) as [->|Hne].
    + unfold at_index, store, byteLength in *.
      destruct (j <? 0) eqn:E; [done|].
      rewrite list_insert_ge; [done|]. apply Z.ltb_ge in E. lia.
    + by apply at_index_store_ne.
Qed.

Lemma Q_index_integer q z : (q == inject_Z z)%Q -> Q_index q = Some z.
Proof.
  intros H. unfold Q_index. rewrite (Qred_complete _ _ H), inject_Z_Qred.
  reflexivity.
Qed.

Lemma pixelIndex_integer k c :
  (inject_Z (3 * k) / 3 * 4 + inject_Z c == inject_Z (4 * k + c))%Q.
Proof.
  unfold Qeq, Qdiv, Qmult, Qplus, Qinv, inject_Z. simpl. lia.
Qed.

Lemma store_at_pixel img k c v :
  store_at img (inject_Z (3 * k) / 3 * 4 + inject_Z c)%Q v
  = store img (4 * k + c) v.
Proof.
  unfold store_at. by rewrite (Q_index_integer _ _ (pixelIndex_integer k c)).
Qed.

Lemma store_at_pixel_0 img k v :
  store_at img (inject_Z (3 * k) / 3 * 4)%Q v = store img (4 * k) v.
Proof.
  unfold store_at. rewrite (Q_index_integer _ (4 * k)); [done|].
  unfold Qeq, Qdiv, Qmult, Qinv, inject_Z. simpl. lia.
Qed.

(** For [i] a multiple of 3 the body writes the four channels of pixel
    [i / 3]. *)
Lemma writePixel_stores combined k img :
  Legacy.writePixel combined (3 * k) img
  = store (store (store (store img (4 * k)
                           (direct_channel combined (4 * k)))
                        (4 * k + 1) (direct_channel combined (4 * k + 1)))
                 (4 * k + 2) (direct_channel combined (4 * k + 2)))
          (4 * k + 3) (direct_channel combined (4 * k + 3)).
Proof.
  unfold Legacy.writePixel.
  change 1%Q with (inject_Z 1). change 2%Q with (inject_Z 2).
  change 3%Q with (inject_Z 3).
  rewrite store_at_pixel_0, !store_at_pixel.
  unfold direct_channel.
  replace ((4 * k) / 4) with k by div_lia.
  replace ((4 * k + 1) / 4) with k by div_lia.
  replace ((4 * k + 2) / 4) with k by div_lia.
  replace ((4 * k + 3) / 4) with k by div_lia.
  replace ((4 * k) mod 4) with 0 by div_lia.
  replace ((4 * k + 1) mod 4) with 1 by div_lia.
  replace ((4 * k + 2) mod 4) with 2 by div_lia.
  replace ((4 * k + 3) mod 4) with 3 by div_lia.
  cbn [Z.eqb Pos.eqb]. rewrite Z.add_0_r.
  by destruct (3 * k <? byteLength combined),
    (3 * k + 1 <? byteLength combined), (3 * k + 2 <? byteLength combined).
Qed.

Lemma writePixel_length combined k img :
  byteLength (Legacy.writePixel combined (3 * k) img) = byteLength img.
Proof. by rewrite writePixel_stores, !byteLength_store. Qed.

Lemma writePixel_lookup combined k img j :
  at_index (Legacy.writePixel combined (3 * k) img) j
  = if decide (4 * k <= j < 4 * k + 4 /\ 0 <= j < byteLength img)
    then Some (direct_channel combined j)
    else at_index img j.
Proof.
  rewrite writePixel_stores, !at_index_store, !byteLength_store.
  repeat case_decide; try lia; try done;
    repeat match goal with
           | H : _ /\ _ |- _ => destruct H
           end; by subst.
Qed.

(** The pixel loop from a multiple of 3: pixels [k] to
    [ceil(stop / 3) - 1] are written, the others are left as they
    were. *)
Lemma pixel_loop_lookup combined stop rounds :
  forall k img j,
    0 <= k -> stop - 3 * k <= 3 * Z.of_nat rounds ->
    at_index (for_loop rounds (3 * k) 3 (fun i _ => i <? stop)
                (Legacy.writePixel combined) img) j
    = if decide (4 * k <= j < 4 * ((stop + 2) / 3)
                 /\ 0 <= j < byteLength img)
      then Some (direct_channel combined j)
      else at_index img j.
Proof.
  induction rounds as [|rounds IH]; intros k img j Hk Hrounds.
  - simpl. case_decide as H; [|done]. exfalso.
    div_lia.
  - cbn [for_loop]. destruct (3 * k <? stop) eqn:E.
    + apply Z.ltb_lt in E.
      replace (3 * k + 3) with (3 * (k + 1)) by lia.
      rewrite IH by lia.
      rewrite writePixel_length, writePixel_lookup.
      repeat case_decide; try done; exfalso;
        div_lia.
    + apply Z.ltb_ge in E. case_decide as H; [|done]. exfalso.
      div_lia.
Qed.

(** Off the multiples of 3 the index [(i / 3) * 4] is not an integer and
    the four stores are ignored: a chunk that starts at such an index
    leaves the image as it is. *)
Lemma Q_index_fraction i c :
  i mod 3 <> 0 -> Q_index (inject_Z i / 3 * 4 + inject_Z c)%Q = None.
Proof.
  intros Hi. unfold Q_index.
  destruct (Qden (Qred _) =? 1)%positive eqn:E; [|done]. exfalso.
  apply Pos.eqb_eq in E.
  pose proof (Qred_correct (inject_Z i / 3 * 4 + inject_Z c)) as Hq.
  destruct (Qred _) as [num den]. simpl in E. subst den.
  unfold Qeq, Qdiv, Qmult, Qplus, Qinv, inject_Z in Hq. simpl in Hq.
  div_lia.
Qed.

Lemma Q_index_fraction_0 i :
  i mod 3 <> 0 -> Q_index (inject_Z i / 3 * 4)%Q = None.
Proof.
  intros Hi. rewrite <- (Q_index_fraction i 0 Hi).
  unfold Q_index. rewrite (Qred_complete (inject_Z i / 3 * 4)%Q
                             (inject_Z i / 3 * 4 + inject_Z 0)%Q); [done|].
  unfold Qeq, Qdiv, Qmult, Qplus, Qinv, inject_Z. simpl. lia.
Qed.

Lemma writePixel_off_grid combined i img :
  i mod 3 <> 0 -> Legacy.writePixel combined i img = img.
Proof.
  intros Hi. unfold Legacy.writePixel, store_at.
  rewrite Q_index_fraction_0 by done.
  change 1%Q with (inject_Z 1). change 2%Q with (inject_Z 2).
  change (inject_Z i / 3 * 4 + 3)%Q
    with (inject_Z i / 3 * 4 + inject_Z 3)%Q.
  by rewrite !Q_index_fraction by done.
Qed.

Lemma pixel_loop_off_grid combined stop rounds :
  forall i img,
    i mod 3 <> 0 ->
    for_loop rounds i 3 (fun i _ => i <? stop) (Legacy.writePixel combined) img
    = img.
Proof.
  induction rounds as [|rounds IH]; intros i img Hi; [done|].
  cbn [for_loop]. destruct (i <? stop); [|done].
  rewrite writePixel_off_grid by done. apply IH.
  div_lia.
Qed.

(** [CHUNK_SIZE] is not a multiple of 3: the chunk that starts at
    [CHUNK_SIZE] writes no pixel. *)
Lemma second_chunk_writes_nothing combined stop img :
  for_range Legacy.CHUNK_SIZE stop 3 (Legacy.writePixel combined) img = img.
Proof.
  unfold for_range. apply pixel_loop_off_grid. vm_compute. discriminate.
Qed.

End DirectMapping.

(** ** Bytes *)

Section Bytes.

Lemma store_bytes a i v :
  Forall is_byte a -> is_byte v -> Forall is_byte (store a i v).
Proof.
  intros Ha Hv. unfold store. destruct (i <? 0); [done|].
  by apply Forall_insert.
Qed.

Lemma mod_256_byte v : is_byte (v mod 256).
Proof. unfold is_byte. apply Z.mod_pos_bound. lia. Qed.

Lemma zeros_bytes n : Forall is_byte (zeros n).
Proof. apply Forall_replicate. unfold is_byte. lia. Qed.

Lemma setUint16_bytes a offset v a' :
  setUint16 a offset v = Ok a' -> Forall is_byte a -> Forall is_byte a'.
Proof.
  unfold setUint16. destruct (in_view a offset 2); [|done].
  intros [= <-] Ha. auto using store_bytes, mod_256_byte.
Qed.

Lemma setUint32_bytes a offset v a' :
  setUint32 a offset v = Ok a' -> Forall is_byte a -> Forall is_byte a'.
Proof.
  unfold setUint32. destruct (in_view a offset 4); [|done].
  intros [= <-] Ha. auto 6 using store_bytes, mod_256_byte.
Qed.

Lemma typed_set_bytes a source offset a' :
  typed_set a source offset = Ok a' ->
  Forall is_byte a -> Forall is_byte source -> Forall is_byte a'.
Proof.
  unfold typed_set. destruct (_ || _); [done|].
  intros [= <-] Ha Hs.
  repeat apply Forall_app_2; auto using Forall_take, Forall_drop.
Qed.

Lemma TextEncoder_encode_bytes s : Forall is_byte (TextEncoder_encode s).
Proof.
  unfold TextEncoder_encode. apply Forall_map, Forall_forall.
  intros c _. unfold is_byte. simpl.
  pose proof (N_ascii_bounded c). lia.
Qed.

Lemma buildHeader_bytes arrayBuffer filename mimeType header :
  Legacy.buildHeader arrayBuffer filename mimeType = Ok header ->
  Forall is_byte header.
Proof.
  unfold Legacy.buildHeader.
  destruct (setUint16 (zeros Legacy.HEADER_SIZE) 0 _) as [h1|] eqn:E1;
    [|done]; cbn [bind].
  destruct (typed_set h1 _ 2) as [h2|] eqn:E2; [|done]; cbn [bind].
  destruct (setUint16 h2 22 _) as [h3|] eqn:E3; [|done]; cbn [bind].
  destruct (typed_set h3 _ 24) as [h4|] eqn:E4; [|done]; cbn [bind].
  intros E5.
  pose proof (setUint16_bytes _ _ _ _ E1 (zeros_bytes _)) as B1.
  pose proof (typed_set_bytes _ _ _ _ E2 B1
                (Forall_take _ _ _ (TextEncoder_encode_bytes _))) as B2.
  pose proof (setUint16_bytes _ _ _ _ E3 B2) as B3.
  pose proof (typed_set_bytes _ _ _ _ E4 B3
                (Forall_take _ _ _ (TextEncoder_encode_bytes _))) as B4.
  exact (setUint32_bytes _ _ _ _ E5 B4).
Qed.

Lemma toUint8Clamp_byte b : is_byte b -> toUint8Clamp b = b.
Proof. unfold is_byte, toUint8Clamp. lia. Qed.

Lemma at_index_byte a i b :
  Forall is_byte a -> at_index a i = Some b -> is_byte b.
Proof.
  intros Ha. unfold at_index. destruct (i <? 0); [done|].
  intros Hb. by eapply Forall_lookup_1 in Ha.
Qed.

End Bytes.

(** C3 (as amended).  The single-file writer [encodeFileToCanvas], for
    every file whose header and data fit one chunk, stores byte [i] of
    the combined buffer (the 32-byte header followed by the data)
    unmodified in channel [i mod 3] of pixel [i / 3], and sets the alpha
    channel of that pixel to 255. *)
Theorem single_file_writer_maps_bytes_directly (arrayBuffer : list Z)
    (filename mimeType : string) :
  Forall is_byte arrayBuffer ->
  Legacy.HEADER_SIZE + byteLength arrayBuffer <= Legacy.CHUNK_SIZE ->
  exists header canvas progress,
    Legacy.buildHeader arrayBuffer filename mimeType = Ok header
    /\ Legacy.encodeFileToCanvas arrayBuffer filename mimeType
       = Resolved (canvas, progress)
    /\ forall i b,
         at_index (header ++ arrayBuffer) i = Some b ->
         at_index (Legacy.pixels canvas) (4 * (i / 3) + i mod 3) = Some b
         /\ at_index (Legacy.pixels canvas) (4 * (i / 3) + 3) = Some 255.
Proof.
  intros Hbytes Hfit.
  destruct (buildHeader_Ok arrayBuffer filename mimeType)
    as (header & Hheader & Hlen).
  pose proof (buildHeader_bytes _ _ _ _ Hheader) as Hhb.
  set (combined := header ++ arrayBuffer).
  assert (Hcb : Forall is_byte combined) by (by apply Forall_app_2).
  pose proof (byteLength_nonneg arrayBuffer) as Hab.
  assert (Hc : byteLength combined
               = Legacy.HEADER_SIZE + byteLength arrayBuffer)
    by (unfold combined; by rewrite byteLength_app, Hlen).
  destruct (Legacy_calculateCanvasSize_holds (byteLength arrayBuffer) Hab)
    as (Hcap & _ & Hw & Hh).
  set (dims := Legacy.calculateCanvasSize (byteLength arrayBuffer)) in *.
  set (img0 := zeros (Legacy.width dims * Legacy.height dims * 4)).
  assert (Himg : byteLength img0 = Legacy.width dims * Legacy.height dims * 4)
    by (apply byteLength_zeros; nia).
  exists header,
    (Legacy.mkCanvas (Legacy.width dims) (Legacy.height dims)
       (for_range 0 (byteLength combined) 3
          (Legacy.writePixel combined) img0)),
    [fraction (byteLength combined) (byteLength combined)].
  split; [done|]. split.
  { unfold Legacy.encodeFileToCanvas. rewrite Hheader. cbn [bind].
    rewrite combine_Ok by done. fold combined. fold dims. fold img0.
    cbn [Legacy.processChunk].
    replace (Z.min (0 + Legacy.CHUNK_SIZE) (byteLength combined))
      with (byteLength combined) by lia.
    by rewrite Z.ltb_irrefl. }
  intros i b Hi. fold combined in Hi. cbn [Legacy.pixels].
  unfold for_range.
  pose proof (at_index_Some_lt _ _ _ Hi) as Hrange.
  pose proof (at_index_byte _ _ _ Hcb Hi) as Hb.
  pose proof (fun j => pixel_loop_lookup combined (byteLength combined)
                         (Z.to_nat (byteLength combined - 0)) 0 img0 j)
    as Hloop.
  change (3 * 0) with 0 in Hloop. rewrite !Hloop by lia.
  set (wh := Legacy.width dims * Legacy.height dims) in *.
  unfold Legacy.HEADER_SIZE in *.
  split.
  - case_decide as Hin.
    + f_equal. unfold direct_channel.
      replace ((4 * (i / 3) + i mod 3) / 4) with (i / 3)
        by div_lia.
      replace ((4 * (i / 3) + i mod 3) mod 4) with (i mod 3)
        by div_lia.
      destruct (i mod 3 =? 3) eqn:E3;
        [exfalso; apply Z.eqb_eq in E3; div_lia|].
      replace (3 * (i / 3) + i mod 3) with i
        by div_lia.
      destruct (i <? byteLength combined) eqn:E;
        [|apply Z.ltb_ge in E; lia].
      rewrite (byte_at_Some _ _ _ Hi). by apply toUint8Clamp_byte.
    + exfalso. apply Hin. rewrite Himg. div_lia.
  - case_decide as Hin.
    + f_equal. unfold direct_channel.
      replace ((4 * (i / 3) + 3) mod 4) with 3
        by div_lia.
      reflexivity.
    + exfalso. apply Hin. rewrite Himg. div_lia.
Qed.

Lemma single_file_writer_maps_bytes_directly_witness :
  exists header canvas progress,
    Legacy.buildHeader [1; 2; 3] "a.txt" "text/plain" = Ok header
    /\ Legacy.encodeFileToCanvas [1; 2; 3] "a.txt" "text/plain"
       = Resolved (canvas, progress)
    /\ forall i b,
         at_index (header ++ [1; 2; 3]) i = Some b ->
         at_index (Legacy.pixels canvas) (4 * (i / 3) + i mod 3) = Some b
         /\ at_index (Legacy.pixels canvas) (4 * (i / 3) + 3) = Some 255.
Proof.
  apply (single_file_writer_maps_bytes_directly [1; 2; 3] "a.txt" "text/plain").
  - repeat constructor; unfold is_byte; lia.
  - vm_compute. discriminate.
Defined.

(** C3, the claim as stated fails on the multi-file path: for the empty
    list of files [encodeFilesToCanvas] writes the 64-byte main header,
    whose byte 0 is 0x46, and the red channel of pixel 0 of the canvas
    holds 51. *)
Lemma multi_file_writer_does_not_map_bytes_directly :
  exists buffer canvas progress,
    Canvas.buildContainer [] = Ok (buffer, [])
    /\ Canvas.encodeFilesToCanvas [] = Resolved (canvas, progress)
    /\ at_index buffer 0 = Some 0x46
    /\ at_index (Canvas.pixels canvas) (4 * (0 / 3) + 0 mod 3) = Some 51
    /\ at_index (Canvas.pixels canvas) (4 * (0 / 3) + 0 mod 3)
       <> at_index buffer 0.
Proof.
  eexists _, _, _. split; [vm_compute; reflexivity|].
  split; [vm_compute; reflexivity|]. split; [reflexivity|].
  split; [reflexivity|]. discriminate.
Qed.

(** ** The single-file writer, chunk by chunk *)

Section LegacyChunks.

Lemma Legacy_chunk_lookup combined start stop img j :
  0 <= start ->
  at_index (for_range start stop 3 (Legacy.writePixel combined) img) j
  = if decide (start mod 3 = 0
               /\ 4 * (start / 3) <= j < 4 * ((stop + 2) / 3)
               /\ 0 <= j < byteLength img)
    then Some (direct_channel combined j)
    else at_index img j.
Proof.
  intros Hstart. unfold for_range.
  destruct (decide (start mod 3 = 0)) as [H0|H0].
  - replace start with (3 * (start / 3)) at 1 2 by div_lia.
    rewrite pixel_loop_lookup by div_lia.
    repeat case_decide; try done; exfalso; div_lia.
  - rewrite pixel_loop_off_grid by done.
    case_decide as H; [|done]. by destruct H.
Qed.

Lemma Legacy_processChunk_lookup combined frames :
  forall k img progress img' progress',
    0 <= k ->
    Legacy.processChunk frames combined (k * Legacy.CHUNK_SIZE) img progress
    = Some (img', progress') ->
    byteLength img' = byteLength img
    /\ forall j,
      at_index img' j
      = if decide (0 <= j < byteLength img
                   /\ k * Legacy.CHUNK_SIZE <= 3 * (j / 4)
                   /\ pixel_written (byteLength combined) (j / 4) = true)
        then Some (direct_channel combined j)
        else at_index img j.
Proof.
  induction frames as [|frames IH];
    intros k img progress img' progress' Hk; [done|].
  cbn [Legacy.processChunk].
  set (start := k * Legacy.CHUNK_SIZE).
  set (stop := Z.min (start + Legacy.CHUNK_SIZE) (byteLength combined)).
  set (img1 := for_range start stop 3 (Legacy.writePixel combined) img).
  assert (Hlen1 : byteLength img1 = byteLength img).
  { unfold img1, for_range.
    apply (for_loop_invariant (fun s => byteLength s = byteLength img));
      [done|].
    intros i s' Hs. unfold Legacy.writePixel, store_at.
    repeat match goal with
           | |- context [Q_index ?q] => destruct (Q_index q)
           end; by rewrite ?byteLength_store. }
  assert (H1 : forall j, at_index img1 j
            = if decide (start mod 3 = 0
                         /\ 4 * (start / 3) <= j < 4 * ((stop + 2) / 3)
                         /\ 0 <= j < byteLength img)
              then Some (direct_channel combined j) else at_index img j).
  { intros j. apply Legacy_chunk_lookup. unfold start, Legacy.CHUNK_SIZE. lia. }
  destruct (stop <? byteLength combined) eqn:E.
  - apply Z.ltb_lt in E.
    assert (Hstop : stop = (k + 1) * Legacy.CHUNK_SIZE)
      by (unfold stop, start in *; lia).
    rewrite Hstop. intros Hrest.
    destruct (IH (k + 1) _ _ _ _ ltac:(lia) Hrest) as [Hl Hj].
    split; [lia|]. intros j. rewrite Hj, Hlen1, H1.
    unfold pixel_written, start in *. rewrite Hstop.
    unfold Legacy.CHUNK_SIZE in *.
    destruct (0 <=? j / 4) eqn:B0, (3 * (j / 4) <? byteLength combined) eqn:B1,
      ((3 * (j / 4)) / (1024 * 512) mod 3 =? 0) eqn:B2; cbn [andb];
      rewrite ?Z.leb_le, ?Z.leb_gt, ?Z.ltb_lt, ?Z.ltb_ge, ?Z.eqb_eq, ?Z.eqb_neq
        in B0, B1, B2;
      repeat case_decide; try done; exfalso; div_lia.
  - apply Z.ltb_ge in E. intros [= <- <-]. split; [done|].
    intros j. rewrite H1.
    assert (Hstop : stop = byteLength combined) by (unfold stop; lia).
    rewrite Hstop.
    unfold pixel_written, start in *.
    unfold Legacy.CHUNK_SIZE in *.
    destruct (0 <=? j / 4) eqn:B0, (3 * (j / 4) <? byteLength combined) eqn:B1,
      ((3 * (j / 4)) / (1024 * 512) mod 3 =? 0) eqn:B2; cbn [andb];
      rewrite ?Z.leb_le, ?Z.leb_gt, ?Z.ltb_lt, ?Z.ltb_ge, ?Z.eqb_eq, ?Z.eqb_neq
        in B0, B1, B2;
      repeat case_decide; try done; exfalso; div_lia.
Qed.

End LegacyChunks.

(** ** The extraction loop of the single-file reader *)

Section LegacyExtraction.

Lemma extracted_copy img dataLength i c (data : list Z) (n : Z) :
  11 <= i -> 0 <= c < 3 -> 0 <= dataLength ->
  extracted img dataLength (3 * (i - 11) + c) (data, n) ->
  extracted img dataLength (3 * (i - 11) + c + 1)
    (if n <? dataLength
     then (store data n (toUint8 (byte_at img (i * 4 + c))), n + 1)
     else (data, n)).
Proof.
  intros Hi Hc HL (Hlen & Hn & Hk). cbn [fst snd] in *.
  destruct (n <? dataLength) eqn:E.
  - apply Z.ltb_lt in E. assert (n = 3 * (i - 11) + c) as -> by lia.
    repeat split; cbn [fst snd].
    + by rewrite byteLength_store.
    + lia.
    + intros k Hkr. rewrite at_index_store.
      case_decide as Hd.
      * destruct Hd as [<- _].
        destruct (_ <? _) eqn:E2; [|apply Z.ltb_ge in E2; lia].
        unfold read_channel. do 3 f_equal. div_lia.
      * rewrite (Hk k Hkr).
        destruct (k <? 3 * (i - 11) + c) eqn:E1,
          (k <? 3 * (i - 11) + c + 1) eqn:E2; try done;
          rewrite ?Z.ltb_lt, ?Z.ltb_ge in E1, E2; lia.
  - apply Z.ltb_ge in E. repeat split; cbn [fst snd]; [done|lia|done].
Qed.

Lemma extracted_readPixel img dataLength i s :
  11 <= i -> 0 <= dataLength ->
  extracted img dataLength (3 * (i - 11)) s ->
  extracted img dataLength (3 * (i + 1 - 11))
    (Legacy.readPixel img dataLength i s).
Proof.
  intros Hi HL H. unfold Legacy.readPixel.
  destruct (i * 3 - Legacy.HEADER_SIZE <? 0) eqn:E.
  { apply Z.ltb_lt in E. unfold Legacy.HEADER_SIZE in E. lia. }
  destruct s as [data n]. cbv zeta.
  replace (3 * (i - 11)) with (3 * (i - 11) + 0) in H by lia.
  apply (extracted_copy img dataLength i 0) in H; [|lia..].
  destruct (if n <? dataLength then _ else _) as [data1 n1].
  replace (3 * (i - 11) + 0 + 1) with (3 * (i - 11) + 1) in H by lia.
  apply (extracted_copy img dataLength i 1) in H; [|lia..].
  destruct (if n1 <? dataLength then _ else _) as [data2 n2].
  replace (3 * (i - 11) + 1 + 1) with (3 * (i - 11) + 2) in H by lia.
  apply (extracted_copy img dataLength i 2) in H; [|lia..].
  replace (3 * (i + 1 - 11)) with (3 * (i - 11) + 2 + 1) by lia.
  exact H.
Qed.

Lemma extracted_loop img dataLength stop rounds :
  forall i s,
    11 <= i <= stop -> 0 <= dataLength ->
    stop - i <= Z.of_nat rounds ->
    extracted img dataLength (3 * (i - 11)) s ->
    extracted img dataLength (3 * (stop - 11))
      (for_loop rounds i 1 (fun i _ => i <? stop)
         (Legacy.readPixel img dataLength) s).
Proof.
  induction rounds as [|rounds IH]; intros i s Hi HL Hrounds H.
  - simpl. replace stop with i by lia. exact H.
  - cbn [for_loop]. destruct (i <? stop) eqn:E.
    + apply Z.ltb_lt in E. apply IH; [lia|done|lia|].
      apply extracted_readPixel; [lia|done|done].
    + apply Z.ltb_ge in E. replace stop with i by lia. exact H.
Qed.

Lemma extracted_start img dataLength :
  0 <= dataLength -> extracted img dataLength 0 (zeros dataLength, 0).
Proof.
  intros HL. repeat split; cbn [fst snd].
  - by apply byteLength_zeros.
  - lia.
  - intros k Hk. destruct (k <? 0) eqn:E; [apply Z.ltb_lt in E; lia|].
    unfold at_index, zeros. destruct (k <? 0); [done|].
    apply lookup_replicate. split; [done|lia].
Qed.

Lemma decode_processChunk_extracts img dataLength totalPixelsNeeded frames :
  0 < dataLength ->
  forall startPixel s progress,
    11 <= startPixel <= totalPixelsNeeded ->
    totalPixelsNeeded - startPixel <= Z.of_nat frames - 1 ->
    extracted img dataLength (3 * (startPixel - 11)) s ->
    nondecreasing progress ->
    Forall (fun x => (x <= fraction (snd s) dataLength)%Q) progress ->
    exists data progress',
      Legacy.decode_processChunk frames img dataLength totalPixelsNeeded
        startPixel s progress
      = Some (data, progress')
      /\ extracted img dataLength (3 * (totalPixelsNeeded - 11))
           (data, Z.min dataLength (3 * (totalPixelsNeeded - 11)))
      /\ nondecreasing progress'
      /\ last progress'
         = Some (fraction (Z.min dataLength (3 * (totalPixelsNeeded - 11)))
                   dataLength).
Proof.
  intros HL.
  induction frames as [|frames IH];
    intros startPixel s progress Hstart Hframes Hs Hnd Hall; [lia|].
  cbn [Legacy.decode_processChunk].
  set (endPixel := Z.min (startPixel + ceil_div Legacy.CHUNK_SIZE 3)
                     totalPixelsNeeded).
  assert (Hchunk : ceil_div Legacy.CHUNK_SIZE 3 = 174763) by reflexivity.
  assert (Hend : startPixel <= endPixel <= totalPixelsNeeded)
    by (unfold endPixel; lia).
  set (s1 := for_range startPixel endPixel 1
               (Legacy.readPixel img dataLength) s).
  assert (H1 : extracted img dataLength (3 * (endPixel - 11)) s1).
  { apply extracted_loop; [lia|lia|lia|done]. }
  assert (Hmono : (fraction (snd s) dataLength
                   <= fraction (snd s1) dataLength)%Q).
  { apply fraction_le; [done|].
    destruct Hs as (_ & -> & _), H1 as (_ & -> & _). lia. }
  assert (Hnd1 : nondecreasing (progress ++ [fraction (snd s1) dataLength])).
  { apply nondecreasing_snoc; [done|].
    eapply Forall_impl; [exact Hall|]. intros x Hx. simpl in *.
    by apply Qle_trans with (fraction (snd s) dataLength). }
  destruct (endPixel <? totalPixelsNeeded) eqn:E.
  - apply Z.ltb_lt in E. apply IH; try done.
    + lia.
    + unfold endPixel in *. lia.
    + by apply Forall_le_snoc with (fraction (snd s) dataLength).
  - apply Z.ltb_ge in E.
    assert (endPixel = totalPixelsNeeded) as Heq by lia.
    rewrite Heq in H1.
    eexists _, _. split; [reflexivity|].
    destruct s1 as [data1 n1]. cbn [fst snd] in *.
    destruct H1 as (Hl & Hn & Hk). cbn [fst snd] in *. subst n1.
    split; [by repeat split|]. split; [done|].
    by rewrite last_snoc.
Qed.

Lemma readHeader_channels img :
  Legacy.readHeader img
  = (fun k => toUint8 (byte_at img (4 * (k / 3) + k mod 3))) <$> seqZ 0 32.
Proof. reflexivity. Qed.

Lemma getUint32_setUint32 a offset v a' :
  0 <= offset -> offset + 4 <= byteLength a ->
  setUint32 a offset v = Ok a' ->
  getUint32 a' offset = Ok (v mod 2 ^ 32).
Proof.
  intros H0 H4. unfold setUint32, getUint32.
  rewrite in_view_true by lia. intros [= <-].
  rewrite in_view_true by (rewrite ?byteLength_store; lia).
  unfold byte_at. rewrite !at_index_store, !byteLength_store.
  repeat case_decide; try lia. cbn [default].
  f_equal. rewrite !Z.shiftl_mul_pow2, !Z.shiftr_div_pow2 by lia.
  change (2 ^ 8) with 256. change (2 ^ 16) with 65536.
  change (2 ^ 24) with 16777216. change (2 ^ 32) with 4294967296.
  unfold id. clear. div_lia.
Qed.

End LegacyExtraction.

(** ** Writing and reading back with the single-file utilities *)

Section LegacyRoundTrip.

Lemma at_index_ext (a b : list Z) :
  byteLength a = byteLength b ->
  (forall k, 0 <= k < byteLength a -> at_index a k = at_index b k) ->
  a = b.
Proof.
  unfold byteLength, at_index. intros Hlen Hk. apply list_eq. intros i.
  destruct (decide (i < length a)%nat) as [Hi|Hi].
  - specialize (Hk (Z.of_nat i) ltac:(lia)).
    destruct (Z.of_nat i <? 0) eqn:E; [apply Z.ltb_lt in E; lia|].
    by rewrite Nat2Z.id in Hk.
  - rewrite !lookup_ge_None_2 by lia. done.
Qed.

Lemma at_index_fmap_seqZ (f : Z -> Z) n k :
  0 <= k < n -> at_index (f <$> seqZ 0 n) k = Some (f k).
Proof.
  intros Hk. unfold at_index.
  destruct (k <? 0) eqn:E; [apply Z.ltb_lt in E; lia|].
  rewrite list_lookup_fmap, lookup_seqZ_lt by lia. simpl.
  f_equal. f_equal. lia.
Qed.

Lemma at_index_app_l (a b : list Z) k :
  0 <= k < byteLength a -> at_index (a ++ b) k = at_index a k.
Proof.
  unfold at_index, byteLength. intros Hk.
  destruct (k <? 0); [done|]. apply lookup_app_l. lia.
Qed.

Lemma at_index_app_r (a b : list Z) k :
  byteLength a <= k -> at_index (a ++ b) k = at_index b (k - byteLength a).
Proof.
  unfold at_index, byteLength. intros Hk.
  destruct (k <? 0) eqn:E; [apply Z.ltb_lt in E; lia|].
  destruct (k - Z.of_nat (length a) <? 0) eqn:E2;
    [apply Z.ltb_lt in E2; lia|].
  rewrite lookup_app_r by lia. f_equal. lia.
Qed.

Lemma at_index_None a k :
  ~ (0 <= k < byteLength a) -> at_index a k = None.
Proof.
  unfold at_index, byteLength. intros Hk.
  destruct (k <? 0) eqn:E; [done|]. apply Z.ltb_ge in E.
  apply lookup_ge_None_2. lia.
Qed.

Lemma at_index_zeros_Some n k : 0 <= k < n -> at_index (zeros n) k = Some 0.
Proof.
  intros Hk. unfold at_index, zeros.
  destruct (k <? 0) eqn:E; [apply Z.ltb_lt in E; lia|].
  apply lookup_replicate. split; [done|lia].
Qed.

Lemma at_index_is_Some a k : 0 <= k < byteLength a -> is_Some (at_index a k).
Proof.
  unfold at_index, byteLength. intros Hk.
  destruct (k <? 0) eqn:E; [apply Z.ltb_lt in E; lia|].
  apply lookup_lt_is_Some. lia.
Qed.

Lemma toUint8_byte b : is_byte b -> toUint8 b = b.
Proof. unfold is_byte, toUint8. intros H. by apply Z.mod_small. Qed.

(** The image [encodeFileToCanvas] resolves with, for a file of any
    size. *)
Lemma encodeFileToCanvas_pixels arrayBuffer filename mimeType :
  let dims := Legacy.calculateCanvasSize (byteLength arrayBuffer) in
  let size := Legacy.width dims * Legacy.height dims * 4 in
  exists header img progress,
    Legacy.buildHeader arrayBuffer filename mimeType = Ok header
    /\ byteLength header = Legacy.HEADER_SIZE
    /\ Legacy.encodeFileToCanvas arrayBuffer filename mimeType
       = Resolved (Legacy.mkCanvas (Legacy.width dims) (Legacy.height dims)
                     img, progress)
    /\ byteLength img = size
    /\ forall j, 0 <= j < size ->
         at_index img j
         = Some (if pixel_written (Legacy.HEADER_SIZE + byteLength arrayBuffer)
                      (j / 4)
                 then direct_channel (header ++ arrayBuffer) j
                 else 0).
Proof.
  intros dims size.
  destruct (buildHeader_Ok arrayBuffer filename mimeType)
    as (header & Hheader & Hlen).
  pose proof (byteLength_nonneg arrayBuffer) as Hab.
  destruct (Legacy_calculateCanvasSize_holds (byteLength arrayBuffer) Hab)
    as (Hcap & _ & Hw & Hh). fold dims in Hcap, Hw, Hh.
  set (combined := header ++ arrayBuffer).
  assert (Hc : byteLength combined
               = Legacy.HEADER_SIZE + byteLength arrayBuffer)
    by (unfold combined; by rewrite byteLength_app, Hlen).
  set (img0 := zeros size).
  assert (Himg : byteLength img0 = size)
    by (apply byteLength_zeros; unfold size; nia).
  destruct (Legacy_processChunk_progress combined
              (S (Z.to_nat (byteLength combined))) 0 img0 [])
    as (img & progress & Hrun & _);
    [unfold Legacy.HEADER_SIZE in *; lia.. | done | constructor |].
  exists header, img, progress. split; [done|]. split; [done|].
  split.
  { unfold Legacy.encodeFileToCanvas. rewrite Hheader. cbn [bind].
    rewrite combine_Ok by done. fold combined. fold dims. fold size.
    fold img0. by rewrite Hrun. }
  destruct (Legacy_processChunk_lookup combined
              (S (Z.to_nat (byteLength combined))) 0 img0 [] img progress
              ltac:(lia) Hrun)
    as [Hlen' Hj].
  split; [lia|]. intros j Hjr. rewrite Hj, Hc, Himg.
  pose proof (at_index_zeros_Some size j Hjr) as Hz. fold img0 in Hz.
  rewrite Hz.
  case_decide as Hd.
  - destruct Hd as (_ & _ & ->). done.
  - destruct (pixel_written _ _) eqn:E; [|done].
    exfalso. apply Hd. repeat split; try lia.
    unfold pixel_written in E.
    apply andb_prop in E as [E _]. apply andb_prop in E as [E _].
    apply Z.leb_le in E. lia.
Qed.

(** The header [decodeFileFromCanvas] reads from the image is the header
    [encodeFileToCanvas] built. *)
Lemma readHeader_of_written arrayBuffer filename mimeType header canvas
    progress :
  Legacy.buildHeader arrayBuffer filename mimeType = Ok header ->
  Legacy.encodeFileToCanvas arrayBuffer filename mimeType
  = Resolved (canvas, progress) ->
  Legacy.readHeader (Legacy.pixels canvas) = header.
Proof.
  intros Hheader Hencode.
  destruct (encodeFileToCanvas_pixels arrayBuffer filename mimeType)
    as (header' & img & progress' & Hh' & Hlen & He & Himg & Hj).
  rewrite Hheader in Hh'. injection Hh' as <-.
  rewrite Hencode in He. injection He as -> ->. cbn [Legacy.pixels].
  pose proof (buildHeader_bytes _ _ _ _ Hheader) as Hbytes.
  pose proof (byteLength_nonneg arrayBuffer) as Hab.
  destruct (Legacy_calculateCanvasSize_holds (byteLength arrayBuffer) Hab)
    as (Hcap & _ & Hw & Hh).
  set (dims := Legacy.calculateCanvasSize (byteLength arrayBuffer)) in *.
  set (wh := Legacy.width dims * Legacy.height dims) in *.
  unfold Legacy.HEADER_SIZE in *.
  apply at_index_ext.
  { rewrite readHeader_length. unfold Legacy.HEADER_SIZE. lia. }
  rewrite readHeader_length. unfold Legacy.HEADER_SIZE. intros k Hk.
  rewrite readHeader_channels, at_index_fmap_seqZ by done.
  destruct (at_index_is_Some header k ltac:(lia)) as [b Hb].
  rewrite Hb. f_equal.
  pose proof (at_index_byte _ _ _ Hbytes Hb) as Hbyte.
  unfold byte_at. rewrite Hj by div_lia. cbn [default].
  assert (Hw' : pixel_written (32 + byteLength arrayBuffer)
                  ((4 * (k / 3) + k mod 3) / 4) = true).
  { unfold pixel_written, Legacy.CHUNK_SIZE.
    replace ((4 * (k / 3) + k mod 3) / 4) with (k / 3) by div_lia.
    apply andb_true_intro. split; [apply andb_true_intro; split|].
    - apply Z.leb_le. div_lia.
    - apply Z.ltb_lt. div_lia.
    - apply Z.eqb_eq. div_lia. }
  rewrite Hw'. unfold direct_channel.
  replace ((4 * (k / 3) + k mod 3) / 4) with (k / 3) by div_lia.
  replace ((4 * (k / 3) + k mod 3) mod 4) with (k mod 3) by div_lia.
  destruct (k mod 3 =? 3) eqn:E3; [apply Z.eqb_eq in E3; div_lia|].
  replace (3 * (k / 3) + k mod 3) with k by div_lia.
  rewrite byteLength_app.
  destruct (k <? byteLength header + byteLength arrayBuffer) eqn:E;
    [|apply Z.ltb_ge in E; lia].
  unfold byte_at. rewrite at_index_app_l by lia. rewrite Hb. cbn [default].
  rewrite toUint8Clamp_byte by done. by apply toUint8_byte.
Qed.

End LegacyRoundTrip.

(** ** The 32-byte header of the single-file format *)

Section LegacyHeader.

Lemma at_index_typed_set a source offset a' j :
  typed_set a source offset = Ok a' ->
  at_index a' j
  = if decide (offset <= j < offset + byteLength source)
    then at_index source (j - offset)
    else at_index a j.
Proof.
  unfold typed_set.
  destruct (offset <? 0) eqn:E0; [done|]. apply Z.ltb_ge in E0.
  destruct (byteLength a <? offset + byteLength source) eqn:E1; [done|].
  apply Z.ltb_ge in E1. cbn [orb]. intros [= <-].
  pose proof (byteLength_nonneg source) as Hs.
  assert (Ht : byteLength (take (Z.to_nat offset) a) = offset).
  { unfold byteLength in *. rewrite length_take. lia. }
  case_decide as Hd.
  - rewrite at_index_app_r by lia. rewrite Ht.
    rewrite at_index_app_l by lia. done.
  - destruct (decide (0 <= j < offset)) as [Hlow|Hlow].
    + rewrite at_index_app_l by lia.
      unfold at_index. destruct (j <? 0); [done|].
      rewrite lookup_take. case_decide; [done|lia].
    + destruct (decide (j < 0)) as [Hneg|Hneg].
      { unfold at_index. destruct (j <? 0) eqn:E; [done|].
        apply Z.ltb_ge in E. lia. }
      rewrite at_index_app_r by lia. rewrite Ht.
      rewrite at_index_app_r by lia.
      unfold at_index, byteLength in *.
      destruct (j - offset - Z.of_nat (length source) <? 0) eqn:E2;
        [apply Z.ltb_lt in E2; lia|].
      destruct (j <? 0) eqn:E3; [apply Z.ltb_lt in E3; lia|].
      rewrite lookup_drop. f_equal. lia.
Qed.

Lemma at_index_prefix a n k :
  0 <= k < n -> at_index (prefix a n) k = at_index a k.
Proof.
  intros Hk. unfold at_index, prefix.
  destruct (k <? 0); [done|]. rewrite lookup_take.
  case_decide; [done|lia].
Qed.

(** The bytes of the header [encodeFileToCanvas] builds: the length of
    the name, its first 20 bytes, the length of the mime type, its first
    4 bytes, and the length of the data, which takes the place of bytes
    4 to 7 of the mime type. *)
Lemma buildHeader_layout arrayBuffer filename mimeType header :
  Legacy.buildHeader arrayBuffer filename mimeType = Ok header ->
  let nameBytes := TextEncoder_encode filename in
  let mimeBytes := TextEncoder_encode mimeType in
  let field (bs : list Z) (k : Z) := default 0 (at_index bs k) in
  byteLength header = 32
  /\ getUint16 header 0 = Ok (byteLength nameBytes mod 2 ^ 16)
  /\ (forall k, 0 <= k < 20 ->
        at_index header (2 + k) = Some (field nameBytes k))
  /\ getUint16 header 22 = Ok (byteLength mimeBytes mod 2 ^ 16)
  /\ (forall k, 0 <= k < 4 ->
        at_index header (24 + k) = Some (field mimeBytes k))
  /\ getUint32 header 28 = Ok (byteLength arrayBuffer mod 2 ^ 32)
  /\ (forall k, 0 <= k < 4 ->
        at_index header (28 + k)
        = at_index (Uint32_bytes (byteLength arrayBuffer)) k).
Proof.
  intros Hbuild nameBytes mimeBytes field.
  unfold Legacy.buildHeader in Hbuild.
  fold nameBytes in Hbuild. fold mimeBytes in Hbuild.
  pose proof (byteLength_zeros Legacy.HEADER_SIZE ltac:(done)) as H0.
  pose proof (byteLength_nonneg nameBytes) as Hn.
  pose proof (byteLength_nonneg mimeBytes) as Hm.
  unfold Legacy.HEADER_SIZE in *.
  destruct (setUint16_Ok (zeros 32) 0 (byteLength nameBytes))
    as (h1 & E1 & L1); [lia..|]. rewrite E1 in Hbuild. cbn [bind] in Hbuild.
  destruct (typed_set_Ok h1 (prefix nameBytes 20) 2)
    as (h2 & E2 & L2); [lia| rewrite byteLength_prefix; lia |].
  rewrite E2 in Hbuild. cbn [bind] in Hbuild.
  destruct (setUint16_Ok h2 22 (byteLength mimeBytes))
    as (h3 & E3 & L3); [lia..|]. rewrite E3 in Hbuild. cbn [bind] in Hbuild.
  destruct (typed_set_Ok h3 (prefix mimeBytes 8) 24)
    as (h4 & E4 & L4); [lia| rewrite byteLength_prefix; lia |].
  rewrite E4 in Hbuild. cbn [bind] in Hbuild.
  assert (G5 : getUint32 header 28 = Ok (byteLength arrayBuffer mod 2 ^ 32))
    by (apply (getUint32_setUint32 h4); [lia|lia|done]).
  assert (L5 : byteLength header = 32).
  { destruct (setUint32_Ok h4 28 (byteLength arrayBuffer))
      as (h5 & E5 & L5); [lia..|]. rewrite E5 in Hbuild.
    injection Hbuild as <-. lia. }
  (* every byte of the header, from the last write back to the first *)
  assert (A5 : forall j, ~ (28 <= j < 32) ->
            at_index header j = at_index h4 j).
  { intros j Hj.
    unfold setUint32 in Hbuild. rewrite in_view_true in Hbuild by lia.
    injection Hbuild as <-. rewrite !at_index_store.
    repeat case_decide; try done; lia. }
  assert (A3 : forall j, ~ (22 <= j < 24) -> at_index h3 j = at_index h2 j).
  { intros j Hj.
    unfold setUint16 in E3. rewrite in_view_true in E3 by lia.
    injection E3 as <-. rewrite !at_index_store.
    repeat case_decide; try done; lia. }
  assert (A1 : forall j, 2 <= j < 32 -> at_index h1 j = Some 0).
  { intros j Hj.
    unfold setUint16 in E1. rewrite in_view_true in E1 by lia.
    injection E1 as <-. rewrite !at_index_store.
    repeat case_decide; try lia. apply at_index_zeros_Some. lia. }
  assert (P20 : byteLength (prefix nameBytes 20)
                = Z.min 20 (byteLength nameBytes))
    by (by rewrite byteLength_prefix).
  assert (P8 : byteLength (prefix mimeBytes 8)
               = Z.min 8 (byteLength mimeBytes))
    by (by rewrite byteLength_prefix).
  assert (B5 : forall k, 0 <= k < 4 ->
            at_index header (28 + k)
            = at_index (Uint32_bytes (byteLength arrayBuffer)) k).
  { intros k Hk.
    unfold setUint32 in Hbuild. rewrite in_view_true in Hbuild by lia.
    injection Hbuild as <-.
    assert (k = 0 \/ k = 1 \/ k = 2 \/ k = 3) as [->|[->|[->| ->]]] by lia;
      rewrite !at_index_store, !byteLength_store;
      repeat case_decide; try lia; reflexivity. }
  split; [done|]. split; [|split; [|split; [|split; [|split]]]].
  - unfold getUint16. rewrite in_view_true by lia. unfold byte_at.
    rewrite !A5 by lia. rewrite !(at_index_typed_set _ _ _ _ _ E4).
    repeat case_decide; try lia. rewrite !A3 by lia.
    rewrite !(at_index_typed_set _ _ _ _ _ E2).
    repeat case_decide; try lia.
    unfold setUint16 in E1. rewrite in_view_true in E1 by lia.
    injection E1 as <-. rewrite !at_index_store, !byteLength_store.
    repeat case_decide; try lia. cbn [default]. f_equal.
    rewrite Z.shiftl_mul_pow2, Z.shiftr_div_pow2 by lia.
    change (2 ^ 8) with 256. change (2 ^ 16) with 65536. unfold id.
    clear. div_lia.
  - intros k Hk.
    rewrite A5 by lia. rewrite (at_index_typed_set _ _ _ _ _ E4).
    case_decide; [lia|]. rewrite A3 by lia.
    rewrite (at_index_typed_set _ _ _ _ _ E2).
    case_decide.
    + replace (2 + k - 2) with k by lia.
      rewrite at_index_prefix by lia. unfold field.
      destruct (at_index_is_Some nameBytes k ltac:(lia)) as [b ->]. done.
    + rewrite A1 by lia. unfold field.
      rewrite (at_index_None nameBytes k) by lia. done.
  - unfold getUint16. rewrite in_view_true by lia. unfold byte_at.
    rewrite !A5 by lia. rewrite !(at_index_typed_set _ _ _ _ _ E4).
    repeat case_decide; try lia.
    unfold setUint16 in E3. rewrite in_view_true in E3 by lia.
    injection E3 as <-. rewrite !at_index_store, !byteLength_store.
    repeat case_decide; try lia. cbn [default]. f_equal.
    rewrite Z.shiftl_mul_pow2, Z.shiftr_div_pow2 by lia.
    change (2 ^ 8) with 256. change (2 ^ 16) with 65536. unfold id.
    clear. div_lia.
  - intros k Hk.
    rewrite A5 by lia. rewrite (at_index_typed_set _ _ _ _ _ E4).
    case_decide.
    + replace (24 + k - 24) with k by lia.
      rewrite at_index_prefix by lia. unfold field.
      destruct (at_index_is_Some mimeBytes k ltac:(lia)) as [b ->]. done.
    + rewrite A3 by lia. rewrite (at_index_typed_set _ _ _ _ _ E2).
      case_decide; [lia|].
      rewrite A1 by lia. unfold field.
      rewrite (at_index_None mimeBytes k) by lia. done.
  - done.
  - done.
Qed.

End LegacyHeader.

(** ** Decoding a canvas of the single-file format *)

Section LegacyDecode.

Lemma readMetadata_Ok canvas filename mimeType dataLength totalPixelsNeeded :
  Legacy.readMetadata canvas
  = Ok (filename, mimeType, dataLength, totalPixelsNeeded) ->
  0 < dataLength
  /\ totalPixelsNeeded = ceil_div (dataLength + Legacy.HEADER_SIZE) 3
  /\ Legacy.declaredLength canvas = Ok dataLength.
Proof.
  unfold Legacy.readMetadata, Legacy.declaredLength. cbv zeta.
  destruct (getUint16 _ 0) as [v0|]; [|done]. cbn [bind].
  destruct (getUint16 _ 22) as [v1|]; [|done]. cbn [bind].
  destruct (getUint32 _ 28) as [v2|]; [|done]. cbn [bind].
  destruct (v2 <=? 0) eqn:E0; [done|]. apply Z.leb_gt in E0. cbn [orb].
  destruct (_ <? v2); [done|].
  destruct (_ <? _); [done|]. intros [= <- <- <- <-]. done.
Qed.

Lemma decodeFileFromCanvas_Ok canvas filename mimeType dataLength
    totalPixelsNeeded :
  Legacy.readMetadata canvas
  = Ok (filename, mimeType, dataLength, totalPixelsNeeded) ->
  let m := Z.min dataLength (3 * (totalPixelsNeeded - 11)) in
  exists data progress,
    Legacy.decodeFileFromCanvas canvas
    = Resolved (Legacy.mkDecoded filename mimeType data, progress)
    /\ extracted (Legacy.pixels canvas) dataLength
         (3 * (totalPixelsNeeded - 11)) (data, m)
    /\ nondecreasing progress
    /\ last progress = Some (fraction m dataLength).
Proof.
  intros Hmeta m.
  destruct (readMetadata_Ok _ _ _ _ _ Hmeta) as (HL & HP & _).
  unfold Legacy.HEADER_SIZE in HP.
  assert (HP11 : 11 <= totalPixelsNeeded)
    by (subst totalPixelsNeeded; unfold ceil_div; div_lia).
  destruct (decode_processChunk_extracts (Legacy.pixels canvas) dataLength
              totalPixelsNeeded (S (Z.to_nat totalPixelsNeeded)) HL
              11 (zeros dataLength, 0) [])
    as (data & progress & Hrun & Hext & Hnd & Hlast).
  - lia.
  - lia.
  - apply extracted_start. lia.
  - done.
  - constructor.
  - exists data, progress. split; [|done].
    unfold Legacy.decodeFileFromCanvas. rewrite Hmeta.
    change (ceil_div Legacy.HEADER_SIZE 3) with 11. by rewrite Hrun.
Qed.

(** The number of channels the extraction loop offers: all of the data,
    or one byte less when header and data fill their last pixel. *)
Lemma channels_offered dataLength :
  0 < dataLength ->
  Z.min dataLength (3 * (ceil_div (dataLength + 32) 3 - 11))
  = if (dataLength + 32) mod 3 =? 0 then dataLength - 1 else dataLength.
Proof.
  intros HL. unfold ceil_div.
  destruct (_ =? 0) eqn:E;
    rewrite ?Z.eqb_eq, ?Z.eqb_neq in E; div_lia.
Qed.

End LegacyDecode.

Section LegacyReadBack.

Lemma byteLength_slice a start stop :
  0 <= start <= stop -> stop <= byteLength a ->
  byteLength (slice a start stop) = stop - start.
Proof.
  intros Hs He. unfold slice, byteLength in *.
  rewrite length_take, length_drop. lia.
Qed.

Lemma at_index_slice a start stop k :
  0 <= start <= stop -> stop <= byteLength a -> 0 <= k < stop - start ->
  at_index (slice a start stop) k = at_index a (start + k).
Proof.
  intros Hs He Hk. unfold slice, at_index, byteLength in *.
  destruct (k <? 0) eqn:E; [apply Z.ltb_lt in E; lia|].
  destruct (start + k <? 0) eqn:E2; [apply Z.ltb_lt in E2; lia|].
  rewrite lookup_take. case_decide; [|lia].
  rewrite lookup_drop. f_equal. lia.
Qed.

(** What [decodeFileFromCanvas] reads from the header of a canvas that
    [encodeFileToCanvas] wrote. *)
Lemma readMetadata_written arrayBuffer filename mimeType header canvas
    progress :
  Legacy.buildHeader arrayBuffer filename mimeType = Ok header ->
  Legacy.encodeFileToCanvas arrayBuffer filename mimeType
  = Resolved (canvas, progress) ->
  byteLength arrayBuffer < 2 ^ 32 ->
  let n := byteLength arrayBuffer in
  let nameLength := byteLength (TextEncoder_encode filename) mod 2 ^ 16 in
  let mimeLength := byteLength (TextEncoder_encode mimeType) mod 2 ^ 16 in
  Legacy.readMetadata canvas
  = if n =? 0 then Err InvalidDataLength
    else Ok (TextDecoder_decode (slice header 2 (2 + Z.min 20 nameLength)),
             if 0 <? mimeLength
             then TextDecoder_decode
                    (slice header 24 (24 + Z.min 8 mimeLength))
             else "application/octet-stream"%string,
             n, ceil_div (n + Legacy.HEADER_SIZE) 3).
Proof.
  intros Hheader Hencode Hsmall n nameLength mimeLength.
  pose proof (readHeader_of_written _ _ _ _ _ _ Hheader Hencode) as Hread.
  destruct (buildHeader_layout _ _ _ _ Hheader)
    as (_ & G0 & _ & G22 & _ & G28 & _).
  pose proof (byteLength_nonneg arrayBuffer) as Hab.
  destruct (Legacy_calculateCanvasSize_holds (byteLength arrayBuffer) Hab)
    as (Hcap & _ & Hw & Hh).
  set (dims := Legacy.calculateCanvasSize (byteLength arrayBuffer)) in *.
  assert (Hcanvas : Legacy.canvas_width canvas = Legacy.width dims
                    /\ Legacy.canvas_height canvas = Legacy.height dims).
  { destruct (encodeFileToCanvas_pixels arrayBuffer filename mimeType)
      as (header' & img & progress' & _ & _ & He & _ & _).
    rewrite Hencode in He. by injection He as -> ->. }
  destruct Hcanvas as [Hcw Hch].
  unfold Legacy.readMetadata.
  cbv zeta. rewrite Hread, G0, G22, G28, Hcw, Hch. cbn [bind].
  fold nameLength. fold mimeLength.
  rewrite (Z.mod_small (byteLength arrayBuffer)) by lia.
  unfold Legacy.HEADER_SIZE in *. subst n.
  set (n := byteLength arrayBuffer) in *.
  destruct (n =? 0) eqn:E0.
  - apply Z.eqb_eq in E0. rewrite E0. done.
  - apply Z.eqb_neq in E0.
    destruct (n <=? 0) eqn:E1; [apply Z.leb_le in E1; lia|]. cbn [orb].
    destruct (_ <? n) eqn:E2; [apply Z.ltb_lt in E2; lia|].
    destruct (_ <? ceil_div _ _) eqn:E3; [|done].
    apply Z.ltb_lt in E3. unfold ceil_div in E3. exfalso. div_lia.
Qed.

(** Reading back what was written: byte [k] of the result is byte [k + 1]
    of the file when its pixel was written, and 0 otherwise. *)
Lemma decode_of_written arrayBuffer filename mimeType canvas progress :
  Forall is_byte arrayBuffer ->
  0 < byteLength arrayBuffer < 2 ^ 32 ->
  Legacy.encodeFileToCanvas arrayBuffer filename mimeType
  = Resolved (canvas, progress) ->
  exists decoded progress',
    Legacy.decodeFileFromCanvas canvas = Resolved (decoded, progress')
    /\ byteLength (Legacy.data decoded) = byteLength arrayBuffer
    /\ forall k, 0 <= k < byteLength arrayBuffer ->
         at_index (Legacy.data decoded) k
         = Some (if pixel_written (Legacy.HEADER_SIZE + byteLength arrayBuffer)
                      (11 + k / 3)
                 then default 0 (at_index arrayBuffer (k + 1))
                 else 0).
Proof.
  intros Hbytes Hn Hencode.
  destruct (encodeFileToCanvas_pixels arrayBuffer filename mimeType)
    as (header & img & progress0 & Hheader & Hlen & He & Himg & Hj).
  pose proof (readMetadata_written _ _ _ _ _ _ Hheader Hencode ltac:(lia))
    as Hmeta. cbv zeta in Hmeta.
  destruct (byteLength arrayBuffer =? 0) eqn:E0;
    [apply Z.eqb_eq in E0; lia|]. clear E0.
  destruct (decodeFileFromCanvas_Ok _ _ _ _ _ Hmeta)
    as (data & progress' & Hdec & (HL & _ & Hk) & _).
  cbn [fst snd] in HL, Hk.
  eexists _, progress'. split; [exact Hdec|]. cbn [Legacy.data].
  split; [done|]. intros k Hkr. rewrite (Hk k Hkr). f_equal.
  rewrite Hencode in He. injection He as -> ->. cbn [Legacy.pixels] in *.
  pose proof (byteLength_nonneg arrayBuffer) as Hab.
  destruct (Legacy_calculateCanvasSize_holds (byteLength arrayBuffer) Hab)
    as (Hcap & _ & Hw & Hh).
  set (dims := Legacy.calculateCanvasSize (byteLength arrayBuffer)) in *.
  set (wh := Legacy.width dims * Legacy.height dims) in *.
  set (n := byteLength arrayBuffer) in *.
  unfold Legacy.HEADER_SIZE in *.
  rewrite channels_offered by lia.
  assert (Hpast : at_index arrayBuffer n = None)
    by (apply at_index_None; fold n; lia).
  destruct (k <? _) eqn:Ek.
  - apply Z.ltb_lt in Ek.
    assert (Hin : 0 <= 4 * (11 + k / 3) + k mod 3 < wh * 4).
    { destruct ((n + 32) mod 3 =? 0) eqn:E3;
        rewrite ?Z.eqb_eq, ?Z.eqb_neq in E3; div_lia. }
    unfold read_channel, byte_at. rewrite (Hj _ Hin). cbn [default].
    replace ((4 * (11 + k / 3) + k mod 3) / 4) with (11 + k / 3) by div_lia.
    destruct (pixel_written _ _) eqn:Ew; [|done].
    unfold direct_channel.
    replace ((4 * (11 + k / 3) + k mod 3) / 4) with (11 + k / 3) by div_lia.
    replace ((4 * (11 + k / 3) + k mod 3) mod 4) with (k mod 3) by div_lia.
    destruct (k mod 3 =? 3) eqn:E3; [apply Z.eqb_eq in E3; div_lia|].
    replace (3 * (11 + k / 3) + k mod 3) with (32 + (k + 1)) by div_lia.
    rewrite byteLength_app, Hlen. fold n.
    destruct (32 + (k + 1) <? 32 + n) eqn:E.
    + apply Z.ltb_lt in E. unfold byte_at.
      rewrite at_index_app_r by lia. rewrite Hlen.
      replace (32 + (k + 1) - 32) with (k + 1) by lia.
      destruct (at_index_is_Some arrayBuffer (k + 1) ltac:(fold n; lia))
        as [b Hb].
      rewrite Hb. cbn [default].
      pose proof (at_index_byte _ _ _ Hbytes Hb) as Hbyte.
      rewrite toUint8Clamp_byte by done. by apply toUint8_byte.
    + apply Z.ltb_ge in E. replace (k + 1) with n by lia.
      rewrite Hpast. done.
  - apply Z.ltb_ge in Ek.
    destruct ((n + 32) mod 3 =? 0) eqn:E3; [|lia].
    replace (k + 1) with n by lia. rewrite Hpast.
    by destruct (pixel_written _ _).
Qed.

End LegacyReadBack.

Section LegacyFields.

Lemma slice_name arrayBuffer filename mimeType header :
  Legacy.buildHeader arrayBuffer filename mimeType = Ok header ->
  let nameBytes := TextEncoder_encode filename in
  byteLength nameBytes < 2 ^ 16 ->
  slice header 2 (2 + Z.min 20 (byteLength nameBytes mod 2 ^ 16))
  = prefix nameBytes 20.
Proof.
  intros Hheader nameBytes Hshort.
  destruct (buildHeader_layout _ _ _ _ Hheader)
    as (Hlen & _ & Hname & _). fold nameBytes in Hname.
  pose proof (byteLength_nonneg nameBytes) as Hn.
  rewrite Z.mod_small by lia.
  assert (Hs : byteLength (slice header 2 (2 + Z.min 20 (byteLength nameBytes)))
               = Z.min 20 (byteLength nameBytes))
    by (rewrite byteLength_slice; lia).
  apply at_index_ext.
  - rewrite Hs, byteLength_prefix; lia.
  - rewrite Hs. intros k Hk.
    rewrite at_index_slice by lia. rewrite Hname by lia.
    rewrite at_index_prefix by lia.
    destruct (at_index_is_Some nameBytes k ltac:(lia)) as [b ->]. done.
Qed.

Lemma slice_mime arrayBuffer filename mimeType header :
  Legacy.buildHeader arrayBuffer filename mimeType = Ok header ->
  let mimeBytes := TextEncoder_encode mimeType in
  8 <= byteLength mimeBytes < 2 ^ 16 ->
  slice header 24 (24 + Z.min 8 (byteLength mimeBytes mod 2 ^ 16))
  = prefix mimeBytes 4 ++ Uint32_bytes (byteLength arrayBuffer).
Proof.
  intros Hheader mimeBytes Hm.
  destruct (buildHeader_layout _ _ _ _ Hheader)
    as (Hlen & _ & _ & _ & Hmime & _ & Hsize). fold mimeBytes in Hmime.
  rewrite Z.mod_small by lia.
  replace (24 + Z.min 8 (byteLength mimeBytes)) with 32 by lia.
  assert (Hs : byteLength (slice header 24 32) = 8)
    by (rewrite byteLength_slice; lia).
  assert (Hp : byteLength (prefix mimeBytes 4) = 4)
    by (rewrite byteLength_prefix; lia).
  apply at_index_ext.
  - rewrite Hs, byteLength_app, Hp. reflexivity.
  - rewrite Hs. intros k Hk. rewrite at_index_slice by lia.
    destruct (decide (k < 4)) as [Hlow|Hhigh].
    + rewrite at_index_app_l by lia. rewrite Hmime by lia.
      rewrite at_index_prefix by lia.
      destruct (at_index_is_Some mimeBytes k ltac:(lia)) as [b ->]. done.
    + rewrite at_index_app_r by lia. rewrite Hp.
      replace (24 + k) with (28 + (k - 4)) by lia. apply Hsize. lia.
Qed.

(** On ASCII bytes [TextDecoder] yields one character per byte: what
    it makes of the first bytes of an encoded text is the first
    characters of the text. *)
Lemma strip_BOM_ascii bs : ascii_bytes bs -> strip_BOM bs = bs.
Proof.
  intros Hbs. destruct bs as [|b0 [|b1 [|b2 rest]]]; try done.
  apply Forall_cons in Hbs as [Hb0 _]. cbn [strip_BOM].
  destruct (b0 =? 239) eqn:E; [apply Z.eqb_eq in E; lia|done].
Qed.

Lemma decode_take_encode k (chars : list ascii) :
  map (fun b => ascii_of_N (Z.to_N b))
    (take k (map (fun c => Z.of_N (N_of_ascii c)) chars))
  = take k chars.
Proof.
  revert k. induction chars as [|c chars IH]; intros [|k]; try done.
  cbn [map take]. rewrite N2Z.id, ascii_N_embedding. by rewrite IH.
Qed.

Lemma substring_take k s :
  string_of_list_ascii (take k (list_ascii_of_string s)) = substring 0 k s.
Proof.
  revert k. induction s as [|c s IH]; intros [|k]; try done.
  cbn [list_ascii_of_string take string_of_list_ascii substring].
  by rewrite IH.
Qed.

Lemma TextDecoder_decode_prefix s n :
  ascii_bytes (prefix (TextEncoder_encode s) n) ->
  TextDecoder_decode (prefix (TextEncoder_encode s) n)
  = substring 0 (Z.to_nat n) s.
Proof.
  intros Hascii. unfold TextDecoder_decode. rewrite strip_BOM_ascii by done.
  unfold prefix, TextEncoder_encode.
  by rewrite decode_take_encode, substring_take.
Qed.

End LegacyFields.

(** ** The files the header loop of the multi-file reader keeps *)

Section Entries.

Implicit Types (ab : list Z) (files added : list Canvas.File).

(** The loop keeps the entries it reads one after the other, from
    consecutive headers, and stops for good at the end of the buffer or
    at the first entry whose data leaves the buffer. *)
Lemma readHeaders_prefix ab fileCount remaining :
  forall i offset files progress files' progress',
    Canvas.readHeaders ab fileCount remaining i offset files progress
    = Ok (files', progress') ->
    exists added,
      files' = files ++ added
      /\ (length added <= remaining)%nat
      /\ (forall k file, added !! k = Some file ->
            exists name type dataStart dataEnd,
              Canvas.readFileHeader ab fileCount
                (offset + Canvas.FILE_HEADER_SIZE * Z.of_nat k)
              = Ok (name, type, dataStart, dataEnd)
              /\ dataEnd <= byteLength ab
              /\ file = Canvas.mkFile name (Some type)
                          (slice ab dataStart dataEnd))
      /\ (length added = remaining
          \/ byteLength ab
             < offset + Canvas.FILE_HEADER_SIZE * Z.of_nat (length added)
               + Canvas.FILE_HEADER_SIZE
          \/ exists name type dataStart dataEnd,
               Canvas.readFileHeader ab fileCount
                 (offset
                  + Canvas.FILE_HEADER_SIZE * Z.of_nat (length added))
               = Ok (name, type, dataStart, dataEnd)
               /\ byteLength ab < dataEnd).
Proof.
  induction remaining as [|remaining IH];
    intros i offset files progress files' progress'; cbn [Canvas.readHeaders].
  - intros [= <- <-]. exists []. rewrite app_nil_r.
    split; [done|]. split; [done|]. split; [|by left].
    intros k file Hk. by rewrite lookup_nil in Hk.
  - destruct (byteLength ab <? offset + Canvas.FILE_HEADER_SIZE) eqn:Eend.
    { apply Z.ltb_lt in Eend. intros [= <- <-]. exists [].
      rewrite app_nil_r. split; [done|]. split; [simpl; lia|].
      split; [intros k file Hk; by rewrite lookup_nil in Hk|].
      right. left. simpl. lia. }
    destruct (Canvas.readFileHeader ab fileCount offset)
      as [[[[name type] dataStart] dataEnd]|] eqn:Hread; [|done].
    cbn [bind].
    destruct (byteLength ab <? dataEnd) eqn:Eout.
    + apply Z.ltb_lt in Eout.
      rewrite (readHeaders_continue _ _ _ _ _ _ _ Hread Eout).
      intros [= <- <-]. exists []. rewrite app_nil_r.
      split; [done|]. split; [simpl; lia|].
      split; [intros k file Hk; by rewrite lookup_nil in Hk|].
      right. right. exists name, type, dataStart, dataEnd.
      simpl. rewrite Z.mul_0_r, Z.add_0_r. done.
    + apply Z.ltb_ge in Eout. intros Hrest.
      destruct (IH _ _ _ _ _ _ Hrest) as (added & -> & Hlen & Hk & Hstop).
      exists (Canvas.mkFile name (Some type) (slice ab dataStart dataEnd)
              :: added).
      split; [by rewrite <- app_assoc|]. split; [simpl; lia|]. split.
      * intros [|k] file Hfile.
        -- injection Hfile as <-. exists name, type, dataStart, dataEnd.
           simpl. rewrite Z.mul_0_r, Z.add_0_r. done.
        -- cbn [lookup list_lookup] in Hfile.
           destruct (Hk k file Hfile) as (n' & t' & s' & e' & Hr & He & Hf).
           exists n', t', s', e'. split; [|done].
           replace (offset + Canvas.FILE_HEADER_SIZE * Z.of_nat (S k))
             with (offset + Canvas.FILE_HEADER_SIZE
                   + Canvas.FILE_HEADER_SIZE * Z.of_nat k) by lia.
           done.
      * cbn [length].
        replace (offset + Canvas.FILE_HEADER_SIZE * Z.of_nat (S (length added)))
          with (offset + Canvas.FILE_HEADER_SIZE
                + Canvas.FILE_HEADER_SIZE * Z.of_nat (length added)) by lia.
        destruct Hstop as [Hall|[Hend|Hout]];
          [left; lia | right; by left | right; by right].
Qed.

(** Every failure of [readFileHeader] is a [RangeError], and the read of
    the data offset at 127 needs three bytes after the header. *)
Lemma readFileHeader_short ab fileCount offset :
  byteLength ab < offset + Canvas.FILE_HEADER_SIZE + 3 ->
  Canvas.readFileHeader ab fileCount offset = Err RangeError.
Proof.
  intros Hshort. unfold Canvas.readFileHeader.
  unfold getUint16 at 1. destruct (in_view ab offset 2); [|done]. cbn [bind].
  unfold view at 1.
  destruct (_ || _); [done|]. cbn [bind].
  unfold getUint8 at 1. destruct (in_view ab (offset + 102) 1); [|done].
  cbn [bind].
  unfold view at 1.
  destruct (_ || _); [done|]. cbn [bind].
  unfold getUint32 at 1. destruct (in_view ab (offset + 123) 4); [|done].
  cbn [bind].
  unfold getUint32. rewrite in_view_false; [done|].
  unfold Canvas.FILE_HEADER_SIZE in Hshort. lia.
Qed.

Lemma parse_header_ok ab pre fileCount :
  take 4 ab = magic -> at_index ab 4 = Some 1 ->
  at_index ab 5 = Some fileCount -> fileCount <> 0 ->
  Canvas.parseContainer ab pre
  = (let* read := Canvas.readHeaders ab fileCount (Z.to_nat fileCount)
                    0 Canvas.HEADER_SIZE [] pre in
     if (length (fst read) =? 0)%nat then Err NoValidFiles else Ok read).
Proof.
  intros Hmagic Hv Hc Hne. rewrite parse_magic_ok by done.
  rewrite getUint8_Ok by (by apply at_index_Some_lt in Hv).
  rewrite (byte_at_Some _ _ _ Hv). cbn [bind].
  rewrite getUint8_Ok by (by apply at_index_Some_lt in Hc).
  rewrite (byte_at_Some _ _ _ Hc). cbn [bind].
  change (negb (1 =? 1)) with false. cbv iota.
  destruct (fileCount =? 0) eqn:E; [lia|done].
Qed.

Lemma parse_Ok_header ab pre files progress :
  Canvas.parseContainer ab pre = Ok (files, progress) ->
  exists fileCount,
    getUint8 ab 5 = Ok fileCount
    /\ fileCount <> 0
    /\ files <> []
    /\ Canvas.readHeaders ab fileCount (Z.to_nat fileCount)
         0 Canvas.HEADER_SIZE [] pre = Ok (files, progress).
Proof.
  unfold Canvas.parseContainer.
  destruct (Canvas.expect_byte ab 0 70 _) as [[]|]; [|done]. cbn [bind].
  destruct (getUint8 ab 4) as [version|]; [|done]. cbn [bind].
  destruct (negb (version =? 1)); [done|].
  destruct (getUint8 ab 5) as [fileCount|]; [|done]. cbn [bind].
  destruct (fileCount =? 0) eqn:Hcount; [done|].
  destruct (Canvas.readHeaders ab fileCount _ _ _ _ _)
    as [[files' progress']|] eqn:Hloop; [|done].
  cbn [bind fst].
  destruct (length files' =? 0)%nat eqn:Hnone; [done|].
  intros [= <- <-]. exists fileCount. split; [done|].
  split; [by apply Z.eqb_neq|]. split; [|done].
  intros ->. done.
Qed.

End Entries.

(** ** The pixels of the multi-file writer *)

Section Sextets.

Lemma store_in_levels img i v :
  in_levels img -> v ∈ levels (i mod 4) -> in_levels (store img i v).
Proof.
  intros Himg Hv j w. rewrite at_index_store.
  case_decide as Hd; [|apply Himg].
  destruct Hd as [-> _]. by intros [= <-].
Qed.

Lemma sextet_range x : 0 <= Z.land x 0x3F < 64.
Proof.
  change 0x3F with (Z.ones 6). rewrite Z.land_ones by lia.
  apply Z.mod_pos_bound. lia.
Qed.

Lemma packSextet_in_levels ab i img :
  in_levels img -> in_levels (Canvas.packSextet ab i img).
Proof.
  intros Himg. unfold Canvas.packSextet.
  destruct (_ <? _); [|done]. cbv zeta.
  set (value := Z.land _ 0x3F).
  pose proof (sextet_range
                (Z.shiftr (Z.lor (Z.shiftl (byte_at ab (i * 3 / 4)) 8)
                             (byte_at ab (i * 3 / 4 + 1)))
                   (10 - i * 6 mod 8))) as Hvalue.
  fold value in Hvalue.
  assert (H0 : (i * 4) mod 4 = 0) by div_lia.
  assert (H1 : (i * 4 + 1) mod 4 = 1) by div_lia.
  assert (H2 : (i * 4 + 2) mod 4 = 2) by div_lia.
  assert (H3 : (i * 4 + 3) mod 4 = 3) by div_lia.
  repeat apply store_in_levels; try done.
  - rewrite H0. rewrite Z.shiftr_div_pow2 by lia. change (2 ^ 4) with 16.
    assert (value / 16 = 0 \/ value / 16 = 1 \/ value / 16 = 2
            \/ value / 16 = 3) as [->|[->|[->| ->]]] by div_lia;
      vm_compute; repeat constructor.
  - rewrite H1. rewrite Z.shiftr_div_pow2 by lia. change (2 ^ 2) with 4.
    change 3 with (Z.ones 2). rewrite Z.land_ones by lia.
    change (2 ^ 2) with 4.
    assert ((value / 4) mod 4 = 0 \/ (value / 4) mod 4 = 1
            \/ (value / 4) mod 4 = 2 \/ (value / 4) mod 4 = 3)
      as [->|[->|[->| ->]]] by div_lia;
      vm_compute; repeat constructor.
  - rewrite H2. change 3 with (Z.ones 2). rewrite Z.land_ones by lia.
    change (2 ^ 2) with 4.
    assert (value mod 4 = 0 \/ value mod 4 = 1
            \/ value mod 4 = 2 \/ value mod 4 = 3)
      as [->|[->|[->| ->]]] by div_lia;
      vm_compute; repeat constructor.
  - rewrite H3. vm_compute. repeat constructor.
Qed.

Lemma Canvas_processChunk_in_levels ab frames_left :
  forall start img progress img' progress',
    in_levels img ->
    Canvas.processChunk frames_left ab start img progress
    = Some (img', progress') ->
    in_levels img'.
Proof.
  induction frames_left as [|frames_left IH];
    intros start img progress img' progress' Himg; [done|].
  cbn [Canvas.processChunk].
  set (stop := Qmin _ _).
  set (img1 := for_range _ _ _ _ img).
  assert (H1 : in_levels img1).
  { unfold img1, for_range. apply for_loop_invariant; [done|].
    intros i s Hs. by apply packSextet_in_levels. }
  destruct (negb _).
  - by apply IH.
  - by intros [= <- _].
Qed.

Lemma zeros_in_levels n : in_levels (zeros n).
Proof.
  intros j v Hv.
  assert (v = 0) as ->.
  { unfold at_index, zeros in Hv. destruct (j <? 0); [done|].
    apply lookup_replicate in Hv. by destruct Hv. }
  unfold levels. destruct (_ =? 0); [repeat constructor|].
  destruct (_ =? 3); repeat constructor.
Qed.

(** *** The part of the buffer the image depends on *)

Lemma store_outside a i v : byteLength a <= i -> store a i v = a.
Proof.
  intros Hi. unfold store, byteLength in *.
  destruct (i <? 0); [done|]. apply list_insert_ge. lia.
Qed.

Lemma packSextet_length ab i img :
  byteLength (Canvas.packSextet ab i img) = byteLength img.
Proof.
  unfold Canvas.packSextet. destruct (_ <? _); [|done].
  cbv zeta. by rewrite !byteLength_store.
Qed.

Lemma packSextet_prefix ab ab' pixelCount i img :
  byteLength ab = byteLength ab' ->
  (forall k, 0 <= k < 3 * (pixelCount - 1) / 4 + 2 ->
     at_index ab k = at_index ab' k) ->
  byteLength img = pixelCount * 4 -> 0 <= i ->
  Canvas.packSextet ab i img = Canvas.packSextet ab' i img.
Proof.
  intros Hlen Hsame Himg Hi. unfold Canvas.packSextet.
  rewrite <- Hlen. destruct (_ <? _); [|done]. cbv zeta.
  destruct (decide (i < pixelCount)) as [Hin|Hout].
  - unfold byte_at. rewrite !(Hsame (i * 3 / 4)) by div_lia.
    rewrite !(Hsame (i * 3 / 4 + 1)) by div_lia. done.
  - rewrite !store_outside; rewrite ?byteLength_store; try lia. done.
Qed.

Lemma pack_loop_prefix ab ab' pixelCount stop rounds :
  byteLength ab = byteLength ab' ->
  (forall k, 0 <= k < 3 * (pixelCount - 1) / 4 + 2 ->
     at_index ab k = at_index ab' k) ->
  forall i img,
    byteLength img = pixelCount * 4 -> 0 <= i ->
    for_loop rounds i 1 (fun i _ => i <? stop) (Canvas.packSextet ab) img
    = for_loop rounds i 1 (fun i _ => i <? stop) (Canvas.packSextet ab') img.
Proof.
  intros Hlen Hsame.
  induction rounds as [|rounds IH]; intros i img Himg Hi; [done|].
  cbn [for_loop]. destruct (i <? stop); [|done].
  rewrite (packSextet_prefix ab ab' pixelCount) by done.
  apply IH; [|lia]. by rewrite packSextet_length.
Qed.

Lemma sextets_length ab ab' :
  byteLength ab = byteLength ab' -> Canvas.sextets ab = Canvas.sextets ab'.
Proof. unfold Canvas.sextets. by intros ->. Qed.

Lemma sextets_nonneg ab : (0 <= Canvas.sextets ab)%Q.
Proof.
  unfold Canvas.sextets. pose proof (byteLength_nonneg ab).
  unfold Qle, Qdiv, Qmult, Qinv, inject_Z. simpl. lia.
Qed.

Lemma Canvas_processChunk_prefix ab ab' pixelCount frames_left :
  byteLength ab = byteLength ab' ->
  (forall k, 0 <= k < 3 * (pixelCount - 1) / 4 + 2 ->
     at_index ab k = at_index ab' k) ->
  forall start img progress,
    byteLength img = pixelCount * 4 -> 0 <= start ->
    Canvas.processChunk frames_left ab start img progress
    = Canvas.processChunk frames_left ab' start img progress.
Proof.
  intros Hlen Hsame.
  induction frames_left as [|frames_left IH];
    intros start img progress Himg Hstart; [done|].
  cbn [Canvas.processChunk].
  rewrite <- (sextets_length ab ab' Hlen).
  set (stop := Qmin _ _).
  unfold for_range.
  rewrite (pack_loop_prefix ab ab' pixelCount) by done.
  set (img1 := for_loop _ _ _ _ _ img).
  destruct (negb _); [|done].
  apply IH.
  - unfold img1.
    apply (for_loop_invariant (fun s => byteLength s = pixelCount * 4));
      [done|].
    intros i s Hs. by rewrite packSextet_length.
  - change 0 with (Qfloor 0). apply Qfloor_resp_le.
    unfold stop. apply Q.min_glb.
    + rewrite <- (Zle_Qle 0). unfold Canvas.CHUNK_SIZE. lia.
    + apply sextets_nonneg.
Qed.

End Sextets.

(** ** The worker scripts *)

Section EncodeWorker.

Lemma fill_loop n rounds :
  forall k pixels,
    0 <= k -> byteLength pixels = 4 * n ->
    4 * n - 4 * k <= Z.of_nat rounds ->
    let pixels' :=
      for_loop rounds (4 * k) 4 (fun i _ => i <? 4 * n)
        (fun i pixels =>
           let pixels := store pixels i (toUint8Clamp 255) in
           let pixels := store pixels (i + 1) (toUint8Clamp 255) in
           let pixels := store pixels (i + 2) (toUint8Clamp 255) in
           store pixels (i + 3) (toUint8Clamp 255))
        pixels in
    byteLength pixels' = 4 * n
    /\ forall j, at_index pixels' j
                 = if decide (4 * k <= j < 4 * n) then Some 255
                   else at_index pixels j.
Proof.
  induction rounds as [|rounds IH]; intros k pixels Hk Hlen Hrounds.
  - cbn [for_loop]. split; [done|]. intros j. case_decide; [lia|done].
  - cbn [for_loop]. destruct (4 * k <? 4 * n) eqn:E.
    + apply Z.ltb_lt in E. cbv zeta.
      set (pixels1 := store _ (4 * k + 3) _).
      assert (Hlen1 : byteLength pixels1 = 4 * n)
        by (unfold pixels1; by rewrite !byteLength_store).
      replace (4 * k + 4) with (4 * (k + 1)) by lia.
      destruct (IH (k + 1) pixels1 ltac:(lia) Hlen1 ltac:(lia)) as [Hl Hj].
      split; [exact Hl|]. intros j. rewrite Hj.
      unfold pixels1. rewrite !at_index_store, !byteLength_store.
      change (toUint8Clamp 255) with 255.
      repeat case_decide; try done; lia.
    + apply Z.ltb_ge in E. split; [done|]. intros j.
      case_decide; [lia|done].
Qed.

Lemma fillWhite_lookup n pixels :
  0 <= n -> byteLength pixels = 4 * n ->
  byteLength (Worker.fillWhite pixels) = 4 * n
  /\ forall j, 0 <= j < 4 * n ->
       at_index (Worker.fillWhite pixels) j = Some 255.
Proof.
  intros Hn Hlen. unfold Worker.fillWhite, for_range. rewrite Hlen.
  change 0 with (4 * 0) at 2.
  destruct (fill_loop n (Z.to_nat (4 * n - 0)) 0 pixels ltac:(lia) Hlen
              ltac:(lia)) as [Hl Hj].
  split; [exact Hl|]. intros j Hjr. rewrite Hj.
  case_decide; [done|lia].
Qed.

(** Index [j] of the image is where byte [3 * (j / 4) + j mod 4] goes. *)
Lemma write_loop fileData stop rounds :
  forall i pixels,
    0 <= i -> stop - i <= Z.of_nat rounds ->
    let pixels' :=
      for_loop rounds i 1 (fun i _ => i <? stop)
        (Worker.writeByte fileData) pixels in
    byteLength pixels' = byteLength pixels
    /\ forall j, at_index pixels' j
         = if decide (0 <= j < byteLength pixels /\ j mod 4 <> 3
                      /\ i <= 3 * (j / 4) + j mod 4 < stop)
           then Some (toUint8Clamp
                        (byte_at fileData (3 * (j / 4) + j mod 4)))
           else at_index pixels j.
Proof.
  induction rounds as [|rounds IH]; intros i pixels Hi Hrounds.
  - cbn [for_loop]. split; [done|]. intros j. case_decide; [lia|done].
  - cbn [for_loop]. destruct (i <? stop) eqn:E.
    + apply Z.ltb_lt in E.
      set (pixels1 := Worker.writeByte fileData i pixels).
      assert (Hlen1 : byteLength pixels1 = byteLength pixels).
      { unfold pixels1, Worker.writeByte. destruct (_ <? _); [|done].
        by rewrite byteLength_store. }
      destruct (IH (i + 1) pixels1 ltac:(lia) ltac:(lia)) as [Hl Hj].
      split; [lia|]. intros j. rewrite Hj, Hlen1.
      unfold pixels1, Worker.writeByte. rewrite Z.rem_mod_nonneg by lia.
      destruct (_ <? byteLength pixels) eqn:Ein.
      * apply Z.ltb_lt in Ein. rewrite at_index_store.
        repeat case_decide; try done; try (exfalso; div_lia).
        do 3 f_equal. div_lia.
      * apply Z.ltb_ge in Ein.
        repeat case_decide; try done; exfalso; div_lia.
    + apply Z.ltb_ge in E. split; [done|]. intros j.
      case_decide; [lia|done].
Qed.

Lemma rem_is_zero_next stop chunkSize :
  0 < chunkSize -> 0 <= stop ->
  Worker.rem_is_zero stop chunkSize = true ->
  Worker.rem_is_zero (stop + chunkSize) chunkSize = true.
Proof.
  unfold Worker.rem_is_zero. intros Hc Hs.
  destruct (chunkSize =? 0) eqn:E; [done|].
  rewrite !Z.rem_mod_nonneg by lia. rewrite !Z.eqb_eq. intros H.
  rewrite <- (Z.mul_1_l chunkSize) at 1. rewrite Z.mod_add by lia. done.
Qed.

Lemma encode_chain fileData width height chunkSize :
  0 < chunkSize ->
  forall timeouts start stop pixels posted,
    0 <= start <= stop -> stop <= byteLength fileData ->
    Worker.rem_is_zero stop chunkSize || (byteLength fileData <=? stop)
    = true ->
    byteLength fileData - stop < Z.of_nat timeouts ->
    exists pixels' fractions,
      Worker.encode_processChunk timeouts fileData width height chunkSize
        start stop pixels posted
      = Some (posted ++ (Worker.Progress <$> fractions)
              ++ [Worker.Complete (pixels', width, height)])
      /\ byteLength pixels' = byteLength pixels
      /\ (forall j, at_index pixels' j
            = if decide (0 <= j < byteLength pixels /\ j mod 4 <> 3
                         /\ start <= 3 * (j / 4) + j mod 4
                            < byteLength fileData)
              then Some (toUint8Clamp
                           (byte_at fileData (3 * (j / 4) + j mod 4)))
              else at_index pixels j)
      /\ nondecreasing fractions
      /\ Forall (fun q => (fraction stop (byteLength fileData) <= q)%Q)
           fractions
      /\ last fractions
         = Some (fraction (byteLength fileData) (byteLength fileData)).
Proof.
  intros Hchunk.
  induction timeouts as [|timeouts IH];
    intros start stop pixels posted Hstart Hstop Hpost Hfuel; [lia|].
  cbn [Worker.encode_processChunk]. rewrite Hpost.
  set (pixels1 := for_range start stop 1 (Worker.writeByte fileData) pixels).
  destruct (write_loop fileData stop (Z.to_nat (stop - start)) start pixels
              ltac:(lia) ltac:(lia)) as [Hl1 Hj1].
  fold (for_range start stop 1 (Worker.writeByte fileData) pixels) in Hl1, Hj1.
  fold pixels1 in Hl1, Hj1.
  set (len := byteLength fileData) in *.
  destruct (stop <? len) eqn:E.
  - apply Z.ltb_lt in E.
    assert (Hnext : Worker.rem_is_zero (Z.min (stop + chunkSize) len)
                      chunkSize
                    || (len <=? Z.min (stop + chunkSize) len) = true).
    { destruct (Z.min_spec (stop + chunkSize) len) as [[Hlt ->]|[Hge ->]].
      - apply orb_true_intro. left. apply rem_is_zero_next; [done|lia|].
        apply orb_prop in Hpost as [Hz|Hz]; [done|].
        apply Z.leb_le in Hz. lia.
      - apply orb_true_intro. right. apply Z.leb_le. lia. }
    destruct (IH stop (Z.min (stop + chunkSize) len) pixels1
                (posted ++ [Worker.Progress (fraction stop len)])
                ltac:(lia) ltac:(lia) Hnext ltac:(lia))
      as (pixels' & fractions & Hrun & Hl & Hj & Hnd & Hall & Hlast).
    exists pixels', (fraction stop len :: fractions).
    split; [rewrite Hrun; by rewrite <- !app_assoc|].
    split; [lia|]. split.
    { intros j. rewrite Hj, Hl1, Hj1.
      repeat case_decide; try done; exfalso; lia. }
    assert (Hle : (fraction stop len
                   <= fraction (Z.min (stop + chunkSize) len) len)%Q)
      by (apply fraction_le; lia).
    split.
    { destruct fractions as [|q rest]; [done|].
      split; [|done]. inversion Hall; subst.
      by apply Qle_trans with (fraction (Z.min (stop + chunkSize) len) len). }
    split.
    { constructor; [apply Qle_refl|].
      eapply Forall_impl; [exact Hall|]. intros q Hq. simpl in *.
      by apply Qle_trans with (fraction (Z.min (stop + chunkSize) len) len). }
    destruct fractions as [|q rest]; [done|]. exact Hlast.
  - apply Z.ltb_ge in E. assert (stop = len) as Heq by lia.
    exists pixels1, [fraction stop len].
    split; [by rewrite <- app_assoc|]. split; [done|]. split.
    { intros j. rewrite Hj1. rewrite Heq. done. }
    split; [done|]. split; [constructor; [apply Qle_refl|constructor]|].
    by rewrite Heq.
Qed.

End EncodeWorker.

Section DecodeWorker.

Lemma read_loop data headerSize dataLength stop rounds :
  0 <= headerSize -> stop <= dataLength ->
  forall i s,
    0 <= i -> stop - i <= Z.of_nat rounds ->
    (forall k, i <= k < stop ->
       channel_index (k + headerSize) < byteLength data) ->
    let s' := for_loop rounds i 1 (fun i _ => i <? stop)
                (Worker.readByte data headerSize dataLength) s in
    snd s' = snd s + Z.max 0 (stop - i)
    /\ byteLength (fst s') = byteLength (fst s)
    /\ forall k, at_index (fst s') k
         = if decide (i <= k < stop /\ k < byteLength (fst s))
           then Some (toUint8 (byte_at data (channel_index (k + headerSize))))
           else at_index (fst s) k.
Proof.
  intros Hhs Hstop.
  induction rounds as [|rounds IH]; intros i s Hi Hrounds Hgood.
  - cbn [for_loop]. split; [lia|]. split; [done|]. intros k.
    case_decide; [lia|done].
  - cbn [for_loop]. destruct (i <? stop) eqn:E.
    + apply Z.ltb_lt in E.
      set (s1 := Worker.readByte data headerSize dataLength i s).
      assert (H1 : s1 = (store (fst s) i
                           (toUint8 (byte_at data
                                       (channel_index (i + headerSize)))),
                         snd s + 1)).
      { unfold s1, Worker.readByte. cbv zeta.
        rewrite Z.rem_mod_nonneg by lia. fold (channel_index (i + headerSize)).
        destruct (i <? dataLength) eqn:E1; [|apply Z.ltb_ge in E1; lia].
        destruct (_ <? byteLength data) eqn:E2; [done|].
        apply Z.ltb_ge in E2. specialize (Hgood i ltac:(lia)). lia. }
      destruct (IH (i + 1) s1 ltac:(lia) ltac:(lia))
        as (Hn & Hl & Hk).
      { intros k Hkr. apply Hgood. lia. }
      rewrite H1 in Hn, Hl, Hk. cbn [fst snd] in Hn, Hl, Hk.
      rewrite byteLength_store in Hl, Hk.
      fold s1. rewrite H1.
      split; [lia|]. split; [done|]. intros k. rewrite Hk.
      rewrite at_index_store.
      repeat case_decide; try done; try lia.
      destruct H0 as [-> _]. done.
    + apply Z.ltb_ge in E. split; [lia|]. split; [done|]. intros k.
      case_decide; [lia|done].
Qed.

(** Past the end of the image nothing is copied and nothing is
    counted. *)
Lemma read_loop_bound data headerSize dataLength stop good rounds :
  0 <= headerSize ->
  (forall k, good <= k ->
     byteLength data <= channel_index (k + headerSize)) ->
  forall i s,
    0 <= i <= stop -> snd s <= Z.min i good ->
    snd (for_loop rounds i 1 (fun i _ => i <? stop)
           (Worker.readByte data headerSize dataLength) s)
    <= Z.min stop good.
Proof.
  intros Hhs Hbad.
  induction rounds as [|rounds IH]; intros i s Hi Hs.
  - cbn [for_loop]. lia.
  - cbn [for_loop]. destruct (i <? stop) eqn:E; [|lia].
    apply Z.ltb_lt in E. apply IH; [lia|].
    unfold Worker.readByte. cbv zeta.
    rewrite Z.rem_mod_nonneg by lia. fold (channel_index (i + headerSize)).
    destruct (i <? dataLength); cbn [andb]; [|lia].
    destruct (_ <? byteLength data) eqn:E2; [|lia].
    apply Z.ltb_lt in E2. cbn [snd].
    destruct (decide (good <= i)) as [Hge|Hlt]; [|lia].
    specialize (Hbad i Hge). lia.
Qed.

Lemma decode_chain data headerSize dataLength chunkSize :
  0 < chunkSize -> 0 <= headerSize ->
  (forall k, 0 <= k < dataLength ->
     channel_index (k + headerSize) < byteLength data) ->
  forall timeouts start stop result posted,
    0 <= start <= stop -> stop <= dataLength ->
    byteLength result = dataLength ->
    Worker.rem_is_zero stop chunkSize || (dataLength <=? stop) = true ->
    dataLength - stop < Z.of_nat timeouts ->
    exists result' fractions,
      Worker.decode_processChunk timeouts data headerSize dataLength
        chunkSize start stop (result, start) posted
      = Some (posted ++ (Worker.Progress <$> fractions)
              ++ [Worker.Complete result'])
      /\ byteLength result' = dataLength
      /\ (forall k, at_index result' k
            = if decide (start <= k < dataLength)
              then Some (toUint8
                           (byte_at data (channel_index (k + headerSize))))
              else at_index result k)
      /\ nondecreasing fractions
      /\ Forall (fun q => (fraction stop dataLength <= q)%Q) fractions
      /\ last fractions = Some (fraction dataLength dataLength).
Proof.
  intros Hchunk Hhs Hgood.
  induction timeouts as [|timeouts IH];
    intros start stop result posted Hstart Hstop Hlen Hpost Hfuel; [lia|].
  cbn [Worker.decode_processChunk].
  destruct (read_loop data headerSize dataLength stop
              (Z.to_nat (stop - start)) Hhs Hstop start (result, start)
              ltac:(lia) ltac:(lia))
    as (Hn & Hl & Hk).
  { intros k Hkr. apply Hgood. lia. }
  fold (for_range start stop 1 (Worker.readByte data headerSize dataLength)
          (result, start)) in Hn, Hl, Hk.
  destruct (for_range start stop 1 _ (result, start)) as [result1 n1].
  cbn [fst snd] in *.
  assert (n1 = stop) as -> by lia. rewrite Hpost.
  destruct (stop <? dataLength) eqn:E.
  - apply Z.ltb_lt in E.
    assert (Hnext : Worker.rem_is_zero (Z.min (stop + chunkSize) dataLength)
                      chunkSize
                    || (dataLength <=? Z.min (stop + chunkSize) dataLength)
                    = true).
    { destruct (Z.min_spec (stop + chunkSize) dataLength)
        as [[Hlt ->]|[Hge ->]].
      - apply orb_true_intro. left. apply rem_is_zero_next; [done|lia|].
        apply orb_prop in Hpost as [Hz|Hz]; [done|].
        apply Z.leb_le in Hz. lia.
      - apply orb_true_intro. right. apply Z.leb_le. lia. }
    destruct (IH stop (Z.min (stop + chunkSize) dataLength) result1
                (posted ++ [Worker.Progress (fraction stop dataLength)])
                ltac:(lia) ltac:(lia) ltac:(lia) Hnext ltac:(lia))
      as (result' & fractions & Hrun & Hl' & Hk' & Hnd & Hall & Hlast).
    exists result', (fraction stop dataLength :: fractions).
    split; [rewrite Hrun; by rewrite <- !app_assoc|].
    split; [done|]. split.
    { intros k. rewrite Hk', Hk.
      repeat case_decide; try done; exfalso; lia. }
    assert (Hle : (fraction stop dataLength
                   <= fraction (Z.min (stop + chunkSize) dataLength)
                        dataLength)%Q)
      by (apply fraction_le; lia).
    split.
    { destruct fractions as [|q rest]; [done|].
      split; [|done]. apply Forall_cons in Hall as [Hq _].
      by apply Qle_trans
           with (fraction (Z.min (stop + chunkSize) dataLength) dataLength). }
    split.
    { constructor; [apply Qle_refl|].
      eapply Forall_impl; [exact Hall|]. intros q Hq. simpl in *.
      by apply Qle_trans
           with (fraction (Z.min (stop + chunkSize) dataLength) dataLength). }
    destruct fractions as [|q rest]; [done|]. exact Hlast.
  - apply Z.ltb_ge in E. assert (stop = dataLength) as Heq by lia.
    exists result1, [fraction stop dataLength].
    split; [by rewrite <- app_assoc|]. split; [lia|]. split.
    { intros k. rewrite Hk. rewrite Heq.
      repeat case_decide; try done; exfalso; lia. }
    split; [done|]. split; [constructor; [apply Qle_refl|constructor]|].
    by rewrite Heq.
Qed.

(** When the image is too small for the declared length the count of
    bytes never reaches it, and every chunk schedules another one. *)
Lemma decode_chain_stuck data headerSize dataLength chunkSize good :
  0 < chunkSize -> 0 <= headerSize -> good < dataLength ->
  (forall k, good <= k ->
     byteLength data <= channel_index (k + headerSize)) ->
  forall timeouts start stop s posted,
    0 <= start <= stop -> stop <= dataLength ->
    snd s <= Z.min start good ->
    Worker.decode_processChunk timeouts data headerSize dataLength
      chunkSize start stop s posted = None.
Proof.
  intros Hchunk Hhs Hgood Hbad.
  induction timeouts as [|timeouts IH];
    intros start stop s posted Hstart Hstop Hs; [done|].
  cbn [Worker.decode_processChunk].
  pose proof (read_loop_bound data headerSize dataLength stop good
                (Z.to_nat (stop - start)) Hhs Hbad start s Hstart Hs)
    as Hn.
  fold (for_range start stop 1 (Worker.readByte data headerSize dataLength)
          s) in Hn.
  destruct (for_range start stop 1 _ s) as [result1 n1].
  cbn [fst snd] in *.
  destruct (n1 <? dataLength) eqn:E; [|apply Z.ltb_ge in E; lia].
  apply IH; cbn [snd]; lia.
Qed.

End DecodeWorker.

Section Registry.

Lemma createWorker_accounted type r :
  accounted r -> accounted (snd (Worker.createWorker type r)).
Proof.
  intros Hr. pose proof Hr as (Hterm & Hall & Henc & Hdec).
  unfold Worker.createWorker.
  destruct (String.eqb type "encode").
  - destruct (Worker.encodeWorker r) as [e|] eqn:He; [exact Hr|].
    cbn [snd]. split; [|split; [|split]]; cbn.
    + intros w Hw. specialize (Hterm w Hw). lia.
    + intros w Hw. destruct (decide (w = Worker.created r)) as [->|Hne].
      * right. by left.
      * destruct (Hall w ltac:(lia)) as [Ht|[Hc|Hc]];
          [by left | congruence | right; by right].
    + intros w [= <-]. split; [lia|]. split.
      * intros Ht. specialize (Hterm _ Ht). lia.
      * intros Hd. destruct (Hdec _ Hd) as [Hlt _]. lia.
    + intros w Hd. destruct (Hdec _ Hd) as [Hlt Hnt]. split; [lia|done].
  - destruct (Worker.decodeWorker r) as [d|] eqn:Hd; [exact Hr|].
    cbn [snd]. split; [|split; [|split]]; cbn.
    + intros w Hw. specialize (Hterm w Hw). lia.
    + intros w Hw. destruct (decide (w = Worker.created r)) as [->|Hne].
      * right. by right.
      * destruct (Hall w ltac:(lia)) as [Ht|[Hc|Hc]];
          [by left | right; by left | congruence].
    + intros w He. destruct (Henc _ He) as (Hlt & Hnt & _).
      split; [lia|]. split; [done|]. intros [= Heq]. lia.
    + intros w [= <-]. split; [lia|].
      intros Ht. specialize (Hterm _ Ht). lia.
Qed.

Lemma terminateWorker_accounted type r :
  accounted r -> accounted (Worker.terminateWorker type r).
Proof.
  intros Hr. pose proof Hr as (Hterm & Hall & Henc & Hdec).
  unfold Worker.terminateWorker.
  assert (Hstop_decoder :
            forall d, Worker.decodeWorker r = Some d ->
              accounted (Worker.mkRegistry (Worker.encodeWorker r) None
                           (Worker.created r) (d :: Worker.terminated r))).
  { intros d Hd. destruct (Hdec _ Hd) as [Hlt Hnt].
    split; [|split; [|split]]; cbn.
    - intros w Hw. apply elem_of_cons in Hw as [->|Hw]; [done|].
      by apply Hterm.
    - intros w Hw. rewrite elem_of_cons.
      destruct (Hall w Hw) as [Ht|[Hc|Hc]];
        [left; by right | right; by left | left; left; congruence].
    - intros w He. destruct (Henc _ He) as (Hlt' & Hnt' & Hne).
      split; [done|]. split; [|done].
      apply not_elem_of_cons. split; [congruence|done].
    - done. }
  assert (Hstop_any :
            accounted match Worker.decodeWorker r with
                      | Some w =>
                          Worker.mkRegistry (Worker.encodeWorker r) None
                            (Worker.created r) (w :: Worker.terminated r)
                      | None => r
                      end).
  { destruct (Worker.decodeWorker r) as [d|] eqn:Hd;
      [by apply Hstop_decoder|exact Hr]. }
  destruct (String.eqb type "encode"); [|exact Hstop_any].
  destruct (Worker.encodeWorker r) as [e|] eqn:He; [|exact Hstop_any].
  destruct (Henc _ eq_refl) as (Hlt & Hnt & Hne).
  split; [|split; [|split]]; cbn.
  - intros w Hw. apply elem_of_cons in Hw as [->|Hw]; [done|].
    by apply Hterm.
  - intros w Hw. rewrite elem_of_cons.
    destruct (Hall w Hw) as [Ht|[Hc|Hc]];
      [left; by right | left; left; congruence | right; by right].
  - done.
  - intros w Hd. destruct (Hdec _ Hd) as [Hlt' Hnt']. split; [done|].
    apply not_elem_of_cons. split; [congruence|done].
Qed.

Lemma call_accounted r c : accounted r -> accounted (call r c).
Proof.
  intros Hr. destruct c as [type|type|]; cbn [call].
  - by apply createWorker_accounted.
  - by apply terminateWorker_accounted.
  - unfold Worker.terminateAllWorkers. by do 2 apply terminateWorker_accounted.
Qed.

Lemma calls_accounted cs : accounted (calls cs).
Proof.
  unfold calls.
  assert (H0 : accounted Worker.initial).
  { split; [|split; [|split]]; cbn; try done.
    - intros w Hw. by apply elem_of_nil in Hw.
    - intros w Hw. lia. }
  revert H0. generalize Worker.initial.
  induction cs as [|c cs IH]; intros r Hr; [done|].
  cbn [fold_left]. apply IH. by apply call_accounted.
Qed.

Lemma terminateAllWorkers_slots r :
  Worker.encodeWorker (Worker.terminateAllWorkers r) = None
  /\ Worker.decodeWorker (Worker.terminateAllWorkers r) = None.
Proof.
  unfold Worker.terminateAllWorkers, Worker.terminateWorker.
  change (String.eqb "encode" "encode") with true.
  change (String.eqb "decode" "encode") with false.
  destruct (Worker.encodeWorker r) as [e|] eqn:He,
    (Worker.decodeWorker r) as [d|] eqn:Hd; cbn; rewrite ?He, ?Hd; done.
Qed.

End Registry.

(** ** The callers of the multi-file writer *)

Section Callers.

(** Every list that holds a file is rejected: its first file header
    cannot be built. *)
Lemma encodeFilesToCanvas_Rejected files :
  files <> [] -> Canvas.encodeFilesToCanvas files = Rejected RangeError.
Proof.
  intros Hne. destruct files as [|file files]; [done|].
  unfold Canvas.encodeFilesToCanvas, Canvas.buildContainer.
  destruct (mainHeader_Ok (Z.min (Z.of_nat (length (file :: files))) 255))
    as (header & -> & _).
  destruct (Z.to_nat (Z.min (Z.of_nat (length (file :: files))) 255))
    as [|k] eqn:E; [simpl length in E; lia|].
  cbn [bind take Canvas.prepareHeaders].
  by rewrite buildFileHeader_RangeError.
Qed.

Lemma validateEach_Returned newFiles maxSize st :
  Forall (fun file => Embed.size file <= maxSize * 1024 * 1024) newFiles ->
  Embed.validateEach newFiles maxSize st = (Embed.Returned, st).
Proof.
  induction 1 as [|file rest Hfile _ IH]; [done|].
  cbn [Embed.validateEach]. unfold Embed.validateFileSize.
  destruct (_ <? _) eqn:E; [apply Z.ltb_lt in E; lia|]. exact IH.
Qed.

Lemma validateEach_Thrown newFiles maxSize st :
  Exists (fun file => maxSize * 1024 * 1024 < Embed.size file) newFiles ->
  exists file,
    file ∈ newFiles
    /\ Embed.validateEach newFiles maxSize st
       = (Embed.Thrown (Embed.FileTooLarge (Embed.name file) maxSize),
          Embed.showError (Embed.FileTooLarge (Embed.name file) maxSize) st).
Proof.
  induction newFiles as [|file rest IH]; intros Hex.
  { by apply Exists_nil in Hex. }
  cbn [Embed.validateEach]. unfold Embed.validateFileSize.
  destruct (_ <? _) eqn:E.
  - exists file. split; [apply list_elem_of_here|done].
  - apply Z.ltb_ge in E. apply Exists_cons in Hex as [Hbig|Hex]; [lia|].
    destruct (IH Hex) as (f & Hin & Hrun).
    exists f. split; [by apply list_elem_of_further|done].
Qed.

Lemma readAll_frame files total :
  forall filesWithData processedCount st,
    match Embed.readAll files total filesWithData processedCount st with
    | (completion, filesWithData', st') =>
        Embed.disabled st' = Embed.disabled st
        /\ Embed.previewCanvas st' = Embed.previewCanvas st
        /\ Embed.selectedFiles st' = Embed.selectedFiles st
        /\ completion <> Embed.Waiting
        /\ (completion = Embed.Returned ->
            length filesWithData'
            = (length filesWithData + length files)%nat
            /\ Embed.shown st' = Embed.shown st)
    end.
Proof.
  induction files as [|file rest IH]; intros filesWithData processedCount st.
  - cbn. repeat split; [done|lia].
  - cbn [Embed.readAll]. destruct (Embed.contents file) as [arrayBuffer|].
    + match goal with
      | |- context [Embed.readAll rest total ?f ?n ?s] =>
          specialize (IH f n s);
          destruct (Embed.readAll rest total f n s) as [[c f'] s']
      end.
      cbn in IH. destruct IH as (Hd & Hc & Hs & Hw & Hr).
      repeat split; try done.
      * destruct (Hr H) as [Hlen _]. rewrite Hlen, length_app. simpl. lia.
      * by destruct (Hr H) as [_ Hshown].
    + cbn. repeat split; done.
Qed.

(** *** escapeHtml *)

Lemma chars_append (s t : string) :
  list_ascii_of_string (s ++ t)
  = list_ascii_of_string s ++ list_ascii_of_string t.
Proof. induction s as [|a s IH]; [done|]. simpl. by rewrite IH. Qed.

Lemma replace_all_keeps (P : ascii -> Prop) c replacement s :
  Forall P (list_ascii_of_string replacement) ->
  Forall P (list_ascii_of_string s) ->
  Forall P (list_ascii_of_string (Embed.replace_all c replacement s)).
Proof.
  intros Hr. induction s as [|a s IH]; intros Hs; [done|].
  cbn [Embed.replace_all]. cbn [list_ascii_of_string] in Hs.
  apply Forall_cons in Hs as [Ha Hs].
  destruct (Ascii.eqb a c).
  - rewrite chars_append. apply Forall_app_2; [done|by apply IH].
  - cbn [list_ascii_of_string]. apply Forall_cons. split; [done|by apply IH].
Qed.

Lemma replace_all_removes c replacement s :
  Forall (fun a => a <> c) (list_ascii_of_string replacement) ->
  Forall (fun a => a <> c)
    (list_ascii_of_string (Embed.replace_all c replacement s)).
Proof.
  intros Hr. induction s as [|a s IH]; [done|].
  cbn [Embed.replace_all]. destruct (Ascii.eqb a c) eqn:E.
  - rewrite chars_append. by apply Forall_app_2.
  - cbn [list_ascii_of_string]. apply Forall_cons. split; [|done].
    by apply Ascii.eqb_neq.
Qed.

End Callers.

(** ** The shape of the planned canvas *)

Section Shape.

Lemma ceil_div_lower a b : 0 < b -> (ceil_div a b - 1) * b < a.
Proof. intros Hb. unfold ceil_div. div_lia. Qed.

(** The canvas planned for [p] pixels: no spare row, never taller than
    wide, and at most one column wider than the square root asks for. *)
Lemma planned_shape p :
  0 < p ->
  let side := ceil_sqrt p in
  let w := if side mod 2 =? 0 then side else side + 1 in
  let h := ceil_div p w in
  (h - 1) * w < p /\ p <= h * w /\ 0 < h <= w /\ (w - 2) * (w - 2) < p.
Proof.
  intros Hp side w h.
  pose proof (Z.sqrt_up_spec p Hp) as Hsqrt. fold (ceil_sqrt p) in Hsqrt.
  fold side in Hsqrt.
  replace (Z.pred side) with (side - 1) in Hsqrt by lia.
  assert (Hside : 0 < side) by (by apply ceil_sqrt_pos).
  assert (Hw : side <= w <= side + 1 /\ 2 <= w).
  { subst w. destruct (side mod 2 =? 0) eqn:E; [|lia].
    apply Z.eqb_eq in E. split; [lia|]. div_lia. }
  destruct Hw as [Hw Hw2].
  assert (Hw0 : 0 < w) by lia.
  pose proof (ceil_div_lower p w Hw0) as Hlow. fold h in Hlow.
  pose proof (ceil_div_upper p w Hw0) as Hup. fold h in Hup.
  pose proof (ceil_div_pos p w Hw0 Hp) as Hh. fold h in Hh.
  assert (Hsq : p <= w * w) by nia.
  assert (Hhw : h - 1 < w).
  { apply (Z.mul_lt_mono_pos_r w); [done|]. lia. }
  assert (Hsmall : (w - 2) * (w - 2) <= (side - 1) * (side - 1))
    by (apply Z.mul_le_mono_nonneg; lia).
  split; [done|]. split; [lia|]. split; [lia|lia].
Qed.

End Shape.

Section EncodeWorkerImage.

(** The messages of the encoding worker and the image it posts. *)
Lemma encode_onmessage_image (fileData : list Z)
    (width height chunkSize : Z) (timeouts : nat) :
  0 < chunkSize -> 0 <= width * height ->
  byteLength fileData < Z.of_nat timeouts ->
  exists pixels fractions,
    Worker.encode_onmessage timeouts fileData width height chunkSize
    = Ok (Some ((Worker.Progress <$> fractions)
                ++ [Worker.Complete (pixels, width, height)]))
    /\ byteLength pixels = width * height * 4
    /\ (forall j, 0 <= j < width * height * 4 ->
          at_index pixels j
          = Some (if (j mod 4 =? 3)
                     || (byteLength fileData <=? 3 * (j / 4) + j mod 4)
                  then 255
                  else toUint8Clamp
                         (byte_at fileData (3 * (j / 4) + j mod 4))))
    /\ nondecreasing fractions
    /\ (0 < byteLength fileData -> ends_at_one fractions).
Proof.
  intros Hchunk Hsize Hfuel.
  pose proof (byteLength_nonneg fileData) as Hlen.
  unfold Worker.encode_onmessage, Worker.alloc.
  destruct (width * height * 4 <? 0) eqn:E; [apply Z.ltb_lt in E; lia|].
  cbn [bind].
  set (blank := zeros (width * height * 4)).
  assert (Hblank : byteLength blank = 4 * (width * height))
    by (unfold blank; rewrite byteLength_zeros; lia).
  destruct (fillWhite_lookup (width * height) blank Hsize Hblank)
    as [Hwl Hwj].
  set (white := Worker.fillWhite blank) in *.
  destruct (encode_chain fileData width height chunkSize Hchunk timeouts
              0 (Z.min chunkSize (byteLength fileData)) white [])
    as (pixels & fractions & Hrun & Hl & Hj & Hnd & Hall & Hlast);
    [lia | lia | | lia |].
  { destruct (Z.min_spec chunkSize (byteLength fileData))
      as [[Hlt ->]|[Hge ->]].
    - apply orb_true_intro. left. unfold Worker.rem_is_zero.
      destruct (chunkSize =? 0) eqn:E0; [apply Z.eqb_eq in E0; lia|].
      rewrite Z.rem_same by lia. done.
    - apply orb_true_intro. right. apply Z.leb_le. lia. }
  exists pixels, fractions. split; [by rewrite Hrun|].
  split; [lia|]. split.
  { intros j Hjr. rewrite Hj, Hwl, Hwj by lia.
    destruct (j mod 4 =? 3) eqn:E3, (_ <=? _) eqn:E4; cbn [orb];
      rewrite ?Z.eqb_eq, ?Z.eqb_neq, ?Z.leb_le, ?Z.leb_gt in E3, E4;
      case_decide; try done; exfalso; div_lia. }
  split; [done|]. intros Hpos. unfold ends_at_one. rewrite Hlast.
  by apply fraction_one.
Qed.

End EncodeWorkerImage.

(** ** The single-file format, end to end *)

(** X1.  The image [encodeFileToCanvas] draws, for a file of any size:
    the canvas has the planned dimensions, and byte [i] of the header
    followed by the data is in channel [i mod 3] of pixel [i / 3], with
    alpha 255, exactly when byte [3 * (i / 3)] lies in a chunk whose
    number is a multiple of 3; the pixels of all other chunks are left
    transparent black. *)
Theorem single_file_writer_image (arrayBuffer : list Z)
    (filename mimeType : string) :
  Forall is_byte arrayBuffer ->
  let dims := Legacy.calculateCanvasSize (byteLength arrayBuffer) in
  exists header canvas progress,
    Legacy.buildHeader arrayBuffer filename mimeType = Ok header
    /\ Legacy.encodeFileToCanvas arrayBuffer filename mimeType
       = Resolved (canvas, progress)
    /\ Legacy.canvas_width canvas = Legacy.width dims
    /\ Legacy.canvas_height canvas = Legacy.height dims
    /\ byteLength (Legacy.pixels canvas)
       = Legacy.width dims * Legacy.height dims * 4
    /\ forall i b,
         at_index (header ++ arrayBuffer) i = Some b ->
         let drawn := (3 * (i / 3) / Legacy.CHUNK_SIZE) mod 3 =? 0 in
         at_index (Legacy.pixels canvas) (4 * (i / 3) + i mod 3)
         = Some (if drawn then b else 0)
         /\ at_index (Legacy.pixels canvas) (4 * (i / 3) + 3)
            = Some (if drawn then 255 else 0).
Proof.
  intros Hbytes dims.
  destruct (encodeFileToCanvas_pixels arrayBuffer filename mimeType)
    as (header & img & progress & Hheader & Hlen & He & Himg & Hj).
  fold dims in He, Himg, Hj.
  exists header, (Legacy.mkCanvas (Legacy.width dims) (Legacy.height dims) img),
    progress.
  cbn [Legacy.pixels Legacy.canvas_width Legacy.canvas_height].
  repeat (split; [done|]).
  intros i b Hi.
  set (drawn := (3 * (i / 3) / Legacy.CHUNK_SIZE) mod 3 =? 0).
  pose proof (buildHeader_bytes _ _ _ _ Hheader) as Hhb.
  assert (Hcb : Forall is_byte (header ++ arrayBuffer))
    by (by apply Forall_app_2).
  pose proof (at_index_Some_lt _ _ _ Hi) as Hrange.
  pose proof (at_index_byte _ _ _ Hcb Hi) as Hb.
  rewrite byteLength_app, Hlen in Hrange.
  pose proof (byteLength_nonneg arrayBuffer) as Hab.
  destruct (Legacy_calculateCanvasSize_holds (byteLength arrayBuffer) Hab)
    as (Hcap & _ & Hw & Hh). fold dims in Hcap, Hw, Hh.
  set (wh := Legacy.width dims * Legacy.height dims) in *.
  unfold Legacy.HEADER_SIZE in *.
  assert (Hpw : pixel_written (32 + byteLength arrayBuffer) (i / 3) = drawn).
  { unfold pixel_written, drawn.
    destruct (0 <=? i / 3) eqn:E0; [|apply Z.leb_gt in E0; div_lia].
    destruct (3 * (i / 3) <? 32 + byteLength arrayBuffer) eqn:E1;
      [done|apply Z.ltb_ge in E1; div_lia]. }
  split.
  - rewrite Hj by div_lia. f_equal.
    replace ((4 * (i / 3) + i mod 3) / 4) with (i / 3) by div_lia.
    rewrite Hpw. destruct drawn; [|done].
    unfold direct_channel.
    replace ((4 * (i / 3) + i mod 3) / 4) with (i / 3) by div_lia.
    replace ((4 * (i / 3) + i mod 3) mod 4) with (i mod 3) by div_lia.
    destruct (i mod 3 =? 3) eqn:E3; [apply Z.eqb_eq in E3; div_lia|].
    replace (3 * (i / 3) + i mod 3) with i by div_lia.
    rewrite byteLength_app, Hlen.
    destruct (i <? 32 + byteLength arrayBuffer) eqn:E;
      [|apply Z.ltb_ge in E; lia].
    rewrite (byte_at_Some _ _ _ Hi). by apply toUint8Clamp_byte.
  - rewrite Hj by div_lia. f_equal.
    replace ((4 * (i / 3) + 3) / 4) with (i / 3) by div_lia.
    rewrite Hpw. destruct drawn; [|done].
    unfold direct_channel.
    replace ((4 * (i / 3) + 3) mod 4) with 3 by div_lia. reflexivity.
Qed.

Lemma single_file_writer_image_witness :
  exists header canvas progress,
    Legacy.buildHeader [7; 8; 9] "a.txt" "text/plain" = Ok header
    /\ Legacy.encodeFileToCanvas [7; 8; 9] "a.txt" "text/plain"
       = Resolved (canvas, progress)
    /\ at_index (Legacy.pixels canvas) (4 * (33 / 3) + 33 mod 3) = Some 8.
Proof.
  destruct (single_file_writer_image [7; 8; 9] "a.txt" "text/plain")
    as (header & canvas & progress & Hheader & Hencode & _ & _ & _ & Hi).
  - repeat constructor; unfold is_byte; lia.
  - exists header, canvas, progress. split; [done|]. split; [done|].
    destruct (Hi 33 8) as [Hbyte _]; [|exact Hbyte].
    destruct (buildHeader_Ok [7; 8; 9] "a.txt" "text/plain")
      as (header' & Hheader' & Hlen).
    rewrite Hheader in Hheader'. injection Hheader' as <-.
    rewrite at_index_app_r by (rewrite Hlen; done).
    rewrite Hlen. reflexivity.
Defined.

(** X2.  A file too large for one chunk is not stored whole: every byte
    of the data whose index in the combined buffer lies above
    [CHUNK_SIZE] and below [3 * CHUNK_SIZE] is never drawn, and the
    channel it belongs to holds 0 in the finished image. *)
Theorem single_file_writer_drops_second_and_third_chunk
    (arrayBuffer : list Z) (filename mimeType : string) (k : Z) :
  0 <= k < byteLength arrayBuffer ->
  Legacy.CHUNK_SIZE < Legacy.HEADER_SIZE + k < 3 * Legacy.CHUNK_SIZE ->
  let i := Legacy.HEADER_SIZE + k in
  exists canvas progress,
    Legacy.encodeFileToCanvas arrayBuffer filename mimeType
    = Resolved (canvas, progress)
    /\ at_index (Legacy.pixels canvas) (4 * (i / 3) + i mod 3) = Some 0
    /\ at_index (Legacy.pixels canvas) (4 * (i / 3) + 3) = Some 0.
Proof.
  intros Hk Hchunk i.
  destruct (encodeFileToCanvas_pixels arrayBuffer filename mimeType)
    as (header & img & progress & Hheader & Hlen & He & Himg & Hj).
  eexists _, progress. split; [exact He|]. cbn [Legacy.pixels].
  pose proof (byteLength_nonneg arrayBuffer) as Hab.
  destruct (Legacy_calculateCanvasSize_holds (byteLength arrayBuffer) Hab)
    as (Hcap & _ & Hw & Hh).
  set (dims := Legacy.calculateCanvasSize (byteLength arrayBuffer)) in *.
  set (wh := Legacy.width dims * Legacy.height dims) in *.
  unfold Legacy.HEADER_SIZE, Legacy.CHUNK_SIZE in *.
  assert (Hpw : pixel_written (32 + byteLength arrayBuffer) (i / 3) = false).
  { unfold pixel_written, Legacy.CHUNK_SIZE.
    apply andb_false_intro2. apply Z.eqb_neq. subst i. div_lia. }
  split.
  - rewrite Hj by (subst i; div_lia).
    replace ((4 * (i / 3) + i mod 3) / 4) with (i / 3) by div_lia.
    by rewrite Hpw.
  - rewrite Hj by (subst i; div_lia).
    replace ((4 * (i / 3) + 3) / 4) with (i / 3) by div_lia.
    by rewrite Hpw.
Qed.

Lemma single_file_writer_drops_second_and_third_chunk_witness :
  exists canvas progress,
    Legacy.encodeFileToCanvas (replicate (Z.to_nat 600000) 7) "a.bin" ""
    = Resolved (canvas, progress)
    /\ at_index (Legacy.pixels canvas)
         (4 * ((32 + 599999) / 3) + (32 + 599999) mod 3) = Some 0.
Proof.
  destruct (single_file_writer_drops_second_and_third_chunk
              (replicate (Z.to_nat 600000) 7) "a.bin" "" 599999)
    as (canvas & progress & Hencode & Hbyte & _).
  - unfold byteLength. rewrite length_replicate. lia.
  - vm_compute. split; reflexivity.
  - exists canvas, progress. split; [exact Hencode|exact Hbyte].
Defined.

(** X3.  The 32-byte header of the single-file format: the length of
    the name (modulo 2^16) at 0, the first 20 bytes of the name at 2,
    the length of the mime type at 22, the first four bytes of the mime
    type at 24, and the length of the data at 28, written over bytes 4
    to 7 of the mime type. *)
Theorem single_file_header_layout (arrayBuffer : list Z)
    (filename mimeType : string) :
  let nameBytes := TextEncoder_encode filename in
  let mimeBytes := TextEncoder_encode mimeType in
  exists header,
    Legacy.buildHeader arrayBuffer filename mimeType = Ok header
    /\ byteLength header = Legacy.HEADER_SIZE
    /\ getUint16 header 0 = Ok (byteLength nameBytes mod 2 ^ 16)
    /\ (forall k, 0 <= k < 20 ->
          at_index header (2 + k) = Some (default 0 (at_index nameBytes k)))
    /\ getUint16 header 22 = Ok (byteLength mimeBytes mod 2 ^ 16)
    /\ (forall k, 0 <= k < 4 ->
          at_index header (24 + k) = Some (default 0 (at_index mimeBytes k)))
    /\ getUint32 header 28 = Ok (byteLength arrayBuffer mod 2 ^ 32)
    /\ slice header 28 32 = Uint32_bytes (byteLength arrayBuffer).
Proof.
  intros nameBytes mimeBytes.
  destruct (buildHeader_Ok arrayBuffer filename mimeType)
    as (header & Hheader & Hlen).
  destruct (buildHeader_layout _ _ _ _ Hheader)
    as (Hl & G0 & Hname & G22 & Hmime & G28 & Hsize).
  exists header. repeat (split; [done|]).
  assert (Hs : byteLength (slice header 28 32) = 4)
    by (rewrite byteLength_slice; lia).
  apply at_index_ext; [by rewrite Hs|].
  rewrite Hs. intros k Hk. rewrite at_index_slice by lia. by apply Hsize.
Qed.

(** X4.  When the header of a canvas passes the checks of
    [decodeFileFromCanvas], the promise resolves with exactly the
    declared number of bytes: byte [k] is channel [k mod 3] of pixel
    [11 + k / 3], the first pixel after the eleven header pixels, except
    that the last byte is left 0 when header and data fill their last
    pixel. *)
Theorem single_file_reader_bytes (canvas : Legacy.CanvasEl)
    (filename mimeType : string) (dataLength totalPixelsNeeded : Z) :
  Legacy.readMetadata canvas
  = Ok (filename, mimeType, dataLength, totalPixelsNeeded) ->
  exists data progress,
    Legacy.decodeFileFromCanvas canvas
    = Resolved (Legacy.mkDecoded filename mimeType data, progress)
    /\ byteLength data = dataLength
    /\ forall k, 0 <= k < dataLength ->
         at_index data k
         = Some (if (k =? dataLength - 1)
                    && ((dataLength + Legacy.HEADER_SIZE) mod 3 =? 0)
                 then 0
                 else read_channel (Legacy.pixels canvas) k).
Proof.
  intros Hmeta.
  destruct (readMetadata_Ok _ _ _ _ _ Hmeta) as (HL & HP & _).
  destruct (decodeFileFromCanvas_Ok _ _ _ _ _ Hmeta)
    as (data & progress & Hdec & (Hlen & _ & Hk) & _).
  cbn [fst snd] in Hlen, Hk.
  exists data, progress. split; [done|]. split; [done|].
  intros k Hkr. rewrite (Hk k Hkr). f_equal.
  subst totalPixelsNeeded. unfold Legacy.HEADER_SIZE.
  rewrite channels_offered by done.
  destruct ((dataLength + 32) mod 3 =? 0);
    destruct (k =? dataLength - 1) eqn:E1; cbn [andb];
    rewrite ?Z.eqb_eq, ?Z.eqb_neq in E1;
    destruct (k <? _) eqn:E2; rewrite ?Z.ltb_lt, ?Z.ltb_ge in E2;
    try done; lia.
Qed.

Lemma single_file_reader_bytes_witness :
  let canvas := Legacy.mkCanvas 4 3 (store (zeros 48) 37 1) in
  Legacy.readMetadata canvas
  = Ok (""%string, "application/octet-stream"%string, 1, 11)
  /\ exists data progress,
       Legacy.decodeFileFromCanvas canvas
       = Resolved (Legacy.mkDecoded "" "application/octet-stream" data,
                   progress)
       /\ byteLength data = 1.
Proof.
  intros canvas. split; [reflexivity|].
  destruct (single_file_reader_bytes canvas "" "application/octet-stream"
              1 11)
    as (data & progress & Hdec & Hlen & _); [reflexivity|].
  exists data, progress. split; [exact Hdec|exact Hlen].
Defined.

(** X5.  The fractions [decodeFileFromCanvas] reports never go down, and
    the last one is [bytesExtracted / dataLength]: 1, or
    [(dataLength - 1) / dataLength] when header and data fill their last
    pixel. *)
Theorem single_file_reader_progress (canvas : Legacy.CanvasEl)
    (filename mimeType : string) (dataLength totalPixelsNeeded : Z) :
  Legacy.readMetadata canvas
  = Ok (filename, mimeType, dataLength, totalPixelsNeeded) ->
  exists decoded progress,
    Legacy.decodeFileFromCanvas canvas = Resolved (decoded, progress)
    /\ nondecreasing progress
    /\ last progress
       = Some (fraction
                 (if (dataLength + Legacy.HEADER_SIZE) mod 3 =? 0
                  then dataLength - 1 else dataLength)
                 dataLength).
Proof.
  intros Hmeta.
  destruct (readMetadata_Ok _ _ _ _ _ Hmeta) as (HL & HP & _).
  destruct (decodeFileFromCanvas_Ok _ _ _ _ _ Hmeta)
    as (data & progress & Hdec & _ & Hnd & Hlast).
  eexists _, progress. split; [exact Hdec|]. split; [done|].
  rewrite Hlast. subst totalPixelsNeeded. unfold Legacy.HEADER_SIZE.
  by rewrite channels_offered.
Qed.

Lemma single_file_reader_progress_witness :
  let canvas := Legacy.mkCanvas 4 3 (store (zeros 48) 37 4) in
  exists decoded progress,
    Legacy.decodeFileFromCanvas canvas = Resolved (decoded, progress)
    /\ nondecreasing progress
    /\ last progress = Some (fraction 3 4).
Proof.
  intros canvas.
  apply (single_file_reader_progress canvas ""
           "application/octet-stream" 4 12).
  reflexivity.
Defined.

(** X6.  Writing a file of one chunk with [encodeFileToCanvas] and
    reading the canvas back with [decodeFileFromCanvas] does not return
    the file: the reader starts at pixel 11, whose red channel holds the
    second byte of the data, so the result is the data without its first
    byte, followed by one 0. *)
Theorem single_file_round_trip_shifts_data (arrayBuffer : list Z)
    (filename mimeType : string) :
  Forall is_byte arrayBuffer ->
  0 < byteLength arrayBuffer ->
  Legacy.HEADER_SIZE + byteLength arrayBuffer <= Legacy.CHUNK_SIZE ->
  exists canvas progress decoded progress',
    Legacy.encodeFileToCanvas arrayBuffer filename mimeType
    = Resolved (canvas, progress)
    /\ Legacy.decodeFileFromCanvas canvas = Resolved (decoded, progress')
    /\ Legacy.data decoded = drop 1 arrayBuffer ++ [0].
Proof.
  intros Hbytes Hn Hfit.
  destruct (encodeFileToCanvas_pixels arrayBuffer filename mimeType)
    as (header & img & progress & _ & _ & He & _).
  unfold Legacy.HEADER_SIZE, Legacy.CHUNK_SIZE in Hfit.
  destruct (decode_of_written arrayBuffer filename mimeType _ progress
              Hbytes ltac:(lia) He)
    as (decoded & progress' & Hdec & Hlen & Hk).
  eexists _, progress, decoded, progress'.
  split; [exact He|]. split; [exact Hdec|].
  assert (Hd : byteLength (drop 1 arrayBuffer) = byteLength arrayBuffer - 1).
  { unfold byteLength in *. rewrite length_drop. lia. }
  apply at_index_ext.
  { rewrite Hlen, byteLength_app, Hd. unfold byteLength. simpl. lia. }
  rewrite Hlen. intros k Hkr. rewrite (Hk k Hkr).
  assert (Hw : pixel_written (Legacy.HEADER_SIZE + byteLength arrayBuffer)
                 (11 + k / 3)
               = (3 * (11 + k / 3) <? 32 + byteLength arrayBuffer)).
  { unfold pixel_written, Legacy.HEADER_SIZE, Legacy.CHUNK_SIZE.
    destruct (0 <=? 11 + k / 3) eqn:E0; [|apply Z.leb_gt in E0; div_lia].
    destruct (3 * (11 + k / 3) <? 32 + byteLength arrayBuffer) eqn:E1;
      [|done].
    apply Z.ltb_lt in E1. cbn [andb]. apply Z.eqb_eq. div_lia. }
  rewrite Hw.
  destruct (decide (k < byteLength arrayBuffer - 1)) as [Hlow|Hlast].
  - rewrite at_index_app_l by lia.
    destruct (_ <? _) eqn:E; [|apply Z.ltb_ge in E; div_lia].
    unfold at_index.
    destruct (k <? 0) eqn:E0; [apply Z.ltb_lt in E0; lia|].
    destruct (k + 1 <? 0) eqn:E1; [apply Z.ltb_lt in E1; lia|].
    rewrite lookup_drop.
    replace (Z.to_nat (k + 1)) with (1 + Z.to_nat k)%nat by lia.
    destruct (arrayBuffer !! _) as [b|] eqn:Eb; [done|].
    apply lookup_ge_None_1 in Eb. unfold byteLength in *. lia.
  - rewrite at_index_app_r by lia. rewrite Hd.
    replace (k - (byteLength arrayBuffer - 1)) with 0 by lia.
    rewrite (at_index_None arrayBuffer (k + 1)) by lia.
    by destruct (_ <? _).
Qed.

Lemma single_file_round_trip_shifts_data_witness :
  exists canvas progress decoded progress',
    Legacy.encodeFileToCanvas [7; 8; 9] "a.txt" "text/plain"
    = Resolved (canvas, progress)
    /\ Legacy.decodeFileFromCanvas canvas = Resolved (decoded, progress')
    /\ Legacy.data decoded = [8; 9; 0].
Proof.
  apply (single_file_round_trip_shifts_data [7; 8; 9] "a.txt" "text/plain").
  - repeat constructor; unfold is_byte; lia.
  - reflexivity.
  - vm_compute. discriminate.
Defined.

(** X7.  What comes back of the name and the type after a round trip
    of a file that is not empty through the single-file format: the
    reader decodes the first 20 bytes of the name, and for a mime type
    of 8 bytes or more it decodes the first four bytes of the type
    followed by the four bytes of the data length.  Where these bytes
    are ASCII the name it returns is the first 20 characters of the
    name, and the type is the text of those eight bytes. *)
Theorem single_file_round_trip_name_and_type (arrayBuffer : list Z)
    (filename mimeType : string) :
  0 < byteLength arrayBuffer < 2 ^ 32 ->
  byteLength (TextEncoder_encode filename) < 2 ^ 16 ->
  8 <= byteLength (TextEncoder_encode mimeType) < 2 ^ 16 ->
  let nameBytes := prefix (TextEncoder_encode filename) 20 in
  let typeBytes := prefix (TextEncoder_encode mimeType) 4
                   ++ Uint32_bytes (byteLength arrayBuffer) in
  exists canvas progress decoded progress',
    Legacy.encodeFileToCanvas arrayBuffer filename mimeType
    = Resolved (canvas, progress)
    /\ Legacy.decodeFileFromCanvas canvas = Resolved (decoded, progress')
    /\ slice (Legacy.readHeader (Legacy.pixels canvas)) 2
         (2 + Z.min 20 (byteLength (TextEncoder_encode filename)))
       = nameBytes
    /\ slice (Legacy.readHeader (Legacy.pixels canvas)) 24 32 = typeBytes
    /\ (ascii_bytes nameBytes ->
        Legacy.filename decoded = substring 0 20 filename)
    /\ (ascii_bytes typeBytes ->
        Legacy.mimeType decoded = TextDecoder_decode typeBytes).
Proof.
  intros Hn Hname Hmime nameBytes typeBytes.
  destruct (encodeFileToCanvas_pixels arrayBuffer filename mimeType)
    as (header & img & progress & Hheader & _ & He & _).
  pose proof (readHeader_of_written _ _ _ _ _ _ Hheader He) as Hread.
  pose proof (readMetadata_written _ _ _ _ _ _ Hheader He ltac:(lia))
    as Hmeta. cbv zeta in Hmeta.
  destruct (byteLength arrayBuffer =? 0) eqn:E0;
    [apply Z.eqb_eq in E0; lia|]. clear E0.
  pose proof (slice_name _ _ _ _ Hheader Hname) as Hsn.
  pose proof (slice_mime _ _ _ _ Hheader Hmime) as Hsm.
  cbv zeta in Hsn, Hsm.
  rewrite Hsn, Hsm in Hmeta.
  rewrite (Z.mod_small (byteLength (TextEncoder_encode filename))) in Hsn
    by (pose proof (byteLength_nonneg (TextEncoder_encode filename)); lia).
  rewrite (Z.mod_small (byteLength (TextEncoder_encode mimeType))) in Hsm
    by lia.
  replace (24 + Z.min 8 (byteLength (TextEncoder_encode mimeType)))
    with 32 in Hsm by lia.
  destruct (0 <? _) eqn:E in Hmeta;
    [|apply Z.ltb_ge in E; rewrite Z.mod_small in E by lia; lia].
  destruct (decodeFileFromCanvas_Ok _ _ _ _ _ Hmeta)
    as (data & progress' & Hdec & _).
  eexists _, progress, _, progress'.
  split; [exact He|]. split; [exact Hdec|].
  cbn [Legacy.pixels Legacy.filename Legacy.mimeType] in *.
  rewrite Hread. split; [exact Hsn|]. split; [exact Hsm|].
  split; [|done].
  intros Hascii. by apply TextDecoder_decode_prefix.
Qed.

Lemma single_file_round_trip_name_and_type_witness :
  exists canvas progress decoded progress',
    Legacy.encodeFileToCanvas [7; 8; 9] "a.txt" "text/plain"
    = Resolved (canvas, progress)
    /\ Legacy.decodeFileFromCanvas canvas = Resolved (decoded, progress')
    /\ Legacy.filename decoded = "a.txt"%string
    /\ Legacy.mimeType decoded
       = TextDecoder_decode
           (TextEncoder_encode "text" ++ [3; 0; 0; 0]).
Proof.
  destruct (single_file_round_trip_name_and_type [7; 8; 9] "a.txt"
              "text/plain")
    as (canvas & progress & decoded & progress' & He & Hd & _ & _
        & Hname & Htype).
  - vm_compute. split; reflexivity.
  - vm_compute. reflexivity.
  - vm_compute. split; [discriminate|reflexivity].
  - exists canvas, progress, decoded, progress'.
    split; [exact He|]. split; [exact Hd|]. split.
    + apply Hname. unfold ascii_bytes.
      repeat (apply Forall_cons;
              split; [vm_compute; split; [discriminate|reflexivity]|]).
      apply Forall_nil. done.
    + apply Htype. unfold ascii_bytes.
      repeat (apply Forall_cons;
              split; [vm_compute; split; [discriminate|reflexivity]|]).
      apply Forall_nil. done.
Defined.

(** X8.  An empty file can be written but not read back: the header
    declares 0 bytes, which [decodeFileFromCanvas] rejects as an invalid
    data length. *)
Theorem single_file_round_trip_rejects_empty_file
    (filename mimeType : string) :
  exists canvas progress,
    Legacy.encodeFileToCanvas [] filename mimeType
    = Resolved (canvas, progress)
    /\ Legacy.decodeFileFromCanvas canvas = Rejected InvalidDataLength.
Proof.
  destruct (encodeFileToCanvas_pixels [] filename mimeType)
    as (header & img & progress & Hheader & _ & He & _).
  eexists _, progress. split; [exact He|].
  pose proof (readMetadata_written _ _ _ _ _ _ Hheader He ltac:(done))
    as Hmeta. cbv zeta in Hmeta.
  change (byteLength [] =? 0) with true in Hmeta. cbv iota in Hmeta.
  unfold Legacy.decodeFileFromCanvas. by rewrite Hmeta.
Qed.

(** ** The multi-file reader *)

(** X9.  What a successful [extractFilesFromCanvas] returns: between one
    file and as many as the header counts; file [k] is the entry of the
    header at [64 + 128 * k], with the bytes of the buffer between the
    bounds that header gives; and the list ends before the count only
    where the buffer has no room for another header or where the next
    entry leaves the buffer, whatever the entries after it hold. *)
Theorem extract_returns_leading_entries
    (extractDataFromCanvas : Canvas.CanvasEl -> Promise (list Z * list Q))
    (canvas : Canvas.CanvasEl) (ab : list Z) (pre : list Q)
    (files : list Canvas.File) (progress : list Q) :
  extractDataFromCanvas canvas = Resolved (ab, pre) ->
  Canvas.extractFilesFromCanvas extractDataFromCanvas canvas
  = Resolved (files, progress) ->
  let kept := Z.of_nat (length files) in
  exists fileCount,
    getUint8 ab 5 = Ok fileCount
    /\ 0 < kept <= fileCount
    /\ (forall k file, files !! k = Some file ->
          exists name type dataStart dataEnd,
            Canvas.readFileHeader ab fileCount
              (Canvas.HEADER_SIZE + Canvas.FILE_HEADER_SIZE * Z.of_nat k)
            = Ok (name, type, dataStart, dataEnd)
            /\ dataEnd <= byteLength ab
            /\ file = Canvas.mkFile name (Some type)
                        (slice ab dataStart dataEnd))
    /\ (kept = fileCount
        \/ byteLength ab
           < Canvas.HEADER_SIZE + Canvas.FILE_HEADER_SIZE * (kept + 1)
        \/ exists name type dataStart dataEnd,
             Canvas.readFileHeader ab fileCount
               (Canvas.HEADER_SIZE + Canvas.FILE_HEADER_SIZE * kept)
             = Ok (name, type, dataStart, dataEnd)
             /\ byteLength ab < dataEnd).
Proof.
  intros Hread Hextract kept.
  rewrite (extract_settles _ _ _ _ Hread) in Hextract.
  destruct (Canvas.parseContainer ab pre) as [[files' progress']|] eqn:Hp;
    [|done].
  injection Hextract as -> ->.
  destruct (parse_Ok_header _ _ _ _ Hp)
    as (fileCount & Hc & Hne & Hsome & Hloop).
  destruct (readHeaders_prefix _ _ _ _ _ _ _ _ _ Hloop)
    as (added & Hadded & Hlen & Hk & Hstop).
  cbn [app] in Hadded. subst added. fold kept in Hstop.
  exists fileCount. split; [done|].
  assert (Hpos : 0 < kept) by (unfold kept; destruct files; [done|simpl; lia]).
  split; [unfold kept in *; lia|]. split; [exact Hk|].
  destruct Hstop as [Hall|[Hend|Hout]].
  - left. unfold kept in *. lia.
  - right. left. lia.
  - right. by right.
Qed.

Lemma extract_returns_leading_entries_witness :
  exists fileCount,
    getUint8 Samples.one_file 5 = Ok fileCount
    /\ 0 < 1 <= fileCount.
Proof.
  destruct (extract_returns_leading_entries
              (Samples.reads Samples.one_file) Samples.blank
              Samples.one_file [1%Q]
              [Canvas.mkFile "a.txt" (Some "text/plain"%string) [0; 0; 0]]
              [1%Q; fraction 1 2])
    as (fileCount & Hc & Hkept & _).
  - reflexivity.
  - vm_compute. reflexivity.
  - exists fileCount. split; [exact Hc|exact Hkept].
Defined.

(** X10.  A container whose buffer ends fewer than three bytes after its
    first file header cannot be read: the data offset is read at byte
    127 of the 128-byte header, across its end, and the read is out of
    bounds.  A container that holds one file of fewer than three bytes
    is such a buffer. *)
Theorem extract_rejects_short_data_section
    (extractDataFromCanvas : Canvas.CanvasEl -> Promise (list Z * list Q))
    (canvas : Canvas.CanvasEl) (ab : list Z) (pre : list Q) (fileCount : Z) :
  extractDataFromCanvas canvas = Resolved (ab, pre) ->
  take 4 ab = magic -> at_index ab 4 = Some 1 ->
  at_index ab 5 = Some fileCount -> 0 < fileCount ->
  Canvas.HEADER_SIZE + Canvas.FILE_HEADER_SIZE <= byteLength ab
  < Canvas.HEADER_SIZE + Canvas.FILE_HEADER_SIZE + 3 ->
  Canvas.extractFilesFromCanvas extractDataFromCanvas canvas
  = Rejected RangeError.
Proof.
  intros Hread Hmagic Hv Hc Hpos Hlen.
  rewrite (extract_settles _ _ _ _ Hread).
  rewrite (parse_header_ok _ _ fileCount) by (done || lia).
  destruct (Z.to_nat fileCount) as [|remaining] eqn:E; [lia|].
  cbn [Canvas.readHeaders].
  destruct (_ <? _) eqn:E0; [apply Z.ltb_lt in E0; lia|].
  rewrite readFileHeader_short by lia. done.
Qed.

Lemma extract_rejects_short_data_section_witness :
  let ab := Samples.main_header 1
            ++ Samples.file_block (TextEncoder_encode "a.txt")
                 (TextEncoder_encode "text/plain") 2
            ++ [7; 8] in
  Canvas.extractFilesFromCanvas (Samples.reads ab) Samples.blank
  = Rejected RangeError.
Proof.
  intros ab.
  apply (extract_rejects_short_data_section (Samples.reads ab)
           Samples.blank ab [1%Q] 1).
  - reflexivity.
  - reflexivity.
  - reflexivity.
  - reflexivity.
  - lia.
  - vm_compute. split; [discriminate|reflexivity].
Defined.

(** ** The multi-file writer *)

(** X11.  Every channel of the image [encodeBufferToCanvas] draws takes
    one of four values: a pixel holds six bits of the buffer, two per
    colour channel, and an alpha of 255 (or the 0 of a pixel that was
    never drawn). *)
Theorem multi_file_writer_draws_four_levels (buffer : list Z)
    (pre : list Q) (canvas : Canvas.CanvasEl) (progress : list Q) :
  Canvas.encodeBufferToCanvas buffer pre = Resolved (canvas, progress) ->
  forall j v,
    at_index (Canvas.pixels canvas) j = Some v -> v ∈ levels (j mod 4).
Proof.
  unfold Canvas.encodeBufferToCanvas.
  destruct (Canvas.processChunk _ _ _ _ _) as [[img progress']|] eqn:Hrun;
    [|done].
  intros [= <- <-]. cbn [Canvas.pixels].
  eapply Canvas_processChunk_in_levels; [|exact Hrun].
  apply zeros_in_levels.
Qed.

Lemma multi_file_writer_draws_four_levels_witness :
  exists canvas progress,
    Canvas.encodeBufferToCanvas Samples.six_bytes []
    = Resolved (canvas, progress)
    /\ at_index (Canvas.pixels canvas) 0 = Some 51
    /\ 51 ∈ levels (0 mod 4).
Proof.
  eexists _, _. split; [vm_compute; reflexivity|]. split; [reflexivity|].
  eapply (multi_file_writer_draws_four_levels Samples.six_bytes []).
  - vm_compute. reflexivity.
  - reflexivity.
Defined.

(** X12.  The image [encodeBufferToCanvas] draws depends only on the
    length of the buffer and on its first [3 * (w * h - 1) / 4 + 2]
    bytes, for a canvas of [w * h] pixels: at six bits per pixel the
    canvas planned for three bytes per pixel is full after a quarter of
    the buffer, and the writes for the rest fall outside the image. *)
Theorem multi_file_writer_ignores_the_tail (buffer buffer' : list Z)
    (pre : list Q) :
  byteLength buffer = byteLength buffer' ->
  let dims := Canvas.calculateCanvasSize (byteLength buffer) in
  let pixelCount := Canvas.width dims * Canvas.height dims in
  (forall k, 0 <= k < 3 * (pixelCount - 1) / 4 + 2 ->
     at_index buffer k = at_index buffer' k) ->
  Canvas.encodeBufferToCanvas buffer pre
  = Canvas.encodeBufferToCanvas buffer' pre.
Proof.
  intros Hlen dims pixelCount Hsame.
  unfold Canvas.encodeBufferToCanvas. rewrite <- Hlen. fold dims.
  destruct (calculateCanvasSizeForFiles_holds
              [Canvas.mkFile "" None (zeros (byteLength buffer))])
    as (_ & _ & Hw & Hh).
  change (Canvas.calculateCanvasSizeForFiles _) with dims in Hw, Hh.
  rewrite (Canvas_processChunk_prefix buffer buffer' pixelCount); try done.
  apply byteLength_zeros. unfold pixelCount. nia.
Qed.

Lemma multi_file_writer_ignores_the_tail_witness :
  Canvas.encodeBufferToCanvas (zeros 1000) []
  = Canvas.encodeBufferToCanvas (store (zeros 1000) 999 255) [].
Proof.
  apply (multi_file_writer_ignores_the_tail (zeros 1000)
           (store (zeros 1000) 999 255) []).
  - vm_compute. reflexivity.
  - intros k [_ Hk].
    assert (Hb : k < 301).
    { eapply Z.lt_le_trans; [exact Hk|]. vm_compute. discriminate. }
    rewrite at_index_store_ne; [done|lia].
Defined.

(** ** The workers *)

(** X13.  The encoding worker, for any positive chunk size: it posts
    progress messages whose fractions never go down and end at 1, then
    its 'complete' message, and the image it posts holds byte [i] of
    the data in channel [i mod 3] of pixel [i / 3] on an opaque white
    background. *)
Theorem encode_worker_draws_bytes_on_white (fileData : list Z)
    (width height chunkSize : Z) (timeouts : nat) :
  0 < chunkSize -> 0 <= width * height ->
  byteLength fileData < Z.of_nat timeouts ->
  exists pixels fractions,
    Worker.encode_onmessage timeouts fileData width height chunkSize
    = Ok (Some ((Worker.Progress <$> fractions)
                ++ [Worker.Complete (pixels, width, height)]))
    /\ byteLength pixels = width * height * 4
    /\ (forall j, 0 <= j < width * height * 4 ->
          at_index pixels j
          = Some (if (j mod 4 =? 3)
                     || (byteLength fileData <=? 3 * (j / 4) + j mod 4)
                  then 255
                  else toUint8Clamp
                         (byte_at fileData (3 * (j / 4) + j mod 4))))
    /\ nondecreasing fractions
    /\ (0 < byteLength fileData -> ends_at_one fractions).
Proof.
  intros Hchunk Hsize Hfuel. by apply encode_onmessage_image.
Qed.

Lemma encode_worker_draws_bytes_on_white_witness :
  exists pixels fractions,
    Worker.encode_onmessage 4 [7; 8; 9] 2 1 2
    = Ok (Some ((Worker.Progress <$> fractions)
                ++ [Worker.Complete (pixels, 2, 1)]))
    /\ byteLength pixels = 2 * 1 * 4.
Proof.
  destruct (encode_worker_draws_bytes_on_white [7; 8; 9] 2 1 2 4)
    as (pixels & fractions & Hrun & Hlen & _);
    [lia | lia | vm_compute; reflexivity |].
  exists pixels, fractions. split; [exact Hrun|exact Hlen].
Defined.

(** X14.  The two workers invert each other: what the encoding worker
    draws from a header followed by data, the decoding worker reads
    back as exactly the data, when the image has a pixel for every
    three bytes. *)
Theorem workers_round_trip (header fileData : list Z)
    (width height chunkSize chunkSize' : Z) (timeouts timeouts' : nat) :
  Forall is_byte fileData ->
  0 < chunkSize -> 0 < chunkSize' ->
  byteLength (header ++ fileData) <= width * height * 3 ->
  byteLength (header ++ fileData) < Z.of_nat timeouts ->
  byteLength fileData < Z.of_nat timeouts' ->
  exists pixels posted posted',
    Worker.encode_onmessage timeouts (header ++ fileData) width height
      chunkSize
    = Ok (Some (posted ++ [Worker.Complete (pixels, width, height)]))
    /\ Worker.decode_onmessage timeouts' pixels (byteLength header)
         (byteLength fileData) chunkSize'
       = Ok (Some (posted' ++ [Worker.Complete fileData])).
Proof.
  intros Hbytes Hchunk Hchunk' Hfit Hfuel Hfuel'.
  pose proof (byteLength_nonneg header) as Hh.
  pose proof (byteLength_nonneg fileData) as Hd.
  rewrite byteLength_app in Hfit.
  destruct (encode_onmessage_image (header ++ fileData)
              width height chunkSize timeouts Hchunk ltac:(lia) Hfuel)
    as (pixels & fractions & Hrun & Hlen & Hj & _).
  rewrite byteLength_app in Hj.
  exists pixels, (Worker.Progress <$> fractions).
  unfold Worker.decode_onmessage, Worker.alloc.
  destruct (byteLength fileData <? 0) eqn:E; [apply Z.ltb_lt in E; lia|].
  cbn [bind].
  destruct (decode_chain pixels (byteLength header) (byteLength fileData)
              chunkSize' Hchunk' Hh) with
      (timeouts := timeouts') (start := 0)
      (stop := Z.min chunkSize' (byteLength fileData))
      (result := zeros (byteLength fileData))
      (posted := @nil (Worker.message (list Z)))
    as (result' & fractions' & Hrun' & Hl' & Hk' & _).
  { intros k Hk. unfold channel_index. rewrite Hlen. div_lia. }
  { lia. }
  { lia. }
  { by apply byteLength_zeros. }
  { destruct (Z.min_spec chunkSize' (byteLength fileData))
      as [[Hlt ->]|[Hge ->]].
    - apply orb_true_intro. left. unfold Worker.rem_is_zero.
      destruct (chunkSize' =? 0) eqn:E0; [apply Z.eqb_eq in E0; lia|].
      rewrite Z.rem_same by lia. done.
    - apply orb_true_intro. right. apply Z.leb_le. lia. }
  { lia. }
  exists (Worker.Progress <$> fractions').
  split; [exact Hrun|]. rewrite Hrun'. cbn [app].
  enough (result' = fileData) as -> by done.
  apply at_index_ext; [done|]. rewrite Hl'. intros k Hk.
  rewrite Hk'. case_decide; [|lia].
  unfold channel_index, byte_at at 1.
  rewrite Hj by div_lia. cbn [default].
  replace ((((k + byteLength header) / 3 * 4
             + (k + byteLength header) mod 3)) mod 4)
    with ((k + byteLength header) mod 3) by div_lia.
  replace ((((k + byteLength header) / 3 * 4
             + (k + byteLength header) mod 3)) / 4)
    with ((k + byteLength header) / 3) by div_lia.
  replace (3 * ((k + byteLength header) / 3) + (k + byteLength header) mod 3)
    with (byteLength header + k) by div_lia.
  destruct (_ =? 3) eqn:E3; [apply Z.eqb_eq in E3; div_lia|].
  destruct (_ <=? _) eqn:E4; [apply Z.leb_le in E4; lia|]. cbn [orb].
  unfold byte_at. rewrite at_index_app_r by lia.
  replace (byteLength header + k - byteLength header) with k by lia.
  destruct (at_index_is_Some fileData k Hk) as [b Hb]. rewrite Hb.
  cbn [default]. pose proof (at_index_byte _ _ _ Hbytes Hb) as Hbyte.
  rewrite toUint8Clamp_byte by done. by rewrite toUint8_byte.
Qed.

Lemma workers_round_trip_witness :
  exists pixels posted posted',
    Worker.encode_onmessage 6 ([1; 2] ++ [7; 8; 9]) 2 1 2
    = Ok (Some (posted ++ [Worker.Complete (pixels, 2, 1)]))
    /\ Worker.decode_onmessage 4 pixels (byteLength [1; 2])
         (byteLength [7; 8; 9]) 5
       = Ok (Some (posted' ++ [Worker.Complete [7; 8; 9]])).
Proof.
  apply (workers_round_trip [1; 2] [7; 8; 9] 2 1 2 5 6 4).
  - repeat constructor; unfold is_byte; lia.
  - lia.
  - lia.
  - vm_compute. discriminate.
  - vm_compute. reflexivity.
  - vm_compute. reflexivity.
Defined.

(** X15.  The decoding worker reads back what the single-file writer
    drew: from the canvas [encodeFileToCanvas] produced for a file of
    one chunk, with the header size 32 and the length of the file, it
    posts the file itself, byte for byte. *)
Theorem decode_worker_reads_single_file_canvas (arrayBuffer : list Z)
    (filename mimeType : string) (chunkSize : Z) (timeouts : nat) :
  Forall is_byte arrayBuffer ->
  Legacy.HEADER_SIZE + byteLength arrayBuffer <= Legacy.CHUNK_SIZE ->
  0 < chunkSize -> byteLength arrayBuffer < Z.of_nat timeouts ->
  exists canvas progress posted,
    Legacy.encodeFileToCanvas arrayBuffer filename mimeType
    = Resolved (canvas, progress)
    /\ Worker.decode_onmessage timeouts (Legacy.pixels canvas)
         Legacy.HEADER_SIZE (byteLength arrayBuffer) chunkSize
       = Ok (Some (posted ++ [Worker.Complete arrayBuffer])).
Proof.
  intros Hbytes Hfit Hchunk Hfuel.
  destruct (encodeFileToCanvas_pixels arrayBuffer filename mimeType)
    as (header & img & progress & Hheader & Hlen & He & Himg & Hj).
  pose proof (byteLength_nonneg arrayBuffer) as Hab.
  destruct (Legacy_calculateCanvasSize_holds (byteLength arrayBuffer) Hab)
    as (Hcap & _ & Hw & Hh).
  set (dims := Legacy.calculateCanvasSize (byteLength arrayBuffer)) in *.
  set (wh := Legacy.width dims * Legacy.height dims) in *.
  set (n := byteLength arrayBuffer) in *.
  unfold Legacy.HEADER_SIZE, Legacy.CHUNK_SIZE in *.
  destruct (decode_chain img 32 n chunkSize Hchunk ltac:(lia)) with
      (timeouts := timeouts) (start := 0) (stop := Z.min chunkSize n)
      (result := zeros n) (posted := @nil (Worker.message (list Z)))
    as (result' & fractions' & Hrun' & Hl' & Hk' & _).
  { intros k Hk. unfold channel_index. rewrite Himg. div_lia. }
  { lia. }
  { lia. }
  { by apply byteLength_zeros. }
  { destruct (Z.min_spec chunkSize n) as [[Hlt ->]|[Hge ->]].
    - apply orb_true_intro. left. unfold Worker.rem_is_zero.
      destruct (chunkSize =? 0) eqn:E0; [apply Z.eqb_eq in E0; lia|].
      rewrite Z.rem_same by lia. done.
    - apply orb_true_intro. right. apply Z.leb_le. lia. }
  { lia. }
  eexists _, progress, (Worker.Progress <$> fractions').
  split; [exact He|]. cbn [Legacy.pixels].
  unfold Worker.decode_onmessage, Worker.alloc.
  destruct (n <? 0) eqn:E; [apply Z.ltb_lt in E; lia|]. cbn [bind].
  rewrite Hrun'. cbn [app].
  enough (result' = arrayBuffer) as -> by reflexivity.
  apply at_index_ext; [done|]. rewrite Hl'. intros k Hk.
  rewrite Hk'. case_decide; [|lia]. fold n in Hk.
  unfold channel_index, byte_at at 1.
  rewrite Hj by div_lia. cbn [default].
  replace (((k + 32) / 3 * 4 + (k + 32) mod 3) / 4) with ((k + 32) / 3)
    by div_lia.
  assert (Hpw : pixel_written (32 + n) ((k + 32) / 3) = true).
  { unfold pixel_written, Legacy.CHUNK_SIZE.
    apply andb_true_intro. split; [apply andb_true_intro; split|].
    - apply Z.leb_le. div_lia.
    - apply Z.ltb_lt. div_lia.
    - apply Z.eqb_eq. div_lia. }
  rewrite Hpw. unfold direct_channel.
  replace (((k + 32) / 3 * 4 + (k + 32) mod 3) / 4) with ((k + 32) / 3)
    by div_lia.
  replace (((k + 32) / 3 * 4 + (k + 32) mod 3) mod 4) with ((k + 32) mod 3)
    by div_lia.
  destruct (_ =? 3) eqn:E3; [apply Z.eqb_eq in E3; div_lia|].
  replace (3 * ((k + 32) / 3) + (k + 32) mod 3) with (32 + k) by div_lia.
  rewrite byteLength_app, Hlen. fold n.
  destruct (32 + k <? 32 + n) eqn:E4; [|apply Z.ltb_ge in E4; lia].
  unfold byte_at. rewrite at_index_app_r by lia. rewrite Hlen.
  replace (32 + k - 32) with k by lia.
  destruct (at_index_is_Some arrayBuffer k Hk) as [b Hb]. rewrite Hb.
  cbn [default]. pose proof (at_index_byte _ _ _ Hbytes Hb) as Hbyte.
  rewrite toUint8Clamp_byte by done. by rewrite toUint8_byte.
Qed.

Lemma decode_worker_reads_single_file_canvas_witness :
  exists canvas progress posted,
    Legacy.encodeFileToCanvas [7; 8; 9] "a.txt" "text/plain"
    = Resolved (canvas, progress)
    /\ Worker.decode_onmessage 4 (Legacy.pixels canvas)
         Legacy.HEADER_SIZE (byteLength [7; 8; 9]) 2
       = Ok (Some (posted ++ [Worker.Complete [7; 8; 9]])).
Proof.
  apply (decode_worker_reads_single_file_canvas [7; 8; 9] "a.txt"
           "text/plain" 2 4).
  - repeat constructor; unfold is_byte; lia.
  - vm_compute. discriminate.
  - lia.
  - vm_compute. reflexivity.
Defined.

(** X16.  The decoding worker never posts 'complete' when the image is
    too small for the declared length: the bytes past the image are not
    counted, the count stays below the length, and every chunk
    schedules the next one. *)
Theorem decode_worker_never_completes_on_small_image (imageData : list Z)
    (headerSize dataLength chunkSize : Z) :
  0 < chunkSize -> 0 <= headerSize -> 0 < dataLength ->
  byteLength imageData <= channel_index (dataLength - 1 + headerSize) ->
  forall timeouts,
    Worker.decode_onmessage timeouts imageData headerSize dataLength
      chunkSize
    = Ok None.
Proof.
  intros Hchunk Hhs Hlen Hsmall timeouts.
  unfold Worker.decode_onmessage, Worker.alloc.
  destruct (dataLength <? 0) eqn:E; [apply Z.ltb_lt in E; lia|].
  cbn [bind]. f_equal.
  apply (decode_chain_stuck imageData headerSize dataLength chunkSize
           (dataLength - 1)); try done; try lia.
  - intros k Hk. etransitivity; [exact Hsmall|].
    unfold channel_index. div_lia.
  - cbn [snd]. lia.
Qed.

Lemma decode_worker_never_completes_on_small_image_witness :
  Worker.decode_onmessage 1000 (zeros 8) 2 5 2 = Ok None.
Proof.
  apply (decode_worker_never_completes_on_small_image (zeros 8) 2 5 2).
  - lia.
  - lia.
  - lia.
  - vm_compute. discriminate.
Defined.

(** X17.  Whatever calls of [createWorker], [terminateWorker] and
    [terminateAllWorkers] came before, [terminateAllWorkers] leaves no
    worker running: both variables are empty and every worker ever
    created has been terminated.  [terminateWorker('encode')] stops the
    decoding worker when there is no encoding worker. *)
Theorem terminateAllWorkers_stops_every_worker (cs : list WorkerCall) :
  let r := Worker.terminateAllWorkers (calls cs) in
  Worker.encodeWorker r = None
  /\ Worker.decodeWorker r = None
  /\ (forall w, (w < Worker.created r)%nat -> w ∈ Worker.terminated r)
  /\ (forall w,
        Worker.encodeWorker (calls cs) = None ->
        Worker.decodeWorker (calls cs) = Some w ->
        w ∈ Worker.terminated (Worker.terminateWorker "encode" (calls cs))).
Proof.
  intros r.
  destruct (terminateAllWorkers_slots (calls cs)) as [He Hd].
  fold r in He, Hd. split; [done|]. split; [done|]. split.
  - assert (Hr : accounted r).
    { unfold r, Worker.terminateAllWorkers.
      do 2 apply terminateWorker_accounted. apply calls_accounted. }
    destruct Hr as (_ & Hall & _). intros w Hw.
    destruct (Hall w Hw) as [Ht|[Hc|Hc]]; [done|congruence|congruence].
  - intros w Hnone Hsome. unfold Worker.terminateWorker.
    rewrite Hnone, Hsome. cbn. apply list_elem_of_here.
Qed.

Lemma terminateAllWorkers_stops_every_worker_witness :
  let cs := [CallCreate "decode"] in
  0%nat ∈ Worker.terminated (Worker.terminateWorker "encode" (calls cs)).
Proof.
  intros cs.
  destruct (terminateAllWorkers_stops_every_worker cs) as (_ & _ & _ & H).
  apply (H 0%nat); reflexivity.
Defined.

(** ** The pages that call the codec *)

(** X18.  The limit on the total size does not bound the selection of
    the embed tab.  When one of the new files is larger than the limit
    for a file, none of them is added; but when each fits and their
    total with the files already selected exceeds 20 MB, the error is
    shown after the files were added: they stay in [selectedFiles],
    and the list on the page is not redrawn. *)
Theorem selection_keeps_files_over_the_total_limit
    (files : list Embed.SelectedFile) (st : Embed.State) :
  files <> [] ->
  let limit := Embed.maxSizeOf st * 1024 * 1024 in
  let st' := Embed.handleFileSelect files st in
  (Exists (fun file => limit < Embed.size file) files ->
   Embed.selectedFiles st' = Embed.selectedFiles st
   /\ Embed.fileList st' = Embed.fileList st)
  /\ (Forall (fun file => Embed.size file <= limit) files ->
      Embed.MAX_TOTAL_SIZE_MB * 1024 * 1024
      < Embed.totalSizeOf (Embed.selectedFiles st ++ files) ->
      Embed.selectedFiles st' = Embed.selectedFiles st ++ files
      /\ Embed.fileList st' = Embed.fileList st
      /\ last (Embed.shown st')
         = Some (Embed.TotalTooLarge
                   (Embed.totalSizeOf (Embed.selectedFiles st ++ files))
                   Embed.MAX_TOTAL_SIZE_MB)).
Proof.
  intros Hne limit st'.
  assert (Hlen : (length files =? 0)%nat = false)
    by (destruct files; [done|reflexivity]).
  unfold st', Embed.handleFileSelect, Embed.handleFiles. rewrite Hlen.
  split.
  - intros Hbig.
    destruct (validateEach_Thrown files (Embed.maxSizeOf st) st Hbig)
      as (file & _ & ->). done.
  - intros Hfit Htotal.
    rewrite validateEach_Returned by done.
    unfold Embed.validateTotalSize. cbn [Embed.set_selectedFiles
      Embed.selectedFiles].
    destruct (_ <? _) eqn:E; [|apply Z.ltb_ge in E; lia].
    cbn. split; [done|]. split; [done|].
    by rewrite !last_snoc.
Qed.

Lemma selection_keeps_files_over_the_total_limit_witness :
  let big := Embed.mkSelected "a.bin" "" (9 * 1024 * 1024) (Some []) in
  let st := Embed.mkState [big; big] None [big; big] false Embed.Untouched
              None [] in
  Embed.selectedFiles (Embed.handleFileSelect [big] st) = [big; big; big]
  /\ Embed.fileList (Embed.handleFileSelect [big] st) = [big; big].
Proof.
  intros big st.
  destruct (selection_keeps_files_over_the_total_limit [big] st)
    as [_ Hover]; [done|].
  destruct Hover as (Hsel & Hlist & _).
  - repeat constructor. vm_compute. discriminate.
  - vm_compute. reflexivity.
  - split; [exact Hsel|exact Hlist].
Defined.

(** X19.  [encodeSelectedFiles] cannot succeed.  For every selection
    that holds a file it returns with the download button still
    disabled and the canvas untouched, after showing 'An error occurred
    while processing the file': either a file could not be read, or the
    files were handed to [encodeFilesToCanvas], which rejects every
    list that holds a file. *)
Theorem encodeSelectedFiles_always_fails (st : Embed.State) :
  Embed.selectedFiles st <> [] ->
  exists st',
    Embed.encodeSelectedFiles st = (Embed.Returned, st')
    /\ Embed.disabled st' = true
    /\ Embed.previewCanvas st' = Embed.previewCanvas st
    /\ Embed.selectedFiles st' = Embed.selectedFiles st
    /\ last (Embed.shown st') = Some Embed.ProcessingFailed.
Proof.
  intros Hne. unfold Embed.encodeSelectedFiles.
  assert (Hlen : (length (Embed.selectedFiles st) =? 0)%nat = false)
    by (destruct (Embed.selectedFiles st); [done|reflexivity]).
  rewrite Hlen.
  set (st0 := Embed.set_button true Embed.Processing st).
  pose proof (readAll_frame (Embed.selectedFiles st0)
                (Z.of_nat (length (Embed.selectedFiles st))) [] 0 st0)
    as Hframe.
  destruct (Embed.readAll _ _ _ _ _) as [[completion filesWithData] st1].
  destruct Hframe as (Hd & Hc & Hs & Hw & Hr).
  assert (Hfail : forall s, Embed.disabled s = true ->
            Embed.previewCanvas s = Embed.previewCanvas st ->
            Embed.selectedFiles s = Embed.selectedFiles st ->
            exists st',
              (Embed.Returned, Embed.showError Embed.ProcessingFailed s)
              = (Embed.Returned, st')
              /\ Embed.disabled st' = true
              /\ Embed.previewCanvas st' = Embed.previewCanvas st
              /\ Embed.selectedFiles st' = Embed.selectedFiles st
              /\ last (Embed.shown st') = Some Embed.ProcessingFailed).
  { intros s H1 H2 H3. eexists. split; [reflexivity|].
    cbn. repeat split; try done. by rewrite last_snoc. }
  destruct completion as [|m|]; [|by apply Hfail|done].
  destruct (Hr eq_refl) as [Hfiles _].
  rewrite encodeFilesToCanvas_Rejected.
  - by apply Hfail.
  - intros ->. cbn in Hfiles. cbn in Hne.
    destruct (Embed.selectedFiles st); [done|]. simpl in Hfiles. lia.
Qed.

Lemma encodeSelectedFiles_always_fails_witness :
  let file := Embed.mkSelected "a.txt" "text/plain" 3 (Some [7; 8; 9]) in
  let st := Embed.mkState [file] None [file] false Embed.Untouched None [] in
  exists st',
    Embed.encodeSelectedFiles st = (Embed.Returned, st')
    /\ Embed.disabled st' = true.
Proof.
  intros file st.
  destruct (encodeSelectedFiles_always_fails st) as (st' & Hrun & Hd & _);
    [done|].
  exists st'. split; [exact Hrun|exact Hd].
Defined.

(** X20.  The text tab copies nothing: for every text that is not
    empty [copyToClipboard] ends in its [catch], with the error of the
    file header that cannot be built, and never calls the clipboard. *)
Theorem copyToClipboard_always_fails
    (clipboard_write : Canvas.CanvasEl -> result unit) (text : string) :
  text <> ""%string ->
  TextToImage.copyToClipboard clipboard_write text
  = TextToImage.Failed RangeError.
Proof.
  intros Hne. unfold TextToImage.copyToClipboard.
  destruct (String.eqb text "") eqn:E; [by apply String.eqb_eq in E|].
  by rewrite encodeFilesToCanvas_Rejected.
Qed.

Lemma copyToClipboard_always_fails_witness :
  TextToImage.copyToClipboard (fun _ => Ok tt) "hello"
  = TextToImage.Failed RangeError.
Proof.
  apply (copyToClipboard_always_fails (fun _ => Ok tt) "hello").
  discriminate.
Defined.

(** X21.  The output of [escapeHtml] holds none of the characters that
    open a tag or close an attribute value, and a text without the five
    special characters is returned as it is. *)
Theorem escapeHtml_leaves_no_markup (unsafe : string) :
  Forall (fun a => a <> "<"%char /\ a <> ">"%char
                   /\ a <> Embed.quot /\ a <> "'"%char)
    (list_ascii_of_string (Embed.escapeHtml unsafe))
  /\ (Forall (fun a => a <> "&"%char /\ a <> "<"%char /\ a <> ">"%char
                       /\ a <> Embed.quot /\ a <> "'"%char)
        (list_ascii_of_string unsafe) ->
      Embed.escapeHtml unsafe = unsafe).
Proof.
  split.
  - unfold Embed.escapeHtml.
    set (s1 := Embed.replace_all "&" "&amp;" unsafe).
    set (s2 := Embed.replace_all "<" "&lt;" s1).
    set (s3 := Embed.replace_all ">" "&gt;" s2).
    set (s4 := Embed.replace_all Embed.quot "&quot;" s3).
    assert (H2 : Forall (fun a => a <> "<"%char) (list_ascii_of_string s2)).
    { apply replace_all_removes. repeat constructor; discriminate. }
    assert (H3 : Forall (fun a => a <> "<"%char /\ a <> ">"%char)
                   (list_ascii_of_string s3)).
    { apply Forall_and. split.
      - apply replace_all_keeps; [repeat constructor; discriminate|done].
      - apply replace_all_removes. repeat constructor; discriminate. }
    assert (H4 : Forall (fun a => (a <> "<"%char /\ a <> ">"%char)
                                  /\ a <> Embed.quot)
                   (list_ascii_of_string s4)).
    { apply Forall_and. split.
      - apply replace_all_keeps; [|done].
        repeat constructor; discriminate.
      - apply replace_all_removes. repeat constructor; discriminate. }
    assert (H5 : Forall (fun a => ((a <> "<"%char /\ a <> ">"%char)
                                   /\ a <> Embed.quot) /\ a <> "'"%char)
                   (list_ascii_of_string
                      (Embed.replace_all "'" "&#039;" s4))).
    { apply Forall_and. split.
      - apply replace_all_keeps; [|done].
        repeat constructor; discriminate.
      - apply replace_all_removes. repeat constructor; discriminate. }
    eapply Forall_impl; [exact H5|]. intros a [[[? ?] ?] ?]. done.
  - intros Hplain.
    assert (Hid : forall c replacement s,
              Forall (fun a => a <> c) (list_ascii_of_string s) ->
              Embed.replace_all c replacement s = s).
    { intros c replacement s. induction s as [|a s IH]; [done|].
      cbn [list_ascii_of_string Embed.replace_all]. intros Hs.
      apply Forall_cons in Hs as [Ha Hs].
      apply Ascii.eqb_neq in Ha. rewrite Ha. by rewrite IH. }
    unfold Embed.escapeHtml.
    rewrite (Hid "&"%char)
      by (eapply Forall_impl; [exact Hplain|]; by intros a (? & _)).
    rewrite (Hid "<"%char)
      by (eapply Forall_impl; [exact Hplain|]; by intros a (_ & ? & _)).
    rewrite (Hid ">"%char)
      by (eapply Forall_impl; [exact Hplain|]; by intros a (_ & _ & ? & _)).
    rewrite (Hid Embed.quot)
      by (eapply Forall_impl; [exact Hplain|];
          by intros a (_ & _ & _ & ? & _)).
    apply Hid. eapply Forall_impl; [exact Hplain|].
    by intros a (_ & _ & _ & _ & ?).
Qed.

Lemma escapeHtml_leaves_no_markup_witness :
  Embed.escapeHtml "a.txt" = "a.txt"%string.
Proof.
  destruct (escapeHtml_leaves_no_markup "a.txt") as [_ H].
  apply H. repeat constructor; discriminate.
Defined.

(** ** The planners and the outcomes of the single-file reader *)

(** X22.  The canvas the planners choose is tight and never taller
    than wide, for every total below [exact_limit], where their
    arithmetic is exact: for [p] pixels needed (a third of the bytes,
    rounded up) the last row is needed, the height is at most the
    width, and the width is at most two more than a side whose square
    is below [p]. *)
Theorem planned_canvas_is_tight (files : list Canvas.File) (n : Z) :
  Canvas.totalSizeOf files < exact_limit ->
  0 <= n < exact_limit ->
  (let d := Canvas.calculateCanvasSizeForFiles files in
   let p := ceil_div (Canvas.totalSizeOf files) 3 in
   (Canvas.height d - 1) * Canvas.width d < p
   /\ p <= Canvas.height d * Canvas.width d
   /\ 0 < Canvas.height d <= Canvas.width d
   /\ (Canvas.width d - 2) * (Canvas.width d - 2) < p)
  /\ (let d := Legacy.calculateCanvasSize n in
      let p := ceil_div (n + Legacy.HEADER_SIZE) 3 in
      (Legacy.height d - 1) * Legacy.width d < p
      /\ p <= Legacy.height d * Legacy.width d
      /\ 0 < Legacy.height d <= Legacy.width d
      /\ (Legacy.width d - 2) * (Legacy.width d - 2) < p).
Proof.
  intros _ [Hn _]. split.
  - pose proof (totalSizeOf_pos files) as Hpos.
    apply planned_shape. apply ceil_div_pos; lia.
  - apply planned_shape. apply ceil_div_pos; [lia|].
    unfold Legacy.HEADER_SIZE. lia.
Qed.

Lemma planned_canvas_is_tight_witness :
  Canvas.totalSizeOf Samples.two_files < exact_limit
  /\ 0 <= 1000 < exact_limit
  /\ (let d := Canvas.calculateCanvasSizeForFiles Samples.two_files in
      0 < Canvas.height d <= Canvas.width d)
  /\ (let d := Legacy.calculateCanvasSize 1000 in
      (Legacy.height d - 1) * Legacy.width d < ceil_div (1000 + 32) 3
      /\ 0 < Legacy.height d <= Legacy.width d).
Proof.
  assert (Hfiles : Canvas.totalSizeOf Samples.two_files < exact_limit)
    by (vm_compute; reflexivity).
  assert (Hn : 0 <= 1000 < exact_limit) by (unfold exact_limit; lia).
  split; [exact Hfiles|]. split; [exact Hn|].
  destruct (planned_canvas_is_tight Samples.two_files 1000 Hfiles Hn)
    as [(_ & _ & Hnew & _) (H1 & _ & H2 & _)].
  split; [exact Hnew|]. split; [exact H1|exact H2].
Defined.

(** X23.  [decodeFileFromCanvas] settles on every canvas: it is
    rejected with 'Invalid data length in header' when the length the
    header declares is 0 or more than [width * height * 3 - 32], and it
    resolves otherwise.  'Image does not contain enough data' is never
    thrown: a length that passes the first check always has its
    pixels. *)
Theorem single_file_reader_outcomes (canvas : Legacy.CanvasEl) :
  exists declared,
    Legacy.declaredLength canvas = Ok declared
    /\ if (declared <=? 0)
          || (Legacy.canvas_width canvas * Legacy.canvas_height canvas * 3
              - Legacy.HEADER_SIZE <? declared)
       then Legacy.decodeFileFromCanvas canvas = Rejected InvalidDataLength
       else exists decoded progress,
              Legacy.decodeFileFromCanvas canvas
              = Resolved (decoded, progress)
              /\ byteLength (Legacy.data decoded) = declared.
Proof.
  pose proof (readHeader_length (Legacy.pixels canvas)) as Hlen.
  unfold Legacy.HEADER_SIZE in Hlen.
  destruct (getUint16_Ok (Legacy.readHeader (Legacy.pixels canvas)) 0)
    as [v0 E0]; [lia..|].
  destruct (getUint16_Ok (Legacy.readHeader (Legacy.pixels canvas)) 22)
    as [v1 E1]; [lia..|].
  assert (E2 : exists declared,
             getUint32 (Legacy.readHeader (Legacy.pixels canvas)) 28
             = Ok declared).
  { unfold getUint32. rewrite in_view_true by lia. by eexists. }
  destruct E2 as [declared E2]. exists declared.
  split; [exact E2|].
  destruct (_ || _) eqn:Eguard.
  - unfold Legacy.decodeFileFromCanvas, Legacy.readMetadata. cbv zeta.
    rewrite E0. cbn [bind]. rewrite E1. cbn [bind]. rewrite E2. cbn [bind].
    by rewrite Eguard.
  - assert (Hmeta : exists filename mimeType,
              Legacy.readMetadata canvas
              = Ok (filename, mimeType, declared,
                    ceil_div (declared + Legacy.HEADER_SIZE) 3)).
    { unfold Legacy.readMetadata. cbv zeta.
      rewrite E0. cbn [bind]. rewrite E1. cbn [bind]. rewrite E2.
      cbn [bind]. rewrite Eguard.
      apply orb_false_elim in Eguard as [G0 G1].
      apply Z.leb_gt in G0. apply Z.ltb_ge in G1.
      unfold Legacy.HEADER_SIZE in *.
      destruct (_ <? ceil_div _ _) eqn:E3; [|by eexists _, _].
      apply Z.ltb_lt in E3. unfold ceil_div in E3. exfalso. div_lia. }
    destruct Hmeta as (filename & mimeType & Hmeta).
    destruct (decodeFileFromCanvas_Ok _ _ _ _ _ Hmeta)
      as (data & progress & Hdec & (Hl & _) & _).
    eexists _, progress. split; [exact Hdec|]. exact Hl.
Qed.
